(** * E-commerce data pipeline: generation, CSV hand-off and bulk load

    A shallow embedding of [generate-data.js] (entity generation, referential
    linking, CSV serialisation) and of [create-database.js] (CSV loading,
    schema management, transactional bulk insert), with the properties the
    specification states about them.

    Conventions of the embedding:
    - JavaScript numbers are IEEE-754 binary64 values: [float] with the
      primitive operations of [PrimFloat].  Integers that the program only
      counts with (ids, quantities, indices) are carried as [Z].
    - JavaScript strings are [string]s over 8-bit code units.
    - An exception is the [Throw] outcome of a [Result]; code that draws
      random values runs in [Gen], a state-and-error monad over an explicit
      stream of draws.
    - Built-ins of the platform whose text is not part of the repository
      ([Number], [toFixed], [toISOString], the [Date] constructor, the clock,
      faker's word lists) are the fields of the class [Platform]. *)

From Stdlib Require Import ZArith List String Ascii Bool Lia.
From Stdlib Require Import PrimFloat FloatOps SpecFloat FloatAxioms.
From Stdlib Require Import DecimalString DecimalZ DecimalN DecimalPos.
From stdpp Require Import base option list gmap strings.

Local Open Scope string_scope.
Local Open Scope Z_scope.

(** ** Outcomes and the generator monad *)

Inductive Result (A : Type) : Type :=
| Ok (a : A)
| Throw (e : string).
Arguments Ok {A} a.
Arguments Throw {A} e.

Definition result_bind {A B} (r : Result A) (k : A -> Result B) : Result B :=
  match r with
  | Ok a => k a
  | Throw e => Throw e
  end.

(** The random source: an infinite stream of raw draws.  Every sequence of
    outcomes of the Mersenne twister is the image of some stream. *)
Definition Rng : Type := nat -> nat.

Definition draw (g : Rng) : nat * Rng := (g 0%nat, fun n => g (S n)).

Definition rng_of_list (l : list nat) : Rng := fun n => nth n l 0%nat.

Definition Gen (A : Type) : Type := Rng -> Result (A * Rng).

Definition gret {A} (a : A) : Gen A := fun g => Ok (a, g).

Definition gthrow {A} (e : string) : Gen A := fun _ => Throw e.

Definition gbind {A B} (m : Gen A) (k : A -> Gen B) : Gen B :=
  fun g => match m g with
           | Ok (a, g') => k a g'
           | Throw e => Throw e
           end.

Notation "'do' x <- m ; k" := (gbind m (fun x => k))
  (at level 10, x name, m at level 100, k at level 200).

Fixpoint gmapM {A B} (f : A -> Gen B) (l : list A) : Gen (list B) :=
  match l with
  | [] => gret []
  | a :: l' => do b <- f a; do bs <- gmapM f l'; gret (b :: bs)
  end.

(** ** faker *)

Module faker.

(** [faker.number.int({min, max})]: an integer of the closed range, an
    error when the range is empty, no draw when it is a single point. *)
Definition number_int (min max : Z) : Gen Z :=
  if max <? min then gthrow "Max should be greater than min."
  else if min =? max then gret min
  else fun g => let (r, g') := draw g in
                Ok (min + Z.of_nat r mod (max - min + 1), g').

(** The position [faker.helpers.arrayElement] picks in an array of [len]
    elements. *)
Definition arrayElement_index (len : nat) : Gen nat :=
  match len with
  | O => gthrow "Cannot get value from empty dataset."
  | S O => gret O
  | _ => do i <- number_int 0 (Z.of_nat len - 1); gret (Z.to_nat i)
  end.

Definition arrayElement {A} (array : list A) : Gen A :=
  do i <- arrayElement_index (length array);
  match array !! i with
  | Some a => gret a
  | None => gthrow "Cannot get value from empty dataset."
  end.

(** [faker.date.between({from, to})] on time values (milliseconds). *)
Definition date_between (from to : Z) : Gen Z :=
  do offset <- number_int 0 (to - from); gret (from + offset).

End faker.

(** ** Platform built-ins *)

Class Platform : Type := {
  (** [Number(text)] *)
  Number : string -> float;
  (** [x.toFixed(2)] *)
  toFixed2 : float -> string;
  (** [new Date(t).toISOString()] for a time value [t] *)
  toISOString : Z -> string;
  (** [new Date(text).getTime()] *)
  parseDate : string -> Z;
  (** [new Date().getTime()]: the clock, read as constant over one run *)
  now : Z;
  (** the time value after [setFullYear(getFullYear() - 1)] *)
  yearBefore : Z -> Z;
  yearBefore_le : forall t, yearBefore t <= t;
  (** faker's word lists, indexed by a raw draw *)
  person_fullName : nat -> string;
  internet_email : nat -> string;
  location_country : nat -> string;
  commerce_productName : nat -> string;
  commerce_price : nat -> string;
  toLowerCase : string -> string;
}.

(** The exact binary64 value of an integer (round to nearest even beyond
    2^53). *)
Definition float_of_Z (z : Z) : float :=
  SF2Prim (binary_normalize prec emax z 0 false).

(** ** Entities *)

Module Customer.
Record t : Type := mk {
  customer_id : Z;
  name : string;
  email : string;
  signup_date : string;
  country : string;
}.
End Customer.

Module Product.
Record t : Type := mk {
  product_id : Z;
  product_name : string;
  category : string;
  price : string;
  stock_quantity : Z;
}.
End Product.

(** [total_amount] is a number while items are being assigned and the text
    of [toFixed(2)] once finalised: the record is indexed by its type. *)
Module Order.
Record t (A : Type) : Type := mk {
  order_id : Z;
  customer_id : Z;
  order_date : string;
  total_amount : A;
}.
Arguments mk {A}.
Arguments order_id {A}.
Arguments customer_id {A}.
Arguments order_date {A}.
Arguments total_amount {A}.

Definition with_total {A B} (o : t A) (x : B) : t B :=
  mk (order_id o) (customer_id o) (order_date o) x.
End Order.

Module OrderItem.
Record t : Type := mk {
  order_item_id : Z;
  order_id : Z;
  product_id : Z;
  quantity : Z;
  unit_price : string;
}.
End OrderItem.

Module Payment.
Record t : Type := mk {
  payment_id : Z;
  order_id : Z;
  payment_method : string;
  payment_status : string;
  payment_date : string;
}.
End Payment.

(** ** ECMAScript built-ins the two scripts call

    Text is processed as a list of code units; [Js.chars] and [Js.text]
    convert.  Code units are 8 bits wide, so the white space of [trim],
    [parseInt], [parseFloat] and [Number] is TAB, LF, VT, FF, CR, SP and
    NBSP. *)

Module Js.

Definition chars (s : string) : list ascii := list_ascii_of_string s.
Definition text (l : list ascii) : string := string_of_list_ascii l.

Definition is_ws (c : ascii) : bool :=
  existsb (Ascii.eqb c) ["009"; "010"; "011"; "012"; "013"; " "; "160"]%char.

Definition is_digit (c : ascii) : bool :=
  let n := N_of_ascii c in ((48 <=? n) && (n <=? 57))%N.

Definition digit_val (c : ascii) : Z := Z.of_N (N_of_ascii c) - 48.

Fixpoint skip_ws (l : list ascii) : list ascii :=
  match l with
  | c :: l' => if is_ws c then skip_ws l' else l
  | [] => []
  end.

(** [String.prototype.trim] *)
Definition trim_chars (l : list ascii) : list ascii :=
  rev (skip_ws (rev (skip_ws l))).

Definition trim (s : string) : string := text (trim_chars (chars s)).

(** The longest run of decimal digits at the front, and what follows. *)
Fixpoint span_digits (l : list ascii) : list ascii * list ascii :=
  match l with
  | c :: l' =>
      if is_digit c then let (ds, r) := span_digits l' in (c :: ds, r) else ([], l)
  | [] => ([], [])
  end.

Definition digits_value (ds : list ascii) : Z :=
  fold_left (fun acc c => acc * 10 + digit_val c) ds 0.

Definition take_sign (l : list ascii) : bool * list ascii :=
  match l with
  | "-"%char :: r => (true, r)
  | "+"%char :: r => (false, r)
  | _ => (false, l)
  end.

Definition signed_zero (neg : bool) : float := if neg then neg_zero else zero.

(** [Number.parseInt(text, 10)] *)
Definition parseInt (s : string) : float :=
  let (neg, l) := take_sign (skip_ws (chars s)) in
  match fst (span_digits l) with
  | [] => nan
  | ds => let v := digits_value ds in
          if v =? 0 then signed_zero neg else float_of_Z (if neg then - v else v)
  end.

(** The binary64 value nearest to [m * 10^e] (ties to even), for [0 <= m]. *)
Definition decimal_to_float (neg : bool) (m e : Z) : float :=
  if m =? 0 then signed_zero neg
  else
    let sf :=
      if 0 <=? e then binary_normalize prec emax (m * 10 ^ e) 0 false
      else
        let d := 10 ^ (- e) in
        let s := Z.log2 d + 66 in
        let q := (m * 2 ^ s) / d in
        let sticky := if (m * 2 ^ s) mod d =? 0 then 0 else 1 in
        binary_normalize prec emax (2 * q + sticky) (- s - 1) false in
    let f := SF2Prim sf in
    if neg then (- f)%float else f.

(** What a [StrDecimalLiteral] denotes. *)
Inductive Literal : Type :=
| LInfinity (neg : bool)
| LDecimal (neg : bool) (m e : Z).

Definition literal_value (lit : Literal) : float :=
  match lit with
  | LInfinity neg => if neg then neg_infinity else infinity
  | LDecimal neg m e => decimal_to_float neg m e
  end.

Fixpoint starts_with (p l : list ascii) : bool :=
  match p, l with
  | [], _ => true
  | a :: p', b :: l' => Ascii.eqb a b && starts_with p' l'
  | _ :: _, [] => false
  end.

Definition is_nil {A} (l : list A) : bool :=
  match l with [] => true | _ => false end.

(** An exponent part at the front of [l], when there is one. *)
Definition take_exponent (l : list ascii) : Z * list ascii :=
  match l with
  | c :: r =>
      if Ascii.eqb c "e" || Ascii.eqb c "E" then
        let (eneg, r1) := take_sign r in
        let (ds, r2) := span_digits r1 in
        if is_nil ds then (0, l)
        else ((if eneg then - digits_value ds else digits_value ds), r2)
      else (0, l)
  | [] => (0, l)
  end.

(** The longest prefix of [l] that is a [StrDecimalLiteral], read, and the
    rest of [l]. *)
Definition decimal_prefix (l : list ascii) : option (Literal * list ascii) :=
  let (neg, l1) := take_sign l in
  if starts_with (chars "Infinity") l1 then Some (LInfinity neg, drop 8 l1)
  else
    let (d1, r1) := span_digits l1 in
    let '(d2, r2) :=
      match r1 with
      | "."%char :: r =>
          let (d2, r2) := span_digits r in
          if is_nil d1 && is_nil d2 then ([], r1) else (d2, r2)
      | _ => ([], r1)
      end in
    if is_nil d1 && is_nil d2 then None
    else
      let (ex, r3) := take_exponent r2 in
      Some (LDecimal neg (digits_value (d1 ++ d2)) (ex - Z.of_nat (length d2)), r3).

(** [Number.parseFloat(text)] *)
Definition parseFloat (s : string) : float :=
  match decimal_prefix (skip_ws (chars s)) with
  | Some (lit, _) => literal_value lit
  | None => nan
  end.

Definition radix_digit (radix : Z) (c : ascii) : option Z :=
  let n := Z.of_N (N_of_ascii c) in
  let v := if (48 <=? n) && (n <=? 57) then n - 48
           else if (97 <=? n) && (n <=? 102) then n - 87
           else if (65 <=? n) && (n <=? 70) then n - 55
           else radix in
  if v <? radix then Some v else None.

Fixpoint radix_value (radix : Z) (l : list ascii) (acc : Z) : option Z :=
  match l with
  | [] => Some acc
  | c :: l' => match radix_digit radix c with
               | Some v => radix_value radix l' (acc * radix + v)
               | None => None
               end
  end.

(** A [NonDecimalIntegerLiteral]: [0x], [0o] or [0b] and digits. *)
Definition non_decimal (l : list ascii) : option Z :=
  match l with
  | "0"%char :: p :: (_ :: _) as ds =>
      if Ascii.eqb p "x" || Ascii.eqb p "X" then radix_value 16 ds 0
      else if Ascii.eqb p "o" || Ascii.eqb p "O" then radix_value 8 ds 0
      else if Ascii.eqb p "b" || Ascii.eqb p "B" then radix_value 2 ds 0
      else None
  | _ => None
  end.

(** [Number(text)] *)
Definition Number (s : string) : float :=
  let l := trim_chars (chars s) in
  if is_nil l then zero
  else match non_decimal l with
       | Some v => float_of_Z v
       | None => match decimal_prefix l with
                 | Some (lit, []) => literal_value lit
                 | _ => nan
                 end
       end.

(** Decimal digits of a natural number, and of an integer. *)
Definition digits_of_N (n : N) : string := NilZero.string_of_uint (N.to_uint n).

Definition string_of_Z (z : Z) : string := NilZero.string_of_int (Z.to_int z).

(** *** [Number::toString] on large integer-valued numbers

    From 2^53 on a number is written with the fewest significant digits
    that read back as the same number, the nearest such numeral when there
    are several, and in exponent notation from 10^21 on. *)

Definition same_number (a b : Z) : bool :=
  PrimFloat.eqb (SF2Prim (binary_normalize prec emax a 0 false))
                (SF2Prim (binary_normalize prec emax b 0 false)).

Definition decimal_length (v : Z) : nat := String.length (string_of_Z v).

(** The numeral of [k] significant digits for [v], for the first [k] of
    [ks] that has one; [v] itself when none has. *)
Fixpoint shortest_numeral (v : Z) (n : nat) (ks : list nat) : Z :=
  match ks with
  | [] => v
  | k :: ks' =>
      let p := 10 ^ Z.of_nat (n - k) in
      let lo := v / p * p in
      let hi := lo + p in
      match same_number lo v, same_number hi v with
      | true, true =>
          if v - lo <? hi - v then lo
          else if hi - v <? v - lo then hi
          else if Z.even (lo / p) then lo else hi
      | true, false => lo
      | false, true => hi
      | false, false => shortest_numeral v n ks'
      end
  end.

Fixpoint drop_zeros (l : list ascii) : list ascii :=
  match l with
  | "0"%char :: l' => drop_zeros l'
  | _ => l
  end.

(** The text of the number whose exact value is the integer [0 < v]. *)
Definition integer_text (v : Z) : string :=
  let n := decimal_length v in
  let c := shortest_numeral v n (seq 1 n) in
  let len := decimal_length c in
  if (len <=? 21)%nat then string_of_Z c
  else
    match rev (drop_zeros (rev (chars (string_of_Z c)))) with
    | [] => string_of_Z c
    | d :: ds =>
        text (d :: (match ds with [] => [] | _ => "."%char :: ds end) ++
              chars "e+" ++ chars (digits_of_N (N.of_nat (len - 1))))
    end.

(** [String(n)] for the number nearest to the integer [z]. *)
Definition number_text (z : Z) : string :=
  match binary_normalize prec emax z 0 false with
  | S754_nan => "NaN"
  | S754_infinity s => if s then "-Infinity" else "Infinity"
  | S754_zero _ => "0"
  | S754_finite s m e =>
      let v := if 0 <=? e then Z.pos m * 2 ^ e else Z.pos m / 2 ^ (- e) in
      ((if s then "-" else "") ++ integer_text v)%string
  end.

(** [s.padStart(width, "0")] *)
Definition pad_left (width : nat) (s : string) : string :=
  Nat.iter (width - String.length s) (String "0"%char) s.

(** [x.toFixed(2)]: two decimals, the nearer of the two candidates and the
    larger one on a tie; from 10^21 on, the text [String(x)] gives. *)
Definition toFixed2 (x : float) : string :=
  match Prim2SF x with
  | S754_nan => "NaN"
  | S754_infinity s => if s then "-Infinity" else "Infinity"
  | S754_zero _ => "0.00"
  | S754_finite s m e =>
      let sign := if s then "-" else "" in
      if (0 <=? e) && (10 ^ 21 <=? Z.pos m * 2 ^ e) then
        (sign ++ integer_text (Z.pos m * 2 ^ e))%string
      else
        let n := if 0 <=? e then Z.pos m * 2 ^ e * 100
                 else (2 * (Z.pos m * 100) + 2 ^ (- e)) / (2 * 2 ^ (- e)) in
        let cents := pad_left 2 (digits_of_N (Z.to_N (n mod 100))) in
        let units := digits_of_N (Z.to_N (n / 100)) in
        (sign ++ units ++ "." ++ cents)%string
  end.

(** *** Dates: time values are milliseconds since the epoch, UTC *)

Definition ms_per_day : Z := 86400000.

(** Proleptic Gregorian date of a day number (days since 1970-01-01). *)
Definition civil_from_days (days : Z) : Z * Z * Z :=
  let z := days + 719468 in
  let era := z / 146097 in
  let doe := z - era * 146097 in
  let yoe := (doe - doe / 1460 + doe / 36524 - doe / 146096) / 365 in
  let doy := doe - (365 * yoe + yoe / 4 - yoe / 100) in
  let mp := (5 * doy + 2) / 153 in
  let d := doy - (153 * mp + 2) / 5 + 1 in
  let m := if mp <? 10 then mp + 3 else mp - 9 in
  let y := yoe + era * 400 + (if m <=? 2 then 1 else 0) in
  (y, m, d).

Definition days_from_civil (y m d : Z) : Z :=
  let y' := if m <=? 2 then y - 1 else y in
  let era := y' / 400 in
  let yoe := y' - era * 400 in
  let doy := (153 * (if 2 <? m then m - 3 else m + 9) + 2) / 5 + d - 1 in
  let doe := yoe * 365 + yoe / 4 - yoe / 100 + doy in
  era * 146097 + doe - 719468.

Definition pad_N (width : nat) (z : Z) : string :=
  pad_left width (digits_of_N (Z.to_N z)).

(** [Date.prototype.toISOString] *)
Definition toISOString (t : Z) : string :=
  let days := t / ms_per_day in
  let ms := t mod ms_per_day in
  let '(y, m, d) := civil_from_days days in
  let year := if (0 <=? y) && (y <=? 9999) then pad_N 4 y
              else ((if (y <? 0)%Z then "-" else "+") ++ pad_N 6 (Z.abs y))%string in
  (year ++ "-" ++ pad_N 2 m ++ "-" ++ pad_N 2 d ++ "T" ++
   pad_N 2 (ms / 3600000)%Z ++ ":" ++ pad_N 2 (ms / 60000 mod 60)%Z ++ ":" ++
   pad_N 2 (ms / 1000 mod 60)%Z ++ "." ++ pad_N 3 (ms mod 1000)%Z ++ "Z")%string.

(** Reads exactly [n] digits. *)
Fixpoint take_number (n : nat) (l : list ascii) (acc : Z) : option (Z * list ascii) :=
  match n with
  | O => Some (acc, l)
  | S n' => match l with
            | c :: l' => if is_digit c then take_number n' l' (acc * 10 + digit_val c)
                         else None
            | [] => None
            end
  end.

Definition expect (c : ascii) (l : list ascii) : option (list ascii) :=
  match l with
  | c' :: l' => if Ascii.eqb c c' then Some l' else None
  | [] => None
  end.

(** The time value of a text in the format [toISOString] writes. *)
Definition parse_iso (l : list ascii) : option Z :=
  '(y, l) ← match l with
            | "+"%char :: r => take_number 6 r 0
            | "-"%char :: r => '(y, r') ← take_number 6 r 0; Some (- y, r')
            | _ => take_number 4 l 0
            end;
  l ← expect "-" l; '(m, l) ← take_number 2 l 0;
  l ← expect "-" l; '(d, l) ← take_number 2 l 0;
  l ← expect "T" l; '(hh, l) ← take_number 2 l 0;
  l ← expect ":" l; '(mm, l) ← take_number 2 l 0;
  l ← expect ":" l; '(ss, l) ← take_number 2 l 0;
  l ← expect "." l; '(ms, l) ← take_number 3 l 0;
  l ← expect "Z" l;
  if is_nil l then
    Some (days_from_civil y m d * ms_per_day + hh * 3600000 + mm * 60000 + ss * 1000 + ms)
  else None.

(** [new Date(text).getTime()] on a text in the format [toISOString]
    writes, which is what the generators hand on.  A text that is not in
    that format has no time value here and is given 0. *)
Definition parseDate (s : string) : Z := default 0 (parse_iso (chars s)).

Fixpoint lower_chars (l : list ascii) : list ascii :=
  match l with
  | c :: l' =>
      let n := N_of_ascii c in
      (if ((65 <=? n) && (n <=? 90))%N then ascii_of_N (n + 32) else c) :: lower_chars l'
  | [] => []
  end.

Definition toLowerCase (s : string) : string := text (lower_chars (chars s)).

End Js.

(** *** Vocabulary of the statements about numbers *)

Definition not_nan (x : spec_float) : bool :=
  match x with S754_nan => false | _ => true end.

(** The characters of a decimal numeral. *)
Definition digit_chars (d : Decimal.uint) : list ascii :=
  Js.chars (NilEmpty.string_of_uint d).

Definition digit_step (acc : Z) (c : ascii) : Z := acc * 10 + Js.digit_val c.
(** ** generate-data.js *)

Section Generator.
Context {P : Platform}.

Definition RECORD_MIN : Z := 50.
Definition RECORD_MAX : Z := 100.

Definition randomCount : Gen Z := faker.number_int RECORD_MIN RECORD_MAX.

(** [date.toISOString().split('T')[0]] *)
Fixpoint before_T (s : string) : string :=
  match s with
  | EmptyString => EmptyString
  | String c s' => if Ascii.eqb c "T" then EmptyString else String c (before_T s')
  end.

Definition formatDate (date : Z) : string := before_T (toISOString date).

(** [Array.from({ length: count }, (_, idx) => f(idx))] *)
Definition array_from {A} (count : Z) (f : nat -> Gen A) : Gen (list A) :=
  gmapM f (seq 0 (Z.to_nat count)).

(** [faker.date.past({ years })] *)
Definition date_past (years : Z) : Gen Z :=
  do offset <- faker.number_int 1000 (years * 365 * 24 * 3600 * 1000);
  gret (now - offset).

Definition draw_text (table : nat -> string) : Gen string :=
  fun g => let (r, g') := draw g in Ok (table r, g').

Definition generateCustomers (count : Z) : Gen (list Customer.t) :=
  array_from count (fun idx =>
    do signupDate <- date_past 2;
    do name <- draw_text person_fullName;
    do email <- draw_text internet_email;
    do country <- draw_text location_country;
    gret {| Customer.customer_id := Z.of_nat idx + 1;
            Customer.name := name;
            Customer.email := toLowerCase email;
            Customer.signup_date := formatDate signupDate;
            Customer.country := country |}).

Definition categories : list string :=
  [ "Electronics"; "Home & Kitchen"; "Books"; "Clothing";
    "Sports & Outdoors"; "Beauty"; "Toys"; "Automotive" ].

Definition generateProducts (count : Z) : Gen (list Product.t) :=
  array_from count (fun idx =>
    do priceText <- draw_text commerce_price;
    let priceValue := Number priceText in
    do product_name <- draw_text commerce_productName;
    do category <- faker.arrayElement categories;
    do stock <- faker.number_int 0 500;
    gret {| Product.product_id := Z.of_nat idx + 1;
            Product.product_name := product_name;
            Product.category := category;
            Product.price := toFixed2 priceValue;
            Product.stock_quantity := stock |}).

Definition generateOrders (count customerCount : Z) : Gen (list (Order.t float)) :=
  let startDate := yearBefore now in
  array_from count (fun idx =>
    do orderDate <- faker.date_between startDate now;
    do customer <- faker.number_int 1 customerCount;
    gret {| Order.order_id := Z.of_nat idx + 1;
            Order.customer_id := customer;
            Order.order_date := toISOString orderDate;
            Order.total_amount := 0%float |}).

(** The variables [generateOrderItems] closes over: the array being
    built, the id counter, and the caller's [orders] array, whose members
    [addOrderItem] updates in place. *)
Record ItemsState : Type := mkItemsState {
  orderItems : list OrderItem.t;
  nextOrderItemId : Z;
  orders : list (Order.t float);
}.

(** [addOrderItem(order)] for the member of [orders] at position [pos]. *)
Definition addOrderItem (products : list Product.t) (pos : nat) (st : ItemsState)
  : Gen ItemsState :=
  match orders st !! pos with
  | None => gthrow "TypeError: Cannot read properties of undefined"
  | Some order =>
    do product <- faker.arrayElement products;
    do quantity <- faker.number_int 1 5;
    let unitPrice := Number (Product.price product) in
    let orderItem :=
      {| OrderItem.order_item_id := nextOrderItemId st;
         OrderItem.order_id := Order.order_id order;
         OrderItem.product_id := Product.product_id product;
         OrderItem.quantity := quantity;
         OrderItem.unit_price := toFixed2 unitPrice |} in
    let total := (Order.total_amount order + float_of_Z quantity * unitPrice)%float in
    gret {| orderItems := orderItems st ++ [orderItem];
            nextOrderItemId := nextOrderItemId st + 1;
            orders := <[pos := Order.with_total order total]> (orders st) |}
  end.

(** [for (const order of orders) { if (length >= safe) break; add(order) }],
    from position [pos] on, over the [n] remaining members. *)
Fixpoint firstPass (products : list Product.t) (safeTargetCount : Z)
    (n pos : nat) (st : ItemsState) : Gen ItemsState :=
  match n with
  | O => gret st
  | S n' =>
    if Z.of_nat (length (orderItems st)) >=? safeTargetCount then gret st
    else do st' <- addOrderItem products pos st;
         firstPass products safeTargetCount n' (S pos) st'
  end.

(** [while (orderItems.length < safeTargetCount) { ... }].  Every turn
    adds one item, so [fuel] turns suffice when [fuel] is at least the
    number of items still missing. *)
Fixpoint topUp (products : list Product.t) (safeTargetCount : Z)
    (fuel : nat) (st : ItemsState) : Gen ItemsState :=
  if Z.of_nat (length (orderItems st)) <? safeTargetCount then
    match fuel with
    | O => gthrow "out of fuel"
    | S fuel' =>
      do pos <- faker.arrayElement_index (length (orders st));
      do st' <- addOrderItem products pos st;
      topUp products safeTargetCount fuel' st'
    end
  else gret st.

(** Returns the items together with the caller's array after the in-place
    updates. *)
Definition generateOrderItems (orders0 : list (Order.t float))
    (products : list Product.t) (targetCount : Z)
  : Gen (list OrderItem.t * list (Order.t string)) :=
  let safeTargetCount := Z.max targetCount (Z.of_nat (length orders0)) in
  let st0 := {| orderItems := []; nextOrderItemId := 1; orders := orders0 |} in
  do st1 <- firstPass products safeTargetCount (length orders0) O st0;
  do st2 <- topUp products safeTargetCount (Z.to_nat safeTargetCount) st1;
  gret (orderItems st2,
        (fun order => Order.with_total order (toFixed2 (Order.total_amount order)))
          <$> orders st2).

Definition paymentMethods : list string :=
  [ "Credit Card"; "Debit Card"; "PayPal"; "Bank Transfer"; "Gift Card" ].

Definition paymentStatuses : list string := [ "Completed"; "Pending"; "Failed" ].

Definition week_ms : Z := 7 * 24 * 60 * 60 * 1000.

Definition generatePayment {A} (idx : nat) (order : Order.t A) : Gen Payment.t :=
  do status <- faker.arrayElement paymentStatuses;
  let orderDate := parseDate (Order.order_date order) in
  do paymentDate <-
    (if String.eqb status "Pending" then gret orderDate
     else faker.date_between orderDate (orderDate + week_ms));
  do method <- faker.arrayElement paymentMethods;
  gret {| Payment.payment_id := Z.of_nat idx + 1;
          Payment.order_id := Order.order_id order;
          Payment.payment_method := method;
          Payment.payment_status := status;
          Payment.payment_date := toISOString paymentDate |}.

(** [orders.map((order, idx) => ...)] *)
Fixpoint map_idx {A B} (f : nat -> A -> Gen B) (idx : nat) (l : list A) : Gen (list B) :=
  match l with
  | [] => gret []
  | a :: l' => do b <- f idx a; do bs <- map_idx f (S idx) l'; gret (b :: bs)
  end.

Definition generatePayments {A} (orders : list (Order.t A)) : Gen (list Payment.t) :=
  map_idx generatePayment O orders.

Record Dataset : Type := mkDataset {
  customers : list Customer.t;
  products : list Product.t;
  ds_orders : list (Order.t string);
  ds_orderItems : list OrderItem.t;
  payments : list Payment.t;
}.

(** The generation part of [generateAndSaveData], for given counts. *)
Definition generateData (customerCount productCount orderCount orderItemCount : Z)
  : Gen Dataset :=
  do customers <- generateCustomers customerCount;
  do products <- generateProducts productCount;
  do orders <- generateOrders orderCount customerCount;
  do io <- generateOrderItems orders products orderItemCount;
  do payments <- generatePayments (snd io);
  gret {| customers := customers; products := products; ds_orders := snd io;
          ds_orderItems := fst io; payments := payments |}.

Definition generateAndSaveData : Gen Dataset :=
  do customerCount <- randomCount;
  do productCount <- randomCount;
  do orderCount <- randomCount;
  do r <- randomCount;
  let orderItemCount := Z.max r orderCount in
  generateData customerCount productCount orderCount orderItemCount.

(** *** Vocabulary of the statements about [generateOrderItems] *)

(** One turn of [addOrderItem] on the member at [pos], as a relation on
    the closure's variables. *)
Definition add_step (products : list Product.t) (pos : nat) (st st' : ItemsState) : Prop :=
  exists order product quantity,
    orders st !! pos = Some order /\ product ∈ products /\ 1 <= quantity <= 5 /\
    st' = {| orderItems := orderItems st ++
               [ {| OrderItem.order_item_id := nextOrderItemId st;
                    OrderItem.order_id := Order.order_id order;
                    OrderItem.product_id := Product.product_id product;
                    OrderItem.quantity := quantity;
                    OrderItem.unit_price := toFixed2 (Number (Product.price product)) |} ];
             nextOrderItemId := nextOrderItemId st + 1;
             orders := <[pos := Order.with_total order
                                  (Order.total_amount order +
                                   float_of_Z quantity * Number (Product.price product))%float]>
                         (orders st) |}.

Inductive run (products : list Product.t) : ItemsState -> ItemsState -> Prop :=
| run_done st : run products st st
| run_add pos st st' st'' :
    add_step products pos st st' -> run products st' st'' -> run products st st''.

(** [quantity * Number(unit_price)] of an item, in binary64. *)
Definition line_total (it : OrderItem.t) : float :=
  (float_of_Z (OrderItem.quantity it) * Number (OrderItem.unit_price it))%float.

(** The items that reference order [oid], in creation order. *)
Definition items_of (oid : Z) (items : list OrderItem.t) : list OrderItem.t :=
  filter (fun it => OrderItem.order_id it = oid) items.

(** [items.reduce((acc, it) => acc + it.quantity * Number(it.unit_price), start)] *)
Definition sum_lines (start : float) (items : list OrderItem.t) : float :=
  fold_left (fun acc it => (acc + line_total it)%float) items start.

(** A price text that [toFixed(2)] reproduces: a two-decimal currency
    amount, as [generateProducts] writes it. *)
Definition price_is_currency (p : Product.t) : Prop :=
  Number (toFixed2 (Number (Product.price p))) = Number (Product.price p).

(** What [generateOrderItems] leaves unchanged in an order. *)
Definition same_order {A B} (o : Order.t A) (o0 : Order.t B) : Prop :=
  Order.order_id o = Order.order_id o0 /\
  Order.customer_id o = Order.customer_id o0 /\
  Order.order_date o = Order.order_date o0.

(** The closure's variables when [generateOrderItems] starts. *)
Definition initial (orders0 : list (Order.t float)) : ItemsState :=
  {| orderItems := []; nextOrderItemId := 1; orders := orders0 |}.

(** [order.total_amount = order.total_amount.toFixed(2)] *)
Definition finalize (order : Order.t float) : Order.t string :=
  Order.with_total order (toFixed2 (Order.total_amount order)).

(** An order date in the form [toISOString] writes. *)
Definition iso_date {A} (o : Order.t A) : Prop :=
  toISOString (parseDate (Order.order_date o)) = Order.order_date o.

(** The date and status rule that links a payment to its order. *)
Definition payment_rule {A} (o : Order.t A) (p : Payment.t) : Prop :=
  Payment.order_id p = Order.order_id o /\
  Payment.payment_status p ∈ paymentStatuses /\
  (Payment.payment_status p = "Pending" ->
     Payment.payment_date p = Order.order_date o) /\
  (Payment.payment_status p <> "Pending" ->
     exists t, Payment.payment_date p = toISOString t /\
               parseDate (Order.order_date o) <= t <=
               parseDate (Order.order_date o) + week_ms).

(** No child row without its parent row. *)
Definition referential_integrity (ds : Dataset) : Prop :=
  (forall o, o ∈ ds_orders ds ->
     Order.customer_id o ∈ Customer.customer_id <$> customers ds) /\
  (forall it, it ∈ ds_orderItems ds ->
     OrderItem.order_id it ∈ Order.order_id <$> ds_orders ds /\
     OrderItem.product_id it ∈ Product.product_id <$> products ds) /\
  (forall p, p ∈ payments ds ->
     Payment.order_id p ∈ Order.order_id <$> ds_orders ds).

(** The running total of every member is the binary64 sum, in creation
    order, of the lines of the items that carry its id. *)
Definition totals_ok (base : list float) (st : ItemsState) : Prop :=
  forall i o b, orders st !! i = Some o -> base !! i = Some b ->
    Order.total_amount o = sum_lines b (items_of (Order.order_id o) (orderItems st)).

(** The id of the record built at index [idx]: [idx + 1]. *)
Definition id_of_index (idx : nat) : Z := Z.of_nat idx + 1.

(** What [generateOrders] gives the order built at index [idx]. *)
Definition fresh_order (customerCount : Z) (idx : nat) (o : Order.t float) : Prop :=
  Order.order_id o = id_of_index idx /\
  1 <= Order.customer_id o <= customerCount /\
  Order.total_amount o = 0%float /\
  exists t, Order.order_date o = toISOString t /\ yearBefore now <= t <= now.

End Generator.

(** ** A platform: the built-ins above, a fixed clock and short word lists *)

Definition pick (table : list string) (n : nat) : string :=
  nth (n mod length table) table "".

(** [faker.commerce.price({ min: 10, max: 500, dec: 2 })] *)
Definition price_text (n : nat) : string :=
  let cents := 1000 + Z.of_nat n mod 49001 in
  (Js.digits_of_N (Z.to_N (cents / 100)) ++ "." ++ Js.pad_N 2 (cents mod 100))%string.

(** The same day and time of the year before, in UTC. *)
Definition year_before (t : Z) : Z :=
  let civil := Js.civil_from_days (t / Js.ms_per_day) in
  Z.min t (Js.days_from_civil (civil.1.1 - 1) civil.1.2 civil.2 * Js.ms_per_day
           + t mod Js.ms_per_day).

Definition node : Platform := {|
  Number := Js.Number;
  toFixed2 := Js.toFixed2;
  toISOString := Js.toISOString;
  parseDate := Js.parseDate;
  now := 1762041600000;
  yearBefore := year_before;
  yearBefore_le := fun t => Z.le_min_l t _;
  person_fullName := pick ["Ada Lovelace"; "Alan Turing"; "Grace Hopper"];
  internet_email := pick ["Ada@Example.com"; "alan@example.org"; "Grace.H@example.net"];
  location_country := pick ["France"; "India"; "Brazil"];
  commerce_productName := pick ["Steel Chair"; "Wooden Table"; "Cotton Shirt"];
  commerce_price := price_text;
  toLowerCase := Js.toLowerCase;
|}.

(** Sample inputs on which the statements below are exercised. *)
Definition sample_rng : Rng :=
  rng_of_list [3; 1; 4; 1; 5; 9; 2; 6; 5; 3; 5; 8; 9; 7; 9; 3; 2; 3; 8; 4; 6; 2; 6; 4;
               3; 3; 8; 3; 2; 7; 9; 5; 0; 2; 8; 8; 4; 1; 9; 7; 1; 6; 9; 3; 9; 9; 3; 7]%nat.

Definition sample_products : list Product.t :=
  [ {| Product.product_id := 1; Product.product_name := "Steel Chair";
       Product.category := "Beauty"; Product.price := "10.05";
       Product.stock_quantity := 8 |};
    {| Product.product_id := 2; Product.product_name := "Wooden Table";
       Product.category := "Books"; Product.price := "249.99";
       Product.stock_quantity := 3 |} ].


Definition sample_orders : list (Order.t float) :=
  [ {| Order.order_id := 1; Order.customer_id := 2;
       Order.order_date := "2025-03-09T10:15:30.250Z"; Order.total_amount := 0%float |};
    {| Order.order_id := 2; Order.customer_id := 1;
       Order.order_date := "2025-06-21T23:59:59.999Z"; Order.total_amount := 0%float |};
    {| Order.order_id := 3; Order.customer_id := 2;
       Order.order_date := "2024-12-31T00:00:00.000Z"; Order.total_amount := 0%float |} ].

(** ** Records as the serialiser sees them *)

(** The values a generated record holds: integers, text, and the two
    absent values of the language. *)
Inductive Value : Type :=
| VUndefined
| VNull
| VInt (z : Z)
| VStr (s : string).

(** [record[header]] on an object used as a map. *)
Definition field (record : gmap string Value) (header : string) : Value :=
  default VUndefined (record !! header).

(** The integers every one of which is a number of its own:
    [Number.isSafeInteger]. *)
Definition safe_integer (z : Z) : Prop := Z.abs z <= 9007199254740991.

Definition is_safe_integer (z : Z) : bool := Z.abs z <=? 9007199254740991.

(** [String(value)]; [VInt z] stands for the number nearest to [z], which
    is [z] itself in the safe range and is then written in full. *)
Definition String_of (value : Value) : string :=
  match value with
  | VUndefined => "undefined"
  | VNull => "null"
  | VInt z => if is_safe_integer z then Js.string_of_Z z else Js.number_text z
  | VStr s => s
  end.

Definition quote : ascii := "034"%char.
Definition comma : ascii := ","%char.
Definition LF : ascii := "010"%char.
Definition CR : ascii := "013"%char.

Fixpoint array_join (sep : list ascii) (parts : list (list ascii)) : list ascii :=
  match parts with
  | [] => []
  | [p] => p
  | p :: rest => p ++ sep ++ array_join sep rest
  end.

(** *** generate-data.js: the serialiser *)

(** The character class of the test: quote, comma, line feed. *)
Definition is_special (c : ascii) : bool :=
  Ascii.eqb c quote || Ascii.eqb c comma || Ascii.eqb c LF.

(** The regular-expression test of [escapeCsvValue]. *)
Definition needs_quoting (str : list ascii) : bool := existsb is_special str.

(** The global replacement of [escapeCsvValue]: every quote is doubled. *)
Fixpoint double_quotes (str : list ascii) : list ascii :=
  match str with
  | [] => []
  | c :: str' =>
      if Ascii.eqb c quote then quote :: quote :: double_quotes str'
      else c :: double_quotes str'
  end.

Definition escape_chars (str : list ascii) : list ascii :=
  if needs_quoting str then quote :: double_quotes str ++ [quote] else str.

Definition escapeCsvValue (value : Value) : string :=
  match value with
  | VNull | VUndefined => ""
  | _ => Js.text (escape_chars (Js.chars (String_of value)))
  end.

Definition csv_row (headers : list string) (record : gmap string Value) : list ascii :=
  array_join [comma] (map (fun header => Js.chars (escapeCsvValue (field record header))) headers).

Definition convertToCsv (records : list (gmap string Value)) (headers : list string) : string :=
  let headerLine := array_join [comma] (map Js.chars headers) in
  let rows := map (csv_row headers) records in
  Js.text (array_join [LF] (headerLine :: rows)).

(** The record a generated entity is when it is written. *)
Definition customer_record (c : Customer.t) : gmap string Value :=
  list_to_map [ ("customer_id", VInt (Customer.customer_id c));
                ("name", VStr (Customer.name c));
                ("email", VStr (Customer.email c));
                ("signup_date", VStr (Customer.signup_date c));
                ("country", VStr (Customer.country c)) ].


Definition order_record (o : Order.t string) : gmap string Value :=
  list_to_map [ ("order_id", VInt (Order.order_id o));
                ("customer_id", VInt (Order.customer_id o));
                ("order_date", VStr (Order.order_date o));
                ("total_amount", VStr (Order.total_amount o)) ].

Definition order_item_record (it : OrderItem.t) : gmap string Value :=
  list_to_map [ ("order_item_id", VInt (OrderItem.order_item_id it));
                ("order_id", VInt (OrderItem.order_id it));
                ("product_id", VInt (OrderItem.product_id it));
                ("quantity", VInt (OrderItem.quantity it));
                ("unit_price", VStr (OrderItem.unit_price it)) ].

Definition payment_record (p : Payment.t) : gmap string Value :=
  list_to_map [ ("payment_id", VInt (Payment.payment_id p));
                ("order_id", VInt (Payment.order_id p));
                ("payment_method", VStr (Payment.payment_method p));
                ("payment_status", VStr (Payment.payment_status p));
                ("payment_date", VStr (Payment.payment_date p)) ].

(** *** Objects used as maps

    The reader and [loadCsv] keep a row in an object, and [loadCsv] looks
    its converters up in one.  The definitions below follow an object on
    plain keys. *)

(** The names every object answers to without having them as its own:
    the properties of [Object.prototype]. *)
Definition object_prototype_names : list string :=
  [ "constructor"; "__defineGetter__"; "__defineSetter__"; "hasOwnProperty";
    "__lookupGetter__"; "__lookupSetter__"; "isPrototypeOf"; "propertyIsEnumerable";
    "toString"; "valueOf"; "__proto__"; "toLocaleString" ].

(** A key that is an array index: the decimal numeral, without a leading
    zero, of an integer below 2^32 - 1.  An object lists such keys first,
    in ascending order. *)
Definition is_array_index (key : string) : bool :=
  let l := Js.chars key in
  negb (Js.is_nil l) && forallb Js.is_digit l &&
  (match l with "0"%char :: _ :: _ => false | _ => true end) &&
  (Js.digits_value l <=? 4294967294).

(** A key an object holds as a plain property of its own, in insertion
    order. *)
Definition plain_key (key : string) : Prop :=
  (key ∉ object_prototype_names) /\ is_array_index key = false.

(** *** The CSV reader of create-database.js

    [loadCsv] pipes the file through the csv-parser package with its default
    options (separator comma, quote and escape the double quote, line feed
    as row end unless the header row ends in a bare carriage return).  The
    reader below follows that package's scanning rules on a text read in one
    piece. *)

Module CsvParser.

Definition is_char (c : ascii) (o : option ascii) : bool :=
  match o with
  | Some c' => Ascii.eqb c c'
  | None => false
  end.

(** Row splitting.  A quote followed by a quote is taken as an escaped
    quote (except at the very first character of the text); any other
    quote opens or closes a quoted stretch; a row ends at a row-end
    character outside a quoted stretch.  [cur] holds the row read so far,
    last character first.  The unterminated last row is kept when it is
    not empty. *)
Fixpoint split_rows (l : list ascii) (start quoted escaped first : bool)
    (newline : ascii) (cur : list ascii) : list (list ascii) :=
  match l with
  | [] => if escaped then [] else match cur with [] => [] | _ => [rev cur] end
  | c :: l' =>
      let next := head l' in
      if negb escaped && Ascii.eqb c quote && is_char quote next && negb start then
        split_rows l' false quoted true first newline (c :: cur)
      else if Ascii.eqb c quote then
        split_rows l' false (if escaped then quoted else negb quoted) false first
                   newline (c :: cur)
      else if quoted then
        split_rows l' false quoted escaped first newline (c :: cur)
      else
        let newline' :=
          if first then
            if Ascii.eqb c LF then LF
            else if Ascii.eqb c CR then (if is_char LF next then newline else CR)
            else newline
          else newline in
        if Ascii.eqb c newline' then
          rev cur :: split_rows l' false quoted escaped false newline' []
        else split_rows l' false quoted escaped first newline' (c :: cur)
  end.

(** Cell splitting inside a row: a quote opens a quoted stretch, a quote
    before a comma closes it, a quote before a quote is skipped together
    with it, a comma outside a quoted stretch ends the cell.  The last
    cell is kept when it is not empty. *)
Fixpoint split_cells (l : list ascii) (isQuoted : bool) (cur : list ascii)
  : list (list ascii) :=
  match l with
  | [] => match cur with [] => [] | _ => [rev cur] end
  | c :: l' =>
      let next := head l' in
      if Ascii.eqb c quote && (negb isQuoted || is_char comma next) then
        split_cells l' (negb isQuoted) (c :: cur)
      else if isQuoted && Ascii.eqb c quote && is_char quote next then
        match l' with
        | n :: l'' => split_cells l'' isQuoted (n :: c :: cur)
        | [] => [rev (c :: cur)]
        end
      else if Ascii.eqb c comma && negb isQuoted then
        rev cur :: split_cells l' isQuoted []
      else split_cells l' isQuoted (c :: cur)
  end.

(** Inside a cell, a quote before a quote is dropped. *)
Fixpoint unescape (l : list ascii) : list ascii :=
  match l with
  | a :: l' =>
      match l' with
      | b :: l'' =>
          if Ascii.eqb a quote && Ascii.eqb b quote then b :: unescape l''
          else a :: unescape l'
      | [] => [a]
      end
  | [] => []
  end.

(** A cell between two quotes loses them. *)
Definition parseCell (cell : list ascii) : list ascii :=
  match cell with
  | c :: rest =>
      if Ascii.eqb c quote && is_char quote (last cell) then unescape (removelast rest)
      else unescape cell
  | [] => []
  end.

Definition strip_cr (row : list ascii) : list ascii :=
  if is_char CR (last row) then removelast row else row.

(** The cells of a row; a row that ends in a comma has one more, empty,
    cell. *)
Definition parseLine (row : list ascii) : list (list ascii) :=
  let row := strip_cr row in
  map parseCell (split_cells row false []) ++
  (if is_char comma (last row) then [[]] else []).

(** [o[key] = value] on an object; plain keys are kept in insertion
    order. *)
Fixpoint obj_set {V} (key : string) (value : V) (o : list (string * V))
  : list (string * V) :=
  match o with
  | [] => [(key, value)]
  | (k, v) :: o' =>
      if String.eqb k key then (k, value) :: o' else (k, v) :: obj_set key value o'
  end.

(** The row object: the cell at position [index] under the header at that
    position, or under [_index] when the row is longer than the header. *)
Fixpoint writeRow (headers : list string) (index : nat) (cells : list string)
    (o : list (string * string)) : list (string * string) :=
  match cells with
  | [] => o
  | cell :: cells' =>
      let key := match headers !! index with
                 | Some header => header
                 | None => String "_" (Js.digits_of_N (N.of_nat index))
                 end in
      writeRow headers (S index) cells' (obj_set key cell o)
  end.

(** The rows of a text, with the header and value mappings [loadCsv]
    configures: both trim. *)
Definition rows (content : string) : list (list (string * string)) :=
  match split_rows (Js.chars content) true false false true LF [] with
  | [] => []
  | headerRow :: dataRows =>
      let headers := map (fun cell => Js.trim (Js.text cell)) (parseLine headerRow) in
      map (fun row =>
             writeRow headers 0
               (map (fun cell => Js.trim (Js.text cell)) (parseLine row)) [])
          dataRows
  end.

End CsvParser.

(** What a converter returns: a number or text. *)
Inductive Cell : Type :=
| CNum (x : float)
| CStr (s : string).

Abbreviation Converter := (string -> Result Cell).

Definition quoted_text (value : string) : string :=
  String quote (value ++ String quote EmptyString)%string.

Definition toInteger (value fieldName : string) : Result Cell :=
  let result := Js.parseInt value in
  if is_nan result then
    Throw ("Invalid integer value for " ++ fieldName ++ ": " ++ quoted_text value)%string
  else Ok (CNum result).

Definition toFloat (value fieldName : string) : Result Cell :=
  let result := Js.parseFloat value in
  if is_nan result then
    Throw ("Invalid numeric value for " ++ fieldName ++ ": " ++ quoted_text value)%string
  else Ok (CNum result).

(** [Object.fromEntries(Object.entries(rawRow).map(...))]: the entries are
    converted in order, and the first conversion that throws ends the
    row.  [converters[key]] is the converter the object holds under [key];
    under a plain key it holds none but its own. *)
Fixpoint convertRow (converters : gmap string Converter)
    (rawRow : list (string * string)) : Result (list (string * Cell)) :=
  match rawRow with
  | [] => Ok []
  | (key, value) :: rest =>
      result_bind (match converters !! key with
                   | Some converter => converter value
                   | None => Ok (CStr value)
                   end)
        (fun cell => result_bind (convertRow converters rest)
                       (fun cells => Ok ((key, cell) :: cells)))
  end.

(** The handler of the stream's data events: a row that converts is pushed;
    the first one that does not destroys the stream, which rejects the
    promise with the wrapped error, and no later row is read. *)
Fixpoint convertRows (fileName : string) (converters : gmap string Converter)
    (rawRows : list (list (string * string))) (rows : list (list (string * Cell)))
  : Result (list (list (string * Cell))) :=
  match rawRows with
  | [] => Ok rows
  | rawRow :: rest =>
      match convertRow converters rawRow with
      | Ok convertedRow => convertRows fileName converters rest (rows ++ [convertedRow])
      | Throw message =>
          Throw ("Failed to convert row in " ++ fileName ++ ": " ++ message)%string
      end
  end.

(** [loadCsv(fileName, converters)] over the files of the data directory.
    The promise settles when the file is there: its rows, or the error of
    the first row that does not convert.  (A file that is not there fails
    the read stream, on which the script has no listener; the branch below
    only names that error.) *)
Definition loadCsv (files : gmap string string) (fileName : string)
    (converters : gmap string Converter) : Result (list (list (string * Cell))) :=
  match files !! fileName with
  | None => Throw ("ENOENT: no such file or directory, open " ++ fileName)%string
  | Some content => convertRows fileName converters (CsvParser.rows content) []
  end.

(** The three kinds of converter [main] passes. *)
Inductive FieldType : Type := TText | TInteger | TDecimal.

Definition converter_of (ty : FieldType) (fieldName : string) : Converter :=
  match ty with
  | TText => fun value => Ok (CStr value)
  | TInteger => fun value => toInteger value fieldName
  | TDecimal => fun value => toFloat value fieldName
  end.

Definition converters_of (fields : list (string * FieldType)) : gmap string Converter :=
  list_to_map (map (fun f => (fst f, converter_of (snd f) (fst f))) fields).

Definition customers_fields : list (string * FieldType) :=
  [ ("customer_id", TInteger); ("name", TText); ("email", TText);
    ("signup_date", TText); ("country", TText) ].

Definition products_fields : list (string * FieldType) :=
  [ ("product_id", TInteger); ("product_name", TText); ("category", TText);
    ("price", TDecimal); ("stock_quantity", TInteger) ].

Definition orders_fields : list (string * FieldType) :=
  [ ("order_id", TInteger); ("customer_id", TInteger); ("order_date", TText);
    ("total_amount", TDecimal) ].

Definition order_items_fields : list (string * FieldType) :=
  [ ("order_item_id", TInteger); ("order_id", TInteger); ("product_id", TInteger);
    ("quantity", TInteger); ("unit_price", TDecimal) ].

Definition payments_fields : list (string * FieldType) :=
  [ ("payment_id", TInteger); ("order_id", TInteger); ("payment_method", TText);
    ("payment_status", TText); ("payment_date", TText) ].

(** *** Vocabulary of the statements about the converters *)

(** A text without a decimal digit after its leading white space and sign:
    [parseInt] finds nothing to read. *)
Definition no_integer_prefix (value : string) : Prop :=
  fst (Js.span_digits (snd (Js.take_sign (Js.skip_ws (Js.chars value))))) = [].

(** A text no prefix of which, after its leading white space, is a decimal
    literal: [parseFloat] finds nothing to read. *)
Definition no_decimal_prefix (value : string) : Prop :=
  Js.decimal_prefix (Js.skip_ws (Js.chars value)) = None.

(** A file whose first data row has [12abc] where an integer is required. *)
Definition sample_bad_orders : string :=
  Js.text (Js.chars "order_id,customer_id" ++ [LF] ++ Js.chars "12abc,7" ++ [LF] ++
           Js.chars "2,8").

(** A file whose second data row has no number at all in its first cell. *)
Definition sample_worse_orders : string :=
  Js.text (Js.chars "order_id,customer_id" ++ [LF] ++ Js.chars "1,7" ++ [LF] ++
           Js.chars " n/a ,8" ++ [LF] ++ Js.chars "3,9").

(** *** Vocabulary of the round-trip statement *)

(** A text that [trim] leaves as it is. *)
Definition trimmed (s : string) : Prop := Js.trim s = s.

(** A column name the header row can carry: trimmed, and free of quote,
    comma, line feed and carriage return. *)
Definition valid_header (header : string) : Prop :=
  trimmed header /\
  Forall (fun c => c <> quote /\ c <> comma /\ c <> LF /\ c <> CR) (Js.chars header).

Definition decimal_char (c : ascii) : bool :=
  Js.is_digit c || Ascii.eqb c "-" || Ascii.eqb c ".".

(** A decimal text: digits, with an optional sign and fraction, that is a
    decimal literal as a whole. *)
Definition decimal_text (s : string) : bool :=
  forallb decimal_char (Js.chars s) &&
  match Js.decimal_prefix (Js.chars s) with
  | Some (_, []) => true
  | _ => false
  end.

(** The values a column of each kind holds in a valid record: text
    without white space at its ends, a safe integer, a decimal text. *)
Definition valid_field (ty : FieldType) (value : Value) : Prop :=
  match ty, value with
  | TText, VStr s => trimmed s
  | TText, VInt z => safe_integer z
  | TInteger, VInt z => safe_integer z
  | TDecimal, VStr s => decimal_text s = true
  | _, _ => False
  end.

(** A field that has a text form which the reader gives back unchanged. *)
Definition loadable (value : Value) : Prop :=
  match value with
  | VInt z => safe_integer z
  | VStr s => trimmed s
  | _ => False
  end.

(** The five tables of the pipeline: the header list each file is written
    under, with the kind of converter [main] gives each column. *)
Definition pipeline_fields : list (list (string * FieldType)) :=
  [ customers_fields; products_fields; orders_fields; order_items_fields;
    payments_fields ].

(** [Number(value)] *)
Definition to_number (value : Value) : float :=
  match value with
  | VUndefined => nan
  | VNull => zero
  | VInt z => float_of_Z z
  | VStr s => Js.Number s
  end.

(** The loaded cell that is equal in value to a field: the same text in a
    text column, the same number in a numeric column. *)
Definition expected_cell (ty : FieldType) (value : Value) : Cell :=
  match ty with
  | TText => CStr (String_of value)
  | TInteger | TDecimal => CNum (to_number value)
  end.

Definition expected_row (fields : list (string * FieldType))
    (record : gmap string Value) : list (string * Cell) :=
  map (fun f => (fst f, expected_cell (snd f) (field record (fst f)))) fields.

(** A customer whose name has a space at its end. *)
Definition sample_padded_customer : gmap string Value :=
  list_to_map [ ("customer_id", VInt 1); ("name", VStr "Ada Lovelace ") ].


(** The cells [CsvParser.parseLine] finds in a row that does not end in a
    carriage return. *)
Definition cells_of (row : list ascii) : list (list ascii) :=
  map CsvParser.parseCell (CsvParser.split_cells row false []) ++
  (if CsvParser.is_char comma (last row) then [[]] else []).

(** ** The relational store

    [create-database.js] talks to SQLite through [db.run].  The store is
    modelled by the state the statements of the script act on: the tables
    with their declared columns and foreign keys, the snapshot a transaction
    rolls back to, and the foreign-key switch.  Statements are given by
    their syntax tree instead of their SQL text. *)

Module Sql.

(** A stored or bound value; [None] is NULL. *)
Abbreviation Value := (option Cell).

Inductive Affinity : Type := INTEGER | REAL | TEXT.

Inductive Action : Type := CASCADE | RESTRICT.

Record Column : Type := mkColumn {
  name : string;
  affinity : Affinity;
  primary_key : bool;
  not_null : bool;
}.

Record ForeignKey : Type := mkForeignKey {
  column : string;
  parent : string;
  parent_column : string;
  on_delete : Action;
  on_update : Action;
}.

Record Schema : Type := mkSchema {
  columns : list Column;
  foreign_keys : list ForeignKey;
}.

(** A row holds one value per declared column, in declaration order. *)
Record Table : Type := mkTable {
  schema : Schema;
  rows : list (list Value);
}.

Record Db : Type := mkDb {
  tables : gmap string Table;
  (** the tables as they were at BEGIN, while a transaction is open *)
  snapshot : option (gmap string Table);
  (** PRAGMA foreign_keys *)
  enforce_fk : bool;
}.

Inductive Statement : Type :=
| BeginTransaction
| Commit
| Rollback
| DropTableIfExists (table : string)
| CreateTableIfNotExists (table : string) (s : Schema)
| InsertInto (table : string) (columns : list string) (values : list Value).

(** Numeric values compare as numbers, texts as texts, NULL with nothing. *)
Definition value_eqb (a b : Value) : bool :=
  match a, b with
  | Some (CNum x), Some (CNum y) => PrimFloat.eqb x y
  | Some (CStr s), Some (CStr t) => String.eqb s t
  | _, _ => false
  end.

Fixpoint position (c : string) (cols : list Column) : option nat :=
  match cols with
  | [] => None
  | col :: cols' => if String.eqb (name col) c then Some O
                    else S <$> position c cols'
  end.

(** The value a row holds in column [c]. *)
Definition cell (s : Schema) (row : list Value) (c : string) : Value :=
  match position c (columns s) with
  | Some i => default None (row !! i)
  | None => None
  end.

(** Whether a row of the child table references, through [fk], one of the
    given rows of the parent table. *)
Definition refers (child parent_schema : Schema) (fk : ForeignKey)
    (parent_rows : list (list Value)) (row : list Value) : bool :=
  existsb (fun prow => value_eqb (cell child row (column fk))
                                 (cell parent_schema prow (parent_column fk)))
          parent_rows.

(** Deletes the rows of [t] that [doomed] selects and applies the
    foreign-key actions of the tables that reference [t]: a RESTRICT
    reference to a deleted row fails the statement, a CASCADE reference
    deletes the referencing rows in turn. *)
Fixpoint delete_rows (fuel : nat) (tbls : gmap string Table) (t : string)
    (doomed : list Value -> bool) : Result (gmap string Table) :=
  match fuel with
  | O => Throw "too many levels of foreign-key actions"
  | S fuel' =>
      match tbls !! t with
      | None => Ok tbls
      | Some tbl =>
          let gone := filter (fun row => doomed row = true) (rows tbl) in
          let kept := filter (fun row => doomed row <> true) (rows tbl) in
          let tbls1 := <[t := mkTable (schema tbl) kept]> tbls in
          fold_left
            (fun acc child =>
               fold_left
                 (fun acc' fk =>
                    result_bind acc' (fun tb =>
                      if negb (String.eqb (parent fk) t) then Ok tb
                      else
                        let hit := refers (schema (snd child)) (schema tbl) fk gone in
                        match tb !! fst child with
                        | None => Ok tb
                        | Some now =>
                            if forallb (fun row => negb (hit row)) (rows now) then Ok tb
                            else match on_delete fk with
                                 | RESTRICT => Throw "FOREIGN KEY constraint failed"
                                 | CASCADE => delete_rows fuel' tb (fst child) hit
                                 end
                        end))
                 (foreign_keys (schema (snd child))) acc)
            (map_to_list tbls) (Ok tbls1)
      end
  end.

(** DROP TABLE IF EXISTS: with foreign keys enforced the rows are deleted
    first, as by DELETE, and the table goes when that succeeds. *)
Definition drop_table (db : Db) (t : string) : Result Db :=
  match tables db !! t with
  | None => Ok db
  | Some _ =>
      if enforce_fk db then
        result_bind (delete_rows (S (size (tables db))) (tables db) t (fun _ => true))
          (fun tbls => Ok (mkDb (delete t tbls) (snapshot db) (enforce_fk db)))
      else Ok (mkDb (delete t (tables db)) (snapshot db) (enforce_fk db))
  end.

(** The values an INSERT binds: the bound value of every named column,
    NULL elsewhere. *)
Fixpoint bound (c : string) (columns : list string) (values : list Value) : Value :=
  match columns, values with
  | c' :: columns', v :: values' =>
      if String.eqb c' c then v else bound c columns' values'
  | _, _ => None
  end.

Definition make_row (s : Schema) (columns : list string) (values : list Value)
  : list Value :=
  map (fun col => bound (name col) columns values) (Sql.columns s).

(** The engine.  [row_check] is its verdict on an INSERT: [Some message]
    when it rejects the row (unknown column, NOT NULL, primary key, foreign
    key, ...).  [row_stored] is the row it stores when it accepts: the
    bound values after the conversions of the column affinities, with the
    row id it assigns where the INTEGER PRIMARY KEY is not bound. *)
Class Engine : Type := {
  row_check : Db -> string -> Table -> list string -> list Value -> option string;
  row_stored : Db -> string -> Table -> list string -> list Value -> list Value;
}.

Section Exec.
Context {E : Engine}.

Definition exec (db : Db) (stmt : Statement) : Result Db :=
  match stmt with
  | BeginTransaction =>
      match snapshot db with
      | Some _ => Throw "cannot start a transaction within a transaction"
      | None => Ok (mkDb (tables db) (Some (tables db)) (enforce_fk db))
      end
  | Commit =>
      match snapshot db with
      | Some _ => Ok (mkDb (tables db) None (enforce_fk db))
      | None => Throw "cannot commit - no transaction is active"
      end
  | Rollback =>
      match snapshot db with
      | Some saved => Ok (mkDb saved None (enforce_fk db))
      | None => Throw "cannot rollback - no transaction is active"
      end
  | DropTableIfExists t => drop_table db t
  | CreateTableIfNotExists t s =>
      match tables db !! t with
      | Some _ => Ok db
      | None => Ok (mkDb (<[t := mkTable s []]> (tables db)) (snapshot db)
                         (enforce_fk db))
      end
  | InsertInto t columns values =>
      match tables db !! t with
      | None => Throw ("no such table: " ++ t)%string
      | Some tbl =>
          match row_check db t tbl columns values with
          | Some message => Throw message
          | None =>
              Ok (mkDb (<[t := mkTable (schema tbl)
                                 (rows tbl ++ [row_stored db t tbl columns values])]>
                          (tables db))
                       (snapshot db) (enforce_fk db))
          end
      end
  end.

End Exec.

(** A reference engine.  It stores the bound values as they are, and gives
    an INTEGER PRIMARY KEY that is not bound the row id one above the
    largest in the table.  It accepts a row when every named column exists,
    NOT NULL columns get a value, the primary key is new, and, with foreign
    keys enforced, every reference finds its parent row. *)
Definition next_rowid (s : Schema) (old : list (list Value)) (key : string) : float :=
  (fold_left (fun top row => match cell s row key with
                             | Some (CNum x) => if PrimFloat.ltb top x then x else top
                             | _ => top
                             end)
             old 0 + 1)%float.

Definition is_rowid (col : Column) : bool :=
  primary_key col && match affinity col with INTEGER => true | _ => false end.

Definition reference_stored (db : Db) (t : string) (tbl : Table)
    (columns : list string) (values : list Value) : list Value :=
  map (fun col => match bound (name col) columns values with
                  | None => if is_rowid col
                            then Some (CNum (next_rowid (schema tbl) (rows tbl) (name col)))
                            else None
                  | Some v => Some v
                  end)
      (Sql.columns (schema tbl)).

Definition reference_check (db : Db) (t : string) (tbl : Table)
    (columns : list string) (values : list Value) : option string :=
  let s := schema tbl in
  let row := reference_stored db t tbl columns values in
  match filter (fun c => position c (Sql.columns s) = None) columns with
  | c :: _ => Some ("table " ++ t ++ " has no column named " ++ c)%string
  | [] =>
      match filter (fun col => not_null col = true /\ cell s row (name col) = None)
                   (Sql.columns s) with
      | col :: _ => Some ("NOT NULL constraint failed: " ++ t ++ "." ++ name col)%string
      | [] =>
          match filter (fun col => primary_key col = true /\
                                   existsb (fun old => value_eqb (cell s old (name col))
                                                                 (cell s row (name col)))
                                           (rows tbl) = true)
                       (Sql.columns s) with
          | col :: _ => Some ("UNIQUE constraint failed: " ++ t ++ "." ++ name col)%string
          | [] =>
              if enforce_fk db &&
                 negb (forallb
                         (fun fk =>
                            match cell s row (column fk), tables db !! parent fk with
                            | None, _ => true
                            | Some _, None => false
                            | Some _, Some p => refers s (schema p) fk (rows p) row
                            end)
                         (foreign_keys s))
              then Some "FOREIGN KEY constraint failed"
              else None
          end
      end
  end.

Definition reference_engine : Engine :=
  {| row_check := reference_check; row_stored := reference_stored |}.

End Sql.

(** ** create-database.js: schema and bulk load *)

(** Code that runs statements: it returns or throws, and leaves a store. *)
Definition Exec (A : Type) : Type := Sql.Db -> Result A * Sql.Db.

Definition exec_ret {A} (a : A) : Exec A := fun db => (Ok a, db).

Definition exec_throw {A} (e : string) : Exec A := fun db => (Throw e, db).

Definition exec_bind {A B} (m : Exec A) (k : A -> Exec B) : Exec B :=
  fun db => match m db with
            | (Ok a, db') => k a db'
            | (Throw e, db') => (Throw e, db')
            end.

(** [try { m } catch (error) { handler(error) }] *)
Definition try_catch {A} (m : Exec A) (handler : string -> Exec A) : Exec A :=
  fun db => match m db with
            | (Ok a, db') => (Ok a, db')
            | (Throw e, db') => handler e db'
            end.

Definition NOT_NULL (name : string) (affinity : Sql.Affinity) : Sql.Column :=
  Sql.mkColumn name affinity false true.

Definition PRIMARY_KEY (name : string) : Sql.Column :=
  Sql.mkColumn name Sql.INTEGER true false.

Definition customers_schema : Sql.Schema :=
  Sql.mkSchema
    [ PRIMARY_KEY "customer_id"; NOT_NULL "name" Sql.TEXT; NOT_NULL "email" Sql.TEXT;
      NOT_NULL "signup_date" Sql.TEXT; NOT_NULL "country" Sql.TEXT ]
    [].

Definition products_schema : Sql.Schema :=
  Sql.mkSchema
    [ PRIMARY_KEY "product_id"; NOT_NULL "product_name" Sql.TEXT;
      NOT_NULL "category" Sql.TEXT; NOT_NULL "price" Sql.REAL;
      NOT_NULL "stock_quantity" Sql.INTEGER ]
    [].

Definition orders_schema : Sql.Schema :=
  Sql.mkSchema
    [ PRIMARY_KEY "order_id"; NOT_NULL "customer_id" Sql.INTEGER;
      NOT_NULL "order_date" Sql.TEXT; NOT_NULL "total_amount" Sql.REAL ]
    [ Sql.mkForeignKey "customer_id" "customers" "customer_id" Sql.CASCADE Sql.CASCADE ].

Definition order_items_schema : Sql.Schema :=
  Sql.mkSchema
    [ PRIMARY_KEY "order_item_id"; NOT_NULL "order_id" Sql.INTEGER;
      NOT_NULL "product_id" Sql.INTEGER; NOT_NULL "quantity" Sql.INTEGER;
      NOT_NULL "unit_price" Sql.REAL ]
    [ Sql.mkForeignKey "order_id" "orders" "order_id" Sql.CASCADE Sql.CASCADE;
      Sql.mkForeignKey "product_id" "products" "product_id" Sql.RESTRICT Sql.CASCADE ].

Definition payments_schema : Sql.Schema :=
  Sql.mkSchema
    [ PRIMARY_KEY "payment_id"; NOT_NULL "order_id" Sql.INTEGER;
      NOT_NULL "payment_method" Sql.TEXT; NOT_NULL "payment_status" Sql.TEXT;
      NOT_NULL "payment_date" Sql.TEXT ]
    [ Sql.mkForeignKey "order_id" "orders" "order_id" Sql.CASCADE Sql.CASCADE ].

Definition dropStatements : list Sql.Statement :=
  [ Sql.DropTableIfExists "payments"; Sql.DropTableIfExists "order_items";
    Sql.DropTableIfExists "orders"; Sql.DropTableIfExists "products";
    Sql.DropTableIfExists "customers" ].

Definition createStatements : list Sql.Statement :=
  [ Sql.CreateTableIfNotExists "customers" customers_schema;
    Sql.CreateTableIfNotExists "products" products_schema;
    Sql.CreateTableIfNotExists "orders" orders_schema;
    Sql.CreateTableIfNotExists "order_items" order_items_schema;
    Sql.CreateTableIfNotExists "payments" payments_schema ].

Section Database.
Context {E : Sql.Engine}.

(** [await runQuery(db, sql, params)]: a rejected statement throws and
    leaves the store as it was. *)
Definition runQuery (stmt : Sql.Statement) : Exec unit :=
  fun db => match Sql.exec db stmt with
            | Ok db' => (Ok tt, db')
            | Throw e => (Throw e, db)
            end.

(** [for (const statement of statements) await runQuery(db, statement)] *)
Fixpoint runAll (statements : list Sql.Statement) : Exec unit :=
  match statements with
  | [] => exec_ret tt
  | statement :: rest => exec_bind (runQuery statement) (fun _ => runAll rest)
  end.

Definition createTables : Exec unit :=
  exec_bind (runAll dropStatements) (fun _ => runAll createStatements).

(** [row[column]]; a missing property is bound as NULL. *)
Fixpoint property (row : list (string * Cell)) (column : string) : Sql.Value :=
  match row with
  | [] => None
  | (key, value) :: rest => if String.eqb key column then Some value
                            else property rest column
  end.

(** The loop of [insertData]. *)
Fixpoint insertRows (tableName : string) (columns : list string)
    (rows : list (list (string * Cell))) : Exec unit :=
  match rows with
  | [] => exec_ret tt
  | row :: rest =>
      let values := map (property row) columns in
      exec_bind (runQuery (Sql.InsertInto tableName columns values))
                (fun _ => insertRows tableName columns rest)
  end.

Definition insertData (tableName : string) (columns : list string)
    (rows : list (list (string * Cell))) : Exec unit :=
  match rows with
  | [] => exec_ret tt
  | _ =>
      exec_bind (runQuery Sql.BeginTransaction) (fun _ =>
        try_catch
          (exec_bind (insertRows tableName columns rows)
                     (fun _ => runQuery Sql.Commit))
          (fun error =>
             exec_bind (runQuery Sql.Rollback) (fun _ => exec_throw error)))
  end.

End Database.

(** *** Vocabulary of the statements about the store *)

(** The five tables as [createTables] declares them, empty. *)
Definition fresh_tables : gmap string Sql.Table :=
  list_to_map [ ("customers", Sql.mkTable customers_schema []);
                ("products", Sql.mkTable products_schema []);
                ("orders", Sql.mkTable orders_schema []);
                ("order_items", Sql.mkTable order_items_schema []);
                ("payments", Sql.mkTable payments_schema []) ].

Definition declared_schema (table : string) : option Sql.Schema :=
  Sql.schema <$> fresh_tables !! table.

#[global] Instance Affinity_eq_dec : EqDecision Sql.Affinity.
Proof. solve_decision. Defined.

#[global] Instance Action_eq_dec : EqDecision Sql.Action.
Proof. solve_decision. Defined.

#[global] Instance Column_eq_dec : EqDecision Sql.Column.
Proof. solve_decision. Defined.

#[global] Instance ForeignKey_eq_dec : EqDecision Sql.ForeignKey.
Proof. solve_decision. Defined.

#[global] Instance Schema_eq_dec : EqDecision Sql.Schema.
Proof. solve_decision. Defined.

(** A store that holds nothing but tables of the pipeline, each with its
    declared schema and any rows. *)
Definition pipeline_store (db : Sql.Db) : Prop :=
  map_Forall (fun t tbl => declared_schema t = Some (Sql.schema tbl)) (Sql.tables db).

(** The store with the five tables declared anew. *)
Definition refreshed (db : Sql.Db) : Sql.Db :=
  Sql.mkDb fresh_tables (Sql.snapshot db) (Sql.enforce_fk db).

(** No table of the store declares a foreign key into [t]. *)
Definition childless (tbls : gmap string Sql.Table) (t : string) : Prop :=
  forall c child, tbls !! c = Some child ->
    Forall (fun fk => Sql.parent fk <> t) (Sql.foreign_keys (Sql.schema child)).

(** The store after BEGIN. *)
Definition begun (db : Sql.Db) : Sql.Db :=
  Sql.mkDb (Sql.tables db) (Some (Sql.tables db)) (Sql.enforce_fk db).

(** The store of a new database file, foreign keys switched on. *)
Definition empty_db : Sql.Db := Sql.mkDb ∅ None true.

(** *** Sample values *)

Definition customers_columns : list string :=
  ["customer_id"; "name"; "email"; "signup_date"; "country"].

Definition products_columns : list string :=
  ["product_id"; "product_name"; "category"; "price"; "stock_quantity"].

Definition orders_columns : list string :=
  ["order_id"; "customer_id"; "order_date"; "total_amount"].

Definition order_items_columns : list string :=
  ["order_item_id"; "order_id"; "product_id"; "quantity"; "unit_price"].

Definition sample_customer_rows : list (list (string * Cell)) :=
  [ [ ("customer_id", CNum 1%float); ("name", CStr "Ada Lovelace");
      ("email", CStr "ada@example.com"); ("signup_date", CStr "2024-01-01");
      ("country", CStr "United Kingdom") ] ].

Definition sample_product_rows : list (list (string * Cell)) :=
  [ [ ("product_id", CNum 1%float); ("product_name", CStr "Lamp");
      ("category", CStr "Home"); ("price", CNum 10.5%float);
      ("stock_quantity", CNum 3%float) ] ].

Definition sample_order_rows : list (list (string * Cell)) :=
  [ [ ("order_id", CNum 1%float); ("customer_id", CNum 1%float);
      ("order_date", CStr "2024-02-01"); ("total_amount", CNum 21%float) ] ].

Definition sample_item (id product : float) : list (string * Cell) :=
  [ ("order_item_id", CNum id); ("order_id", CNum 1%float);
    ("product_id", CNum product); ("quantity", CNum 1%float);
    ("unit_price", CNum 10.5%float) ].

(** The store after [main] has created the tables and loaded customers,
    products and orders. *)
Definition sample_loaded : Sql.Db :=
  snd (exec_bind (createTables (E := Sql.reference_engine)) (fun _ =>
       exec_bind (insertData (E := Sql.reference_engine)
                    "customers" customers_columns sample_customer_rows) (fun _ =>
       exec_bind (insertData (E := Sql.reference_engine)
                    "products" products_columns sample_product_rows) (fun _ =>
       insertData (E := Sql.reference_engine)
                    "orders" orders_columns sample_order_rows)))
       empty_db).

(** *** Vocabulary of the statements about the generators *)

Section GeneratorVocabulary.
Context {P : Platform}.

(** The longest look back of [faker.date.past({ years: 2 })], in
    milliseconds. *)
Definition two_years_ms : Z := 2 * 365 * 24 * 3600 * 1000.

(** What [generateCustomers] gives the customer built at index [idx]. *)
Definition fresh_customer (idx : nat) (c : Customer.t) : Prop :=
  Customer.customer_id c = id_of_index idx /\
  (exists t, Customer.signup_date c = formatDate t /\
             now - two_years_ms <= t <= now - 1000) /\
  (exists n, Customer.name c = person_fullName n) /\
  (exists n, Customer.email c = toLowerCase (internet_email n)) /\
  (exists n, Customer.country c = location_country n).

(** What [generateProducts] gives the product built at index [idx]. *)
Definition fresh_product (idx : nat) (p : Product.t) : Prop :=
  Product.product_id p = id_of_index idx /\
  Product.category p ∈ categories /\
  0 <= Product.stock_quantity p <= 500 /\
  (exists n, Product.price p = toFixed2 (Number (commerce_price n))) /\
  (exists n, Product.product_name p = commerce_productName n).

(** An item as [addOrderItem] builds it from one of the products. *)
Definition item_of (products : list Product.t) (it : OrderItem.t) : Prop :=
  1 <= OrderItem.quantity it <= 5 /\
  exists p, p ∈ products /\
            OrderItem.product_id it = Product.product_id p /\
            OrderItem.unit_price it = toFixed2 (Number (Product.price p)).

End GeneratorVocabulary.

(** *** The hand-off: writing a file, and what is read back *)

(** [writeCsvFile(fileName, headers, records)] on the files of the data
    directory. *)
Definition writeCsvFile (fileName : string) (headers : list string)
    (records : list (gmap string Value)) (files : gmap string string)
  : gmap string string :=
  <[fileName := convertToCsv records headers]> files.

(** The row [loadCsv] returns for a payment. *)
Definition loaded_payment (p : Payment.t) : list (string * Cell) :=
  [ ("payment_id", CNum (float_of_Z (Payment.payment_id p)));
    ("order_id", CNum (float_of_Z (Payment.order_id p)));
    ("payment_method", CStr (Payment.payment_method p));
    ("payment_status", CStr (Payment.payment_status p));
    ("payment_date", CStr (Payment.payment_date p)) ].

(** The year of an ISO text: four digits, or a sign and six digits outside
    0..9999. *)
Definition year_text (y : Z) : string :=
  if (0 <=? y) && (y <=? 9999) then Js.pad_N 4 y
  else ((if (y <? 0)%Z then "-" else "+") ++ Js.pad_N 6 (Z.abs y))%string.

(** A value that is neither [null] nor [undefined]. *)
Definition present (value : Value) : Prop :=
  match value with
  | VNull | VUndefined => False
  | _ => True
  end.

(** The row object of a row no converter touches: every cell as text. *)
Definition as_text (rawRow : list (string * string)) : list (string * Cell) :=
  map (fun kv => (fst kv, CStr (snd kv))) rawRow.

(** ** create-database.js: the script as a whole *)

Definition payments_columns : list string :=
  ["payment_id"; "order_id"; "payment_method"; "payment_status"; "payment_date"].

(** The rows of the five files, as [loadCsv] returns them. *)
Record Loaded : Type := mkLoaded {
  loaded_customers : list (list (string * Cell));
  loaded_products : list (list (string * Cell));
  loaded_orders : list (list (string * Cell));
  loaded_orderItems : list (list (string * Cell));
  loaded_payments : list (list (string * Cell));
}.

(** The [Promise.all] over the five loads.  It rejects as soon as one load
    rejects; when several do, the model reports the first in the order of
    the array. *)
Definition loadAll (files : gmap string string) : Result Loaded :=
  result_bind (loadCsv files "customers.csv" (converters_of customers_fields)) (fun customers =>
  result_bind (loadCsv files "products.csv" (converters_of products_fields)) (fun products =>
  result_bind (loadCsv files "orders.csv" (converters_of orders_fields)) (fun orders =>
  result_bind (loadCsv files "order_items.csv" (converters_of order_items_fields)) (fun orderItems =>
  result_bind (loadCsv files "payments.csv" (converters_of payments_fields)) (fun payments =>
  Ok (mkLoaded customers products orders orderItems payments)))))).

(** [PRAGMA foreign_keys = ON]; the pragma does nothing while a
    transaction is open. *)
Definition foreign_keys_on : Exec unit :=
  fun db => (Ok tt, match Sql.snapshot db with
                    | None => Sql.mkDb (Sql.tables db) None true
                    | Some _ => db
                    end).

(** The database file just after [rm] and [openDatabase]: no table, and
    foreign keys not enforced, which is the engine's default. *)
Definition new_database : Sql.Db := Sql.mkDb ∅ None false.

Section Script.
Context {E : Sql.Engine}.

(** The five [insertData] calls of [main], parents before children. *)
Definition insertAll (data : Loaded) : Exec unit :=
  exec_bind (insertData "customers" customers_columns (loaded_customers data)) (fun _ =>
  exec_bind (insertData "products" products_columns (loaded_products data)) (fun _ =>
  exec_bind (insertData "orders" orders_columns (loaded_orders data)) (fun _ =>
  exec_bind (insertData "order_items" order_items_columns (loaded_orderItems data)) (fun _ =>
  insertData "payments" payments_columns (loaded_payments data))))).

(** The [try] block of [main], on the files of the data directory. *)
Definition main_body (files : gmap string string) : Exec unit :=
  exec_bind foreign_keys_on (fun _ =>
  exec_bind createTables (fun _ =>
  match loadAll files with
  | Ok data => insertAll data
  | Throw error => exec_throw error
  end)).

(** [main]: the exit code the [catch] block leaves ([process.exitCode = 1]
    after any error) and the store the connection is closed on. *)
Definition main (files : gmap string string) : Z * Sql.Db :=
  match main_body files new_database with
  | (Ok _, db) => (0, db)
  | (Throw _, db) => (1, db)
  end.

(** The store once the rows of a batch are stored in table [t], one after
    the other, each as the engine stores it. *)
Fixpoint load_rows (t : string) (columns : list string)
    (rows : list (list (string * Cell))) (db : Sql.Db) : Sql.Db :=
  match rows with
  | [] => db
  | row :: rest =>
      match Sql.tables db !! t with
      | Some tbl =>
          let stored := Sql.row_stored db t tbl columns (map (property row) columns) in
          load_rows t columns rest
            (Sql.mkDb (<[t := Sql.mkTable (Sql.schema tbl) (Sql.rows tbl ++ [stored])]>
                         (Sql.tables db))
                      (Sql.snapshot db) (Sql.enforce_fk db))
      | None => db
      end
  end.

(** The store once a batch is stored inside a transaction of its own. *)
Definition load_batch (db : Sql.Db)
    (batch : string * list string * list (list (string * Cell))) : Sql.Db :=
  let loaded := load_rows (fst (fst batch)) (snd (fst batch)) (snd batch) (begun db) in
  Sql.mkDb (Sql.tables loaded) None (Sql.enforce_fk db).

(** The batches of [main], in the order it inserts them. *)
Definition batches (data : Loaded)
  : list (string * list string * list (list (string * Cell))) :=
  [ ("customers", customers_columns, loaded_customers data);
    ("products", products_columns, loaded_products data);
    ("orders", orders_columns, loaded_orders data);
    ("order_items", order_items_columns, loaded_orderItems data);
    ("payments", payments_columns, loaded_payments data) ].

(** The five fresh tables with the first [k] batches stored in full. *)
Definition loaded_prefix (data : Loaded) (k : nat) : Sql.Db :=
  fold_left load_batch (take k (batches data)) (Sql.mkDb fresh_tables None true).

End Script.

(** *** Vocabulary of the statements about the load *)

(** A table [createTables] can drop and declare anew: a table of the
    pipeline as declared, or a table of another name that refers to none of
    the pipeline's. *)
Definition replaceable (t : string) (tbl : Sql.Table) : Prop :=
  declared_schema t = Some (Sql.schema tbl) \/
  (declared_schema t = None /\
   Forall (fun fk => declared_schema (Sql.parent fk) = None)
          (Sql.foreign_keys (Sql.schema tbl))).

(** The files [main] loads, each with the kinds of its columns. *)
Definition main_loads : list (string * list (string * FieldType)) :=
  [ ("customers.csv", customers_fields); ("products.csv", products_fields);
    ("orders.csv", orders_fields); ("order_items.csv", order_items_fields);
    ("payments.csv", payments_fields) ].

(** *** Sample values *)


(** A store with a table of its own beside the pipeline's. *)
Definition sample_shared : Sql.Db :=
  Sql.mkDb (<["audit_log" := Sql.mkTable (Sql.mkSchema [PRIMARY_KEY "entry_id"] [])
                                          [[Some (CNum 1%float)]]]>
              (Sql.tables sample_loaded))
           None true.

(** A text of the given lines. *)
Definition csv_lines (lines : list string) : string :=
  Js.text (array_join [LF] (map Js.chars lines)).

(** Five files of which the first has a text where an integer is
    required. *)
Definition sample_files : gmap string string :=
  list_to_map
    [ ("customers.csv",
       csv_lines [ "customer_id,name,email,signup_date,country";
                   "one,Ada,ada@example.com,2024-01-01,France" ]);
      ("products.csv",
       csv_lines [ "product_id,product_name,category,price,stock_quantity";
                   "1,Lamp,Home & Kitchen,10.50,3" ]);
      ("orders.csv", "order_id,customer_id,order_date,total_amount");
      ("order_items.csv", "order_item_id,order_id,product_id,quantity,unit_price");
      ("payments.csv", "payment_id,order_id,payment_method,payment_status,payment_date") ].

(** Five files of which the fourth refers to a product that is not there. *)
Definition sample_pipeline_files : gmap string string :=
  list_to_map
    [ ("customers.csv",
       csv_lines [ "customer_id,name,email,signup_date,country";
                   "1,Ada Lovelace,ada@example.com,2024-01-01,France" ]);
      ("products.csv",
       csv_lines [ "product_id,product_name,category,price,stock_quantity";
                   "1,Lamp,Home & Kitchen,10.50,3" ]);
      ("orders.csv",
       csv_lines [ "order_id,customer_id,order_date,total_amount";
                   "1,1,2024-02-01T10:00:00.000Z,21.00" ]);
      ("order_items.csv",
       csv_lines [ "order_item_id,order_id,product_id,quantity,unit_price";
                   "1,1,1,1,10.50"; "2,1,9,1,10.50" ]);
      ("payments.csv",
       csv_lines [ "payment_id,order_id,payment_method,payment_status,payment_date";
                   "1,1,PayPal,Pending,2024-02-01T10:00:00.000Z" ]) ].

(** Five files that hold their header line and no row. *)
Definition sample_header_files : gmap string string :=
  list_to_map
    [ ("customers.csv", "customer_id,name,email,signup_date,country");
      ("products.csv", "product_id,product_name,category,price,stock_quantity");
      ("orders.csv", "order_id,customer_id,order_date,total_amount");
      ("order_items.csv", "order_item_id,order_id,product_id,quantity,unit_price");
      ("payments.csv", "payment_id,order_id,payment_method,payment_status,payment_date") ].

(** ** main.js: the three scripts in sequence *)

Module Pipeline.

(** What the script writes to the console, line by line. *)
Inductive Event : Type :=
| Starting
| Running (scriptName : string)
| Stdout (text : string)
| Stderr (text : string)
| ErrorRunning (scriptName error : string)
| Completed.

Definition is_empty (s : string) : bool :=
  match s with EmptyString => true | _ => false end.

Section Scripts.
(** [execAsync(command)]: the output of the child process, or the error of
    a process that could not be run or ended with a code other than 0. *)
Context (execAsync : string -> Result (string * string)).

Definition runScript (scriptName : string) : list Event :=
  Running scriptName ::
  match execAsync ("node " ++ scriptName) with
  | Ok (stdout, stderr) =>
      (if is_empty stdout then [] else [Stdout stdout]) ++
      (if is_empty stderr then [] else [Stderr stderr])
  | Throw error => [ErrorRunning scriptName error]
  end.

Definition main : list Event :=
  Starting ::
  runScript "generate-data.js" ++ runScript "create-database.js" ++
  runScript "run-queries.js" ++ [Completed].

End Scripts.

(** The scripts a log shows as started, in order. *)
Definition started (log : list Event) : list string :=
  omap (fun event => match event with Running scriptName => Some scriptName | _ => None end)
       log.

End Pipeline.

(** * Properties of the built-ins *)

(** ** Rounding never yields NaN *)

Lemma shr_1_nonneg mrs : 0 <= shr_m mrs -> 0 <= shr_m (shr_1 mrs).
Proof. destruct mrs as [m r s]. simpl. destruct m as [|[p|p|]|[p|p|]]; simpl; lia. Qed.

Lemma iter_pos_shr_1_nonneg p mrs :
  0 <= shr_m mrs -> 0 <= shr_m (SpecFloat.iter_pos shr_1 p mrs).
Proof.
  revert mrs. induction p as [p IH|p IH|]; intros mrs Hm; simpl.
  - apply IH, IH, shr_1_nonneg, Hm.
  - apply IH, IH, Hm.
  - apply shr_1_nonneg, Hm.
Qed.

Lemma shr_fexp_nonneg m e l :
  0 <= m -> 0 <= shr_m (fst (shr_fexp prec emax m e l)).
Proof.
  intros Hm. unfold shr_fexp, shr.
  assert (H0 : 0 <= shr_m (shr_record_of_loc m l)) by (destruct l as [|[]]; exact Hm).
  destruct (fexp prec emax (Zdigits2 m + e) - e); simpl; auto using iter_pos_shr_1_nonneg.
Qed.

Lemma round_nearest_even_nonneg m l : 0 <= m -> 0 <= round_nearest_even m l.
Proof. intros Hm. destruct l as [|[]]; simpl; try destruct (Z.even m); lia. Qed.

Lemma binary_round_aux_not_nan sx mx ex lx :
  0 <= mx -> not_nan (binary_round_aux prec emax sx mx ex lx) = true.
Proof.
  intros Hm. unfold binary_round_aux.
  pose proof (shr_fexp_nonneg mx ex lx Hm) as H1.
  destruct (shr_fexp prec emax mx ex lx) as [mrs' e']. simpl in H1.
  pose proof (shr_fexp_nonneg _ e' loc_Exact
                (round_nearest_even_nonneg _ (loc_of_shr_record mrs') H1)) as H2.
  destruct (shr_fexp prec emax _ e' loc_Exact) as [mrs'' e'']. simpl in H2.
  destruct (shr_m mrs'') as [|m|m]; [reflexivity | | lia].
  destruct (e'' <=? emax - prec); reflexivity.
Qed.

Lemma binary_round_not_nan sx mx ex : not_nan (binary_round prec emax sx mx ex) = true.
Proof.
  unfold binary_round. destruct (shl_align _ _ _) as [mz ez].
  apply binary_round_aux_not_nan. lia.
Qed.

Lemma binary_normalize_not_nan m e s : not_nan (binary_normalize prec emax m e s) = true.
Proof. destruct m; simpl; [reflexivity | apply binary_round_not_nan ..]. Qed.

Lemma SFldexp_not_nan x e : not_nan x = true -> not_nan (SFldexp prec emax x e) = true.
Proof. destruct x; simpl; auto. intros _. apply binary_round_not_nan. Qed.

Lemma SFopp_not_nan x : not_nan (SFopp x) = not_nan x.
Proof. destruct x; reflexivity. Qed.

Lemma SFeqb_refl x : not_nan x = true -> SFeqb x x = true.
Proof.
  destruct x as [s|s| |s m e]; try discriminate; intros _; unfold SFeqb, SFcompare.
  - reflexivity.
  - destruct s; reflexivity.
  - destruct s; cbn; rewrite Z.compare_refl;
      change (PosDef.Pos.compare_cont Eq m m) with (Pos.compare_cont Eq m m);
      rewrite Pos.compare_cont_refl; reflexivity.

Qed.

Lemma is_nan_Prim2SF x : is_nan x = negb (not_nan (Prim2SF x)).
Proof.
  unfold is_nan. rewrite FloatAxioms.eqb_spec.
  destruct (not_nan (Prim2SF x)) eqn:E.
  - rewrite SFeqb_refl by exact E. reflexivity.
  - destruct (Prim2SF x); try discriminate. reflexivity.
Qed.

Lemma SF2Prim_not_nan x : not_nan x = true -> is_nan (SF2Prim x) = false.
Proof.
  intros Hx. rewrite is_nan_Prim2SF. apply negb_false_iff.
  destruct x as [[]|[]| |s m e]; try reflexivity; try discriminate.
  unfold SF2Prim.
  assert (H : not_nan (Prim2SF (Z.ldexp (of_uint63 (Uint63Axioms.of_Z (Z.pos m))) e)) = true).
  { unfold Z.ldexp. rewrite ldshiftexp_spec. apply SFldexp_not_nan.
    rewrite of_uint63_spec. apply binary_normalize_not_nan. }
  destruct s; [rewrite opp_spec, SFopp_not_nan|]; exact H.
Qed.

(** ** Decimal numerals *)

Lemma digit_chars_digits d : forallb Js.is_digit (digit_chars d) = true.
Proof. induction d; simpl; auto. Qed.

Lemma digit_chars_value_acc d acc :
  fold_left digit_step (digit_chars d) (Z.pos acc) = Z.pos (Pos.of_uint_acc d acc).
Proof.
  revert acc. induction d; intros acc; simpl; [reflexivity| ..];
    (etransitivity; [|apply IHd]); f_equal; unfold digit_step, Js.digit_val;
    simpl N_of_ascii; simpl Z.of_N; lia.
Qed.

Lemma digit_chars_value d :
  fold_left digit_step (digit_chars d) 0 = Z.of_N (Pos.of_uint d).
Proof.
  induction d; simpl; [reflexivity | exact IHd | ..];
    apply (digit_chars_value_acc d).
Qed.

Lemma span_digits_all ds rest :
  forallb Js.is_digit ds = true -> Js.is_digit <$> head rest <> Some true ->
  Js.span_digits (ds ++ rest) = (ds, rest).
Proof.
  intros Hds Hrest. induction ds as [|c ds IH]; simpl in *.
  - destruct rest as [|c rest]; [reflexivity|]. simpl in *.
    destruct (Js.is_digit c); [congruence | reflexivity].
  - apply andb_true_iff in Hds as [-> Hds]. rewrite IH by exact Hds. reflexivity.
Qed.

(** ** Numbers that are never NaN *)

Lemma float_of_Z_not_nan z : is_nan (float_of_Z z) = false.
Proof. apply SF2Prim_not_nan, binary_normalize_not_nan. Qed.

Lemma opp_not_nan x : is_nan x = false -> is_nan (- x)%float = false.
Proof.
  rewrite !is_nan_Prim2SF, opp_spec, SFopp_not_nan. auto.
Qed.

Lemma decimal_to_float_not_nan neg m e : is_nan (Js.decimal_to_float neg m e) = false.
Proof.
  unfold Js.decimal_to_float. destruct (m =? 0); [destruct neg; reflexivity|].
  assert (H : forall sf, not_nan sf = true ->
    is_nan (if neg then (- SF2Prim sf)%float else SF2Prim sf) = false).
  { intros sf Hsf. destruct neg; [apply opp_not_nan|]; apply SF2Prim_not_nan, Hsf. }
  apply H. destruct (0 <=? e); apply binary_normalize_not_nan.
Qed.

Lemma literal_value_not_nan lit : is_nan (Js.literal_value lit) = false.
Proof.
  destruct lit as [[]|neg m e]; [reflexivity | reflexivity |].
  apply decimal_to_float_not_nan.
Qed.

(** ** The digits of an integer *)

Ltac char_cases c := destruct c as [[] [] [] [] [] [] [] []].

Lemma is_digit_not_ws c : Js.is_digit c = true -> Js.is_ws c = false.
Proof. char_cases c; intros H; try reflexivity; discriminate. Qed.

Lemma take_sign_digit c l : Js.is_digit c = true -> Js.take_sign (c :: l) = (false, c :: l).
Proof. char_cases c; intros H; try reflexivity; discriminate. Qed.

Lemma chars_string_of_Z z :
  exists ds, ds <> [] /\ forallb Js.is_digit ds = true /\
             Js.digits_value ds = Z.abs z /\
             Js.chars (Js.string_of_Z z) =
             ((if z <? 0 then ["-"%char] else []) ++ ds)%list.
Proof.
  destruct z as [|p|p].
  - exists ["0"%char]. repeat split; discriminate.
  - exists (digit_chars (Pos.to_uint p)).
    pose proof (DecimalPos.Unsigned.to_uint_nonnil p) as Hnn.
    split; [|split; [apply digit_chars_digits|split]].
    + unfold digit_chars. destruct (Pos.to_uint p); try congruence; discriminate.
    + unfold Js.digits_value. fold digit_step. rewrite digit_chars_value.
      rewrite DecimalPos.Unsigned.of_to. reflexivity.
    + unfold Js.string_of_Z. simpl. unfold digit_chars.
      destruct (Pos.to_uint p); try congruence; reflexivity.
  - exists (digit_chars (Pos.to_uint p)).
    pose proof (DecimalPos.Unsigned.to_uint_nonnil p) as Hnn.
    split; [|split; [apply digit_chars_digits|split]].
    + unfold digit_chars. destruct (Pos.to_uint p); try congruence; discriminate.
    + unfold Js.digits_value. fold digit_step. rewrite digit_chars_value.
      rewrite DecimalPos.Unsigned.of_to. reflexivity.
    + unfold Js.string_of_Z. simpl. unfold digit_chars.
      destruct (Pos.to_uint p); try congruence; reflexivity.
Qed.

(** * Properties of the generators *)

(** ** The generator monad *)

Lemma gbind_Ok {A B} (m : Gen A) (k : A -> Gen B) g r :
  gbind m k g = Ok r <-> exists a g1, m g = Ok (a, g1) /\ k a g1 = Ok r.
Proof.
  unfold gbind. split.
  - destruct (m g) as [[a g1]|e]; [eauto | discriminate].
  - intros (a & g1 & -> & Hk). exact Hk.
Qed.

Lemma gret_Ok {A} (a : A) g r : gret a g = Ok r <-> r = (a, g).
Proof. unfold gret. split; [intros [= <-] | intros ->]; reflexivity. Qed.

(** Decomposes a successful run along its binds. *)
Ltac gen_inv H :=
  repeat (cbv beta zeta in H; match type of H with
  | gbind _ _ _ = Ok _ =>
      let a := fresh "a" in let g := fresh "g" in
      let H1 := fresh "Hrun" in
      apply gbind_Ok in H; destruct H as (a & g & H1 & H)
  | gret _ _ = Ok _ => apply gret_Ok in H; simplify_eq
  end).

Lemma gmapM_Forall2 {A B} (P : A -> B -> Prop) (f : A -> Gen B) l :
  (forall a g b g', a ∈ l -> f a g = Ok (b, g') -> P a b) ->
  forall g bs g', gmapM f l g = Ok (bs, g') -> Forall2 P l bs.
Proof.
  induction l as [|a l IH]; intros Hf g bs g' Hrun; simpl in Hrun.
  - gen_inv Hrun. constructor.
  - gen_inv Hrun. constructor.
    + eapply Hf; [left | eassumption].
    + eapply IH; [|eassumption]. intros; eapply Hf; [right|]; eassumption.
Qed.

Lemma gmapM_total {A B} (f : A -> Gen B) l :
  (forall a g, a ∈ l -> exists b g', f a g = Ok (b, g')) ->
  forall g, exists bs g', gmapM f l g = Ok (bs, g').
Proof.
  induction l as [|a l IH]; intros Hf g; simpl.
  - eexists _, _. reflexivity.
  - destruct (Hf a g) as (b & g1 & Hb); [left|].
    destruct (IH (fun a g Ha => Hf a g (list_elem_of_further _ _ _ Ha)) g1)
      as (bs & g2 & Hbs).
    exists (b :: bs), g2. apply gbind_Ok. exists b, g1. split; [exact Hb|].
    apply gbind_Ok. exists bs, g2. split; [exact Hbs | reflexivity].
Qed.

Lemma map_idx_Forall2 {A B} (P : A -> B -> Prop) (f : nat -> A -> Gen B) l :
  (forall i a g b g', f i a g = Ok (b, g') -> P a b) ->
  forall i g bs g', map_idx f i l g = Ok (bs, g') -> Forall2 P l bs.
Proof.
  intros Hf. induction l as [|a l IH]; intros i g bs g' Hrun; simpl in Hrun.
  - gen_inv Hrun. constructor.
  - gen_inv Hrun. constructor; eauto.
Qed.

Lemma map_idx_ids {A B} (id : B -> Z) (f : nat -> A -> Gen B) l :
  (forall i a g b g', f i a g = Ok (b, g') -> id b = Z.of_nat i + 1) ->
  forall i g bs g', map_idx f i l g = Ok (bs, g') ->
  forall k b, bs !! k = Some b -> id b = Z.of_nat (i + k) + 1.
Proof.
  intros Hf. induction l as [|a l IH]; intros i g bs g' Hrun k b Hk; simpl in Hrun.
  - gen_inv Hrun.
  - gen_inv Hrun. destruct k as [|k]; simpl in Hk.
    + simplify_eq. rewrite Nat.add_0_r. eauto.
    + replace (i + S k)%nat with (S i + k)%nat by lia. eauto.
Qed.

Lemma map_idx_total {A B} (f : nat -> A -> Gen B) l :
  (forall i a g, exists b g', f i a g = Ok (b, g')) ->
  forall i g, exists bs g', map_idx f i l g = Ok (bs, g').
Proof.
  intros Hf. induction l as [|a l IH]; intros i g; simpl.
  - eexists _, _. reflexivity.
  - destruct (Hf i a g) as (b & g1 & Hb).
    destruct (IH (S i) g1) as (bs & g2 & Hbs).
    exists (b :: bs), g2. apply gbind_Ok. exists b, g1. split; [exact Hb|].
    apply gbind_Ok. exists bs, g2. split; [exact Hbs | reflexivity].
Qed.

(** ** faker's contracts *)

Lemma number_int_range min max g v g' :
  faker.number_int min max g = Ok (v, g') -> min <= v <= max.
Proof.
  unfold faker.number_int.
  destruct (Z.ltb_spec max min); [discriminate|].
  destruct (Z.eqb_spec min max).
  - intros Hrun. gen_inv Hrun. lia.
  - destruct (draw g) as [r g1]. intros [= <- _].
    pose proof (Z.mod_pos_bound (Z.of_nat r) (max - min + 1)). lia.
Qed.

Lemma number_int_total min max g :
  min <= max -> exists v g', faker.number_int min max g = Ok (v, g').
Proof.
  intros Hle. unfold faker.number_int.
  destruct (Z.ltb_spec max min); [lia|].
  destruct (Z.eqb_spec min max); [eexists _, _; reflexivity|].
  destruct (draw g) as [r g1]. eexists _, _; reflexivity.
Qed.

Lemma number_int_empty min max g :
  max < min -> exists e, faker.number_int min max g = Throw e.
Proof.
  intros Hlt. unfold faker.number_int.
  destruct (Z.ltb_spec max min); [|lia]. eexists; reflexivity.
Qed.

Lemma arrayElement_index_range len g i g' :
  faker.arrayElement_index len g = Ok (i, g') -> (i < len)%nat.
Proof.
  unfold faker.arrayElement_index. destruct len as [|[|len]].
  - discriminate.
  - intros Hrun. gen_inv Hrun. lia.
  - intros Hrun. gen_inv Hrun.
    apply number_int_range in Hrun0. lia.
Qed.

Lemma arrayElement_index_total len g :
  (0 < len)%nat -> exists i g', faker.arrayElement_index len g = Ok (i, g').
Proof.
  intros Hlen. unfold faker.arrayElement_index. destruct len as [|[|len]]; [lia| |].
  - eexists _, _; reflexivity.
  - destruct (number_int_total 0 (Z.of_nat (S (S len)) - 1) g) as (v & g1 & Hv); [lia|].
    exists (Z.to_nat v), g1. apply gbind_Ok. eauto.
Qed.

Lemma arrayElement_elem {A} (array : list A) g a g' :
  faker.arrayElement array g = Ok (a, g') -> a ∈ array.
Proof.
  unfold faker.arrayElement. intros Hrun. gen_inv Hrun.
  destruct (array !! a0) as [x|] eqn:Hx; [|discriminate].
  gen_inv Hrun.
  eapply list_elem_of_lookup_2; eassumption.
Qed.

Lemma arrayElement_total {A} (array : list A) g :
  array <> [] -> exists a g', faker.arrayElement array g = Ok (a, g').
Proof.
  intros Hne. unfold faker.arrayElement.
  destruct (arrayElement_index_total (length array) g) as (i & g1 & Hi).
  { destruct array; [congruence | simpl; lia]. }
  pose proof (arrayElement_index_range _ _ _ _ Hi) as Hlt.
  destruct (lookup_lt_is_Some_2 array i Hlt) as [a Ha].
  exists a, g1. apply gbind_Ok. exists i, g1. split; [exact Hi|].
  rewrite Ha. reflexivity.
Qed.

Lemma arrayElement_empty {A} g :
  exists e, faker.arrayElement (@nil A) g = Throw e.
Proof. eexists; reflexivity. Qed.

Lemma date_between_range from to g t g' :
  faker.date_between from to g = Ok (t, g') -> from <= t <= to.
Proof.
  unfold faker.date_between. intros Hrun. gen_inv Hrun.
  apply number_int_range in Hrun0. lia.
Qed.

Lemma date_between_total from to g :
  from <= to -> exists t g', faker.date_between from to g = Ok (t, g').
Proof.
  intros Hle. unfold faker.date_between.
  destruct (number_int_total 0 (to - from) g) as (v & g1 & Hv); [lia|].
  eexists _, g1. apply gbind_Ok. eauto.
Qed.

(** ** [generateOrderItems] *)

Section GeneratorProofs.
Context {P : Platform}.

Lemma addOrderItem_step products pos st g st' g' :
  addOrderItem products pos st g = Ok (st', g') -> add_step products pos st st'.
Proof.
  unfold addOrderItem. destruct (orders st !! pos) as [order|] eqn:Hpos; [|discriminate].
  intros Hrun. gen_inv Hrun.
  exists order, a, a0. split; [exact Hpos|].
  split; [eapply arrayElement_elem; eassumption|].
  split; [eapply number_int_range; eassumption | reflexivity].
Qed.

Lemma addOrderItem_total products pos st g :
  (pos < length (orders st))%nat -> products <> [] ->
  exists st' g', addOrderItem products pos st g = Ok (st', g').
Proof.
  intros Hpos Hne. unfold addOrderItem.
  destruct (lookup_lt_is_Some_2 _ _ Hpos) as [order ->].
  destruct (arrayElement_total products g Hne) as (p & g1 & Hp).
  destruct (number_int_total 1 5 g1) as (q & g2 & Hq); [lia|].
  eexists _, g2. apply gbind_Ok. exists p, g1. split; [exact Hp|].
  apply gbind_Ok. exists q, g2. split; [exact Hq | reflexivity].
Qed.

Lemma addOrderItem_no_product pos st g :
  (pos < length (orders st))%nat -> exists e, addOrderItem [] pos st g = Throw e.
Proof.
  intros Hpos. unfold addOrderItem.
  destruct (lookup_lt_is_Some_2 _ _ Hpos) as [order ->]. eexists; reflexivity.
Qed.

Lemma add_step_length products pos st st' :
  add_step products pos st st' ->
  length (orderItems st') = S (length (orderItems st)) /\
  length (orders st') = length (orders st).
Proof.
  intros (order & product & quantity & _ & _ & _ & ->). simpl.
  rewrite length_app, length_insert. simpl. lia.
Qed.

Lemma run_trans products st1 st2 st3 :
  run products st1 st2 -> run products st2 st3 -> run products st1 st3.
Proof. induction 1; [auto | intros; eapply run_add; eauto]. Qed.

Lemma run_one products pos st st' : add_step products pos st st' -> run products st st'.
Proof. intros; eapply run_add; [eassumption | apply run_done]. Qed.

(** *** The two loops *)

Lemma firstPass_run products safe n pos st g st' g' :
  firstPass products safe n pos st g = Ok (st', g') -> run products st st'.
Proof.
  revert pos st g. induction n as [|n IH]; intros pos st g Hrun; simpl in Hrun.
  - gen_inv Hrun. apply run_done.
  - destruct (Z.of_nat (length (orderItems st)) >=? safe).
    + gen_inv Hrun. apply run_done.
    + gen_inv Hrun. eapply run_add; [eapply addOrderItem_step; eassumption | eauto].
Qed.

Lemma topUp_run products safe fuel st g st' g' :
  topUp products safe fuel st g = Ok (st', g') -> run products st st'.
Proof.
  revert st g. induction fuel as [|fuel IH]; intros st g Hrun; simpl in Hrun;
    destruct (Z.of_nat (length (orderItems st)) <? safe);
    try discriminate; gen_inv Hrun; try apply run_done.
  eapply run_add; [eapply addOrderItem_step; eassumption | eauto].
Qed.

(** The first pass visits the members in array order and never breaks
    early when it starts on an empty item list with a target of at least
    the number of orders. *)
Lemma firstPass_shape products safe n pos st g st' g' :
  firstPass products safe n pos st g = Ok (st', g') ->
  length (orderItems st) = pos -> Z.of_nat (pos + n) <= safe ->
  length (orderItems st') = (pos + n)%nat /\
  (forall k it, orderItems st !! k = Some it -> orderItems st' !! k = Some it) /\
  (forall k, (pos <= k < pos + n)%nat ->
     exists it o, orderItems st' !! k = Some it /\ orders st !! k = Some o /\
                  OrderItem.order_id it = Order.order_id o).
Proof.
  revert pos st g. induction n as [|n IH]; intros pos st g Hrun Hlen Hsafe; simpl in Hrun.
  - gen_inv Hrun. split; [lia|]. split; [auto|]. intros; lia.
  - destruct (Z.geb_spec (Z.of_nat (length (orderItems st))) safe) as [Hge|_]; [lia|].
    gen_inv Hrun. pose proof (addOrderItem_step _ _ _ _ _ _ Hrun0) as Hstep.
    pose proof (add_step_length _ _ _ _ Hstep) as [Hlen1 Hlen2].
    destruct (IH (S pos) a g0 Hrun) as (Hl & Hpre & Hcov); [lia | lia |].
    destruct Hstep as (order & product & quantity & Hpos & _ & _ & Ha).
    split; [lia|]. split.
    + intros k it Hk. apply Hpre. rewrite Ha. simpl. apply lookup_app_l_Some. exact Hk.
    + intros k Hk. destruct (decide (k = pos)) as [->|Hne].
      * eexists _, order. split.
        { apply Hpre. rewrite Ha. simpl. rewrite lookup_app_r by lia.
          rewrite Hlen, Nat.sub_diag. reflexivity. }
        split; [exact Hpos | reflexivity].
      * destruct (Hcov k) as (it & o & Hit & Ho & Hid); [lia|].
        exists it. rewrite Ha in Ho. simpl in Ho.
        rewrite list_lookup_insert_ne in Ho by lia. eauto.
Qed.

Lemma firstPass_total products safe n pos st g :
  products <> [] -> (pos + n <= length (orders st))%nat ->
  exists st' g', firstPass products safe n pos st g = Ok (st', g').
Proof.
  intros Hne. revert pos st g. induction n as [|n IH]; intros pos st g Hlen; simpl.
  - eexists _, _; reflexivity.
  - destruct (Z.of_nat (length (orderItems st)) >=? safe); [eexists _, _; reflexivity|].
    destruct (addOrderItem_total products pos st g) as (st1 & g1 & H1); [lia | exact Hne |].
    pose proof (add_step_length _ _ _ _ (addOrderItem_step _ _ _ _ _ _ H1)) as [_ Hl].
    destruct (IH (S pos) st1 g1) as (st2 & g2 & H2); [lia|].
    exists st2, g2. apply gbind_Ok. eauto.
Qed.

Lemma topUp_shape products safe fuel st g st' g' :
  topUp products safe fuel st g = Ok (st', g') ->
  Z.of_nat (length (orderItems st)) <= safe ->
  Z.of_nat (length (orderItems st')) = safe /\
  (forall k it, orderItems st !! k = Some it -> orderItems st' !! k = Some it).
Proof.
  revert st g. induction fuel as [|fuel IH]; intros st g Hrun Hle; simpl in Hrun;
    destruct (Z.ltb_spec (Z.of_nat (length (orderItems st))) safe) as [Hlt|Hge];
    try discriminate; gen_inv Hrun; try (split; [lia | auto]).
  pose proof (addOrderItem_step _ _ _ _ _ _ Hrun1) as Hstep.
  pose proof (add_step_length _ _ _ _ Hstep) as [Hlen1 _].
  destruct (IH a0 g1 Hrun) as [Hl Hpre]; [lia|]. split; [exact Hl|].
  intros k it Hk. apply Hpre.
  destruct Hstep as (order & product & quantity & _ & _ & _ & ->). simpl.
  apply lookup_app_l_Some. exact Hk.
Qed.

Lemma topUp_total products safe fuel st g :
  products <> [] -> orders st <> [] ->
  safe <= Z.of_nat (length (orderItems st)) + Z.of_nat fuel ->
  exists st' g', topUp products safe fuel st g = Ok (st', g').
Proof.
  intros Hne. revert st g. induction fuel as [|fuel IH]; intros st g Hord Hfuel; simpl;
    destruct (Z.ltb_spec (Z.of_nat (length (orderItems st))) safe) as [Hlt|Hge];
    try (eexists _, _; reflexivity); [lia|].
  destruct (arrayElement_index_total (length (orders st)) g) as (pos & g1 & Hpos).
  { destruct (orders st); [congruence | simpl; lia]. }
  pose proof (arrayElement_index_range _ _ _ _ Hpos) as Hlt'.
  destruct (addOrderItem_total products pos st g1 Hlt' Hne) as (st1 & g2 & H1).
  pose proof (add_step_length _ _ _ _ (addOrderItem_step _ _ _ _ _ _ H1)) as [Hl1 Hl2].
  destruct (IH st1 g2) as (st2 & g3 & H2).
  { intros E. rewrite E in Hl2. destruct (orders st); [congruence | discriminate]. }
  { lia. }
  exists st2, g3. apply gbind_Ok. exists pos, g1. split; [exact Hpos|].
  apply gbind_Ok. eauto.
Qed.

(** *** What every run of [addOrderItem] turns preserves *)

Lemma same_order_refl {A} (o : Order.t A) : same_order o o.
Proof. repeat split. Qed.

Lemma same_order_with_total {A B} (o : Order.t A) (x : B) :
  same_order (Order.with_total o x) o.
Proof. repeat split. Qed.

Lemma same_order_trans {A B C} (o1 : Order.t A) (o2 : Order.t B) (o3 : Order.t C) :
  same_order o1 o2 -> same_order o2 o3 -> same_order o1 o3.
Proof. unfold same_order. intuition congruence. Qed.

Lemma add_step_same_orders products pos st st' :
  add_step products pos st st' -> Forall2 same_order (orders st') (orders st).
Proof.
  intros (order & product & quantity & Hpos & _ & _ & ->). simpl.
  rewrite <- (list_insert_id (orders st) pos order Hpos) at 2.
  apply Forall2_insert.
  - apply Forall_Forall2_diag, Forall_forall. intros; apply same_order_refl.
  - apply same_order_with_total.
Qed.

Lemma run_same_orders products st st' :
  run products st st' -> Forall2 same_order (orders st') (orders st).
Proof.
  induction 1 as [st | pos st st1 st2 Hstep _ IH].
  - apply Forall_Forall2_diag, Forall_forall. intros; apply same_order_refl.
  - pose proof (add_step_same_orders _ _ _ _ Hstep) as H1.
    eapply Forall2_trans; [| exact IH | exact H1].
    intros ? ? ?. apply same_order_trans.
Qed.

Lemma same_orders_ids {A B} (l : list (Order.t A)) (l0 : list (Order.t B)) :
  Forall2 same_order l l0 -> Order.order_id <$> l = Order.order_id <$> l0.
Proof.
  induction 1 as [|o o0 k k0 [Hid _] _ IH]; [reflexivity|].
  rewrite !fmap_cons. congruence.
Qed.

Lemma run_item_ids products st st' :
  run products st st' ->
  nextOrderItemId st = Z.of_nat (length (orderItems st)) + 1 ->
  (forall k it, orderItems st !! k = Some it ->
                OrderItem.order_item_id it = Z.of_nat k + 1) ->
  forall k it, orderItems st' !! k = Some it ->
               OrderItem.order_item_id it = Z.of_nat k + 1.
Proof.
  induction 1 as [st | pos st st1 st2 Hstep _ IH]; intros Hnext Hids; [exact Hids|].
  destruct Hstep as (order & product & quantity & _ & _ & _ & ->).
  apply IH; simpl.
  - rewrite length_app. simpl. lia.
  - intros k it Hk. apply lookup_app_Some in Hk as [Hk | [Hge Hk]]; [eauto|].
    apply list_lookup_singleton_Some in Hk as [Hk <-]. simpl. lia.
Qed.

Lemma run_refs products (oids : list Z) st st' :
  run products st st' ->
  Order.order_id <$> orders st = oids ->
  Forall (fun it => OrderItem.order_id it ∈ oids /\
                    OrderItem.product_id it ∈ Product.product_id <$> products)
         (orderItems st) ->
  Forall (fun it => OrderItem.order_id it ∈ oids /\
                    OrderItem.product_id it ∈ Product.product_id <$> products)
         (orderItems st').
Proof.
  induction 1 as [st | pos st st1 st2 Hstep _ IH]; intros Hoids Hrefs; [exact Hrefs|].
  pose proof (same_orders_ids _ _ (add_step_same_orders _ _ _ _ Hstep)) as Hsame.
  destruct Hstep as (order & product & quantity & Hpos & Hprod & _ & ->).
  simpl in *. apply IH; simpl; [congruence|].
  apply Forall_app. split; [exact Hrefs|]. constructor; [|constructor]. simpl. split.
  - rewrite <- Hoids. apply list_elem_of_fmap. exists order. split; [reflexivity|].
    eapply list_elem_of_lookup_2; eassumption.
  - apply list_elem_of_fmap. eauto.
Qed.

Lemma sum_lines_snoc b l it :
  sum_lines b (l ++ [it]) = (sum_lines b l + line_total it)%float.
Proof. unfold sum_lines. rewrite fold_left_app. reflexivity. Qed.

Lemma add_step_totals products base pos st st' :
  add_step products pos st st' ->
  NoDup (Order.order_id <$> orders st) ->
  Forall price_is_currency products ->
  totals_ok base st -> totals_ok base st'.
Proof.
  intros (order & product & quantity & Hpos & Hprod & _ & ->) Hnd Hcur Hok i o b Ho Hb.
  simpl in *. unfold items_of. rewrite filter_app.
  destruct (decide (i = pos)) as [->|Hne].
  - rewrite list_lookup_insert_eq in Ho by (eapply lookup_lt_Some; eassumption).
    injection Ho as <-. simpl.
    rewrite filter_cons_True, filter_nil by reflexivity.
    rewrite sum_lines_snoc. unfold line_total at 1. simpl.
    rewrite Forall_forall in Hcur. rewrite (Hcur product Hprod).
    rewrite (Hok pos order b Hpos Hb). reflexivity.
  - rewrite list_lookup_insert_ne in Ho by congruence.
    rewrite filter_cons_False, filter_nil, app_nil_r; [eauto|].
    simpl. intros Heq. apply Hne.
    eapply (NoDup_lookup _ i pos (Order.order_id o)); [exact Hnd | | ];
      rewrite list_lookup_fmap; [rewrite Ho | rewrite Hpos]; simpl; congruence.
Qed.

Lemma run_totals products base st st' :
  run products st st' ->
  NoDup (Order.order_id <$> orders st) ->
  Forall price_is_currency products ->
  totals_ok base st -> totals_ok base st'.
Proof.
  induction 1 as [st | pos st st1 st2 Hstep _ IH]; intros Hnd Hcur Hok; [exact Hok|].
  apply IH; [|exact Hcur|eapply add_step_totals; eassumption].
  rewrite (same_orders_ids _ _ (add_step_same_orders _ _ _ _ Hstep)). exact Hnd.
Qed.

(** *** The function as a whole *)

Lemma generateOrderItems_Ok orders0 products target g items orders' g' :
  generateOrderItems orders0 products target g = Ok ((items, orders'), g') ->
  exists st,
    run products (initial orders0) st /\
    items = orderItems st /\ orders' = finalize <$> orders st /\
    Z.of_nat (length items) = Z.max target (Z.of_nat (length orders0)) /\
    (forall k o, orders0 !! k = Some o ->
       exists it, items !! k = Some it /\ OrderItem.order_id it = Order.order_id o).
Proof.
  unfold generateOrderItems. intros Hrun. gen_inv Hrun.
  rename a into st1, a0 into st2.
  destruct (firstPass_shape _ _ _ _ _ _ _ _ Hrun0) as (Hl1 & _ & Hcov); [reflexivity | lia |].
  destruct (topUp_shape _ _ _ _ _ _ _ Hrun1) as (Hl2 & Hpre); [lia|].
  exists st2. split.
  { eapply run_trans; [eapply firstPass_run | eapply topUp_run]; eassumption. }
  repeat split; [exact Hl2|].
  intros k o Hk. destruct (Hcov k) as (it & o' & Hit & Ho' & Hid).
  { apply lookup_lt_Some in Hk. lia. }
  simpl in Ho'. rewrite Hk in Ho'. injection Ho' as <-. eauto.
Qed.

Lemma run_orders_length products st st' :
  run products st st' -> length (orders st') = length (orders st).
Proof. intros Hrun. eapply Forall2_length, run_same_orders, Hrun. Qed.

Lemma generateOrderItems_total orders0 products target g :
  orders0 <> [] -> products <> [] ->
  exists items orders' g',
    generateOrderItems orders0 products target g = Ok ((items, orders'), g').
Proof.
  intros Hord Hprod. unfold generateOrderItems.
  set (safe := Z.max target (Z.of_nat (length orders0))).
  destruct (firstPass_total products safe (length orders0) 0 (initial orders0) g)
    as (st1 & g1 & H1); [exact Hprod | simpl; lia |].
  pose proof (run_orders_length _ _ _ (firstPass_run _ _ _ _ _ _ _ _ H1)) as Hlen.
  destruct (topUp_total products safe (Z.to_nat safe) st1 g1) as (st2 & g2 & H2).
  { exact Hprod. }
  { intros E. rewrite E in Hlen. simpl in Hlen. destruct orders0; [congruence | discriminate]. }
  { lia. }
  eexists _, _, g2. apply gbind_Ok. exists st1, g1. split; [exact H1|].
  apply gbind_Ok. exists st2, g2. split; [exact H2 | reflexivity].
Qed.

Lemma generateOrderItems_no_product orders0 target g :
  orders0 <> [] -> exists e, generateOrderItems orders0 [] target g = Throw e.
Proof.
  intros Hord. unfold generateOrderItems. destruct orders0 as [|o l]; [congruence|].
  unfold gbind. cbn [firstPass length orderItems].
  destruct (Z.geb_spec (Z.of_nat 0) (Z.max target (Z.of_nat (S (length l))))); [lia|].
  eexists; reflexivity.
Qed.

Lemma finalize_same_orders (l : list (Order.t float)) :
  Forall2 same_order (finalize <$> l) l.
Proof.
  apply Forall2_fmap_l, Forall_Forall2_diag, Forall_forall.
  intros; apply same_order_with_total.
Qed.

Lemma generateOrderItems_same_orders orders0 products target g items orders' g' :
  generateOrderItems orders0 products target g = Ok ((items, orders'), g') ->
  Forall2 same_order orders' orders0.
Proof.
  intros Hrun. destruct (generateOrderItems_Ok _ _ _ _ _ _ _ Hrun)
    as (st & Hst & _ & -> & _).
  eapply Forall2_trans;
    [| apply finalize_same_orders | exact (run_same_orders _ _ _ Hst)].
  intros ? ? ?. apply same_order_trans.
Qed.

(** *** The statements about [generateOrderItems] *)

(** C4. For a non-empty order list (and a non-empty product list, without
    which no item can be built), [generateOrderItems] completes, and then
    every order is referenced by at least one item: the first pass gives
    the order at position [k] the item at position [k], so the orders get
    their first item in array (id) order before any top-up item exists. *)
Theorem generateOrderItems_covers_every_order orders0 products targetCount g :
  orders0 <> [] -> products <> [] ->
  exists items orders' g',
    generateOrderItems orders0 products targetCount g = Ok ((items, orders'), g') /\
    Forall2 same_order orders' orders0 /\
    (forall k o, orders' !! k = Some o ->
       exists it, items !! k = Some it /\ OrderItem.order_id it = Order.order_id o) /\
    (forall o, o ∈ orders' ->
       exists it, it ∈ items /\ OrderItem.order_id it = Order.order_id o).
Proof.
  intros Hord Hprod.
  destruct (generateOrderItems_total orders0 products targetCount g Hord Hprod)
    as (items & orders' & g' & Hrun).
  exists items, orders', g'. split; [exact Hrun|].
  pose proof (generateOrderItems_same_orders _ _ _ _ _ _ _ Hrun) as Hsame.
  destruct (generateOrderItems_Ok _ _ _ _ _ _ _ Hrun) as (st & _ & _ & _ & _ & Hcov).
  split; [exact Hsame|].
  assert (Hpos : forall k o, orders' !! k = Some o ->
    exists it, items !! k = Some it /\ OrderItem.order_id it = Order.order_id o).
  { intros k o Hk.
    destruct (Forall2_lookup_l _ _ _ _ _ Hsame Hk) as (o0 & Ho0 & Hid & _).
    destruct (Hcov k o0 Ho0) as (it & Hit & Hitid). exists it. split; congruence. }
  split; [exact Hpos|].
  intros o [k Hk]%list_elem_of_lookup_1.
  destruct (Hpos k o Hk) as (it & Hit & Hid).
  exists it. split; [eapply list_elem_of_lookup_2; eassumption | exact Hid].
Qed.

(** C10. For a non-empty order list (and a non-empty product list),
    [generateOrderItems] returns exactly [max(targetCount, orders.length)]
    items, numbered 1, 2, 3, ... in creation order, the first
    [orders.length] of them being the first-pass items of the orders in
    array order. *)
Theorem generateOrderItems_count_and_ids orders0 products targetCount g :
  orders0 <> [] -> products <> [] ->
  exists items orders' g',
    generateOrderItems orders0 products targetCount g = Ok ((items, orders'), g') /\
    Z.of_nat (length items) = Z.max targetCount (Z.of_nat (length orders0)) /\
    (forall k it, items !! k = Some it ->
       OrderItem.order_item_id it = Z.of_nat k + 1) /\
    (forall k o, orders0 !! k = Some o ->
       exists it, items !! k = Some it /\ OrderItem.order_id it = Order.order_id o).
Proof.
  intros Hord Hprod.
  destruct (generateOrderItems_total orders0 products targetCount g Hord Hprod)
    as (items & orders' & g' & Hrun).
  exists items, orders', g'. split; [exact Hrun|].
  destruct (generateOrderItems_Ok _ _ _ _ _ _ _ Hrun) as (st & Hst & -> & _ & Hlen & Hcov).
  split; [exact Hlen|]. split; [|exact Hcov].
  eapply run_item_ids; [exact Hst | reflexivity |]. intros k it Hk. discriminate.
Qed.

(** The totals of a completed run. *)
Lemma generateOrderItems_run_totals orders0 products targetCount g items orders' g' :
  NoDup (Order.order_id <$> orders0) ->
  Forall (fun o => Order.total_amount o = 0%float) orders0 ->
  Forall price_is_currency products ->
  generateOrderItems orders0 products targetCount g = Ok ((items, orders'), g') ->
  forall o, o ∈ orders' ->
    Order.total_amount o =
    toFixed2 (sum_lines 0%float (items_of (Order.order_id o) items)).
Proof.
  intros Hnd Hzero Hcur Hrun.
  destruct (generateOrderItems_Ok _ _ _ _ _ _ _ Hrun) as (st & Hst & -> & -> & _).
  assert (Hok : totals_ok (Order.total_amount <$> orders0) st).
  { eapply run_totals; [exact Hst | exact Hnd | exact Hcur |].
    intros i o b Ho Hb. simpl in *. rewrite list_lookup_fmap, Ho in Hb.
    injection Hb as <-. reflexivity. }
  intros o' (o & -> & [i Hi]%list_elem_of_lookup_1)%list_elem_of_fmap.
  destruct (Forall2_lookup_l _ _ _ _ _ (run_same_orders _ _ _ Hst) Hi)
    as (o0 & Ho0 & _).
  simpl in Ho0. unfold finalize at 1. simpl.
  rewrite (Hok i o (Order.total_amount o0) Hi).
  - rewrite Forall_forall in Hzero. rewrite (Hzero o0); [reflexivity|].
    eapply list_elem_of_lookup_2; eassumption.
  - rewrite list_lookup_fmap, Ho0. reflexivity.
Qed.


End GeneratorProofs.

(** ** The other generators and the data set *)

Section DatasetProofs.
Context {P : Platform}.

Lemma Forall2_ids {B} (id : B -> Z) (idxs : list nat) (l : list B) :
  Forall2 (fun idx b => id b = id_of_index idx) idxs l ->
  id <$> l = id_of_index <$> idxs.
Proof. induction 1; [reflexivity|]. rewrite !fmap_cons. congruence. Qed.

Lemma elem_of_ids (z : Z) (n : nat) :
  z ∈ id_of_index <$> seq 0 n <-> 1 <= z <= Z.of_nat n.
Proof.
  rewrite list_elem_of_fmap. unfold id_of_index. split.
  - intros (i & -> & Hi). apply elem_of_seq in Hi. lia.
  - intros Hz. exists (Z.to_nat (z - 1)). split; [lia|]. apply elem_of_seq. lia.
Qed.

Lemma array_from_length {A} count (f : nat -> Gen A) g l g' :
  array_from count f g = Ok (l, g') -> length l = Z.to_nat count.
Proof.
  intros Hrun. apply (gmapM_Forall2 (fun _ _ => True)) in Hrun; [|auto].
  apply Forall2_length in Hrun. rewrite length_seq in Hrun. congruence.
Qed.

Lemma draw_text_total table g : exists s g', draw_text table g = Ok (s, g').
Proof. unfold draw_text. destruct (draw g). eexists _, _; reflexivity. Qed.

Lemma generateCustomers_ids count g l g' :
  generateCustomers count g = Ok (l, g') ->
  Customer.customer_id <$> l = id_of_index <$> seq 0 (Z.to_nat count).
Proof.
  intros Hrun. apply Forall2_ids.
  eapply (gmapM_Forall2 (fun idx (b : Customer.t) => Customer.customer_id b = id_of_index idx));
    [|exact Hrun].
  intros idx g1 b g2 _ Hb. cbv beta in Hb. gen_inv Hb. reflexivity.
Qed.

Lemma generateCustomers_total count g :
  exists l g', generateCustomers count g = Ok (l, g').
Proof.
  apply gmapM_total. intros idx g1 _.
  destruct (number_int_total 1000 (2 * 365 * 24 * 3600 * 1000) g1) as (off & g2 & Hoff); [lia|].
  destruct (draw_text_total person_fullName g2) as (n & g3 & Hn).
  destruct (draw_text_total internet_email g3) as (e & g4 & He).
  destruct (draw_text_total location_country g4) as (c & g5 & Hc).
  eexists _, g5. apply gbind_Ok. eexists _, g2. split.
  { unfold date_past. apply gbind_Ok. eexists _, g2. split; [exact Hoff | reflexivity]. }
  apply gbind_Ok. exists n, g3. split; [exact Hn|].
  apply gbind_Ok. exists e, g4. split; [exact He|].
  apply gbind_Ok. exists c, g5. split; [exact Hc | reflexivity].
Qed.

Lemma generateProducts_ids count g l g' :
  generateProducts count g = Ok (l, g') ->
  Product.product_id <$> l = id_of_index <$> seq 0 (Z.to_nat count).
Proof.
  intros Hrun. apply Forall2_ids.
  eapply (gmapM_Forall2 (fun idx (b : Product.t) => Product.product_id b = id_of_index idx));
    [|exact Hrun].
  intros idx g1 b g2 _ Hb. cbv beta in Hb. gen_inv Hb. reflexivity.
Qed.

Lemma generateProducts_total count g :
  exists l g', generateProducts count g = Ok (l, g').
Proof.
  apply gmapM_total. intros idx g1 _.
  destruct (draw_text_total commerce_price g1) as (pt & g2 & Hpt).
  destruct (draw_text_total commerce_productName g2) as (n & g3 & Hn).
  destruct (arrayElement_total categories g3) as (c & g4 & Hc); [discriminate|].
  destruct (number_int_total 0 500 g4) as (q & g5 & Hq); [lia|].
  eexists _, g5. apply gbind_Ok. exists pt, g2. split; [exact Hpt|].
  apply gbind_Ok. exists n, g3. split; [exact Hn|].
  apply gbind_Ok. exists c, g4. split; [exact Hc|].
  apply gbind_Ok. exists q, g5. split; [exact Hq | reflexivity].
Qed.

Lemma generateOrders_Ok count customerCount g l g' :
  generateOrders count customerCount g = Ok (l, g') ->
  Forall2 (fresh_order customerCount) (seq 0 (Z.to_nat count)) l.
Proof.
  apply gmapM_Forall2. intros idx g1 b g2 _ Hb. cbv beta in Hb. gen_inv Hb.
  split; [reflexivity|]. split; [eapply number_int_range; eassumption|].
  split; [reflexivity|]. eexists. split; [reflexivity|].
  eapply date_between_range; eassumption.
Qed.

Lemma generateOrders_total count customerCount g :
  1 <= customerCount ->
  exists l g', generateOrders count customerCount g = Ok (l, g').
Proof.
  intros Hcc. apply gmapM_total. intros idx g1 _.
  destruct (date_between_total (yearBefore now) now g1) as (t & g2 & Ht);
    [apply yearBefore_le|].
  destruct (number_int_total 1 customerCount g2) as (c & g3 & Hc); [lia|].
  eexists _, g3. apply gbind_Ok. exists t, g2. split; [exact Ht|].
  apply gbind_Ok. exists c, g3. split; [exact Hc | reflexivity].
Qed.

Lemma generateOrders_no_customer count g :
  1 <= count -> exists e, generateOrders count 0 g = Throw e.
Proof.
  intros Hcount. unfold generateOrders, array_from.
  destruct (Z.to_nat count) as [|n] eqn:E; [lia|]. simpl.
  destruct (date_between_total (yearBefore now) now g) as (t & g2 & Ht);
    [apply yearBefore_le|].
  unfold gbind at 1. unfold gbind at 1. rewrite Ht. eexists; reflexivity.
Qed.

(** *** [generatePayments] *)

Lemma generatePayment_Ok {A} idx (o : Order.t A) g p g' :
  generatePayment idx o g = Ok (p, g') ->
  Payment.payment_id p = id_of_index idx /\
  Payment.order_id p = Order.order_id o /\
  Payment.payment_status p ∈ paymentStatuses /\
  Payment.payment_method p ∈ paymentMethods /\
  (Payment.payment_status p = "Pending" ->
     Payment.payment_date p = toISOString (parseDate (Order.order_date o))) /\
  (Payment.payment_status p <> "Pending" ->
     exists t, Payment.payment_date p = toISOString t /\
               parseDate (Order.order_date o) <= t <=
               parseDate (Order.order_date o) + week_ms).
Proof.
  unfold generatePayment. intros Hrun. gen_inv Hrun. simpl.
  split; [reflexivity|]. split; [reflexivity|].
  split; [eapply arrayElement_elem; eassumption|].
  split; [eapply arrayElement_elem; eassumption|].
  destruct (String.eqb_spec a "Pending") as [->|Hne].
  - gen_inv Hrun1. split; [reflexivity | congruence].
  - split; [congruence|]. intros _. eexists. split; [reflexivity|].
    eapply date_between_range; eassumption.
Qed.

Lemma generatePayment_total {A} idx (o : Order.t A) g :
  exists p g', generatePayment idx o g = Ok (p, g').
Proof.
  unfold generatePayment.
  destruct (arrayElement_total paymentStatuses g) as (s & g1 & Hs); [discriminate|].
  assert (exists t g2,
    (if String.eqb s "Pending" then gret (parseDate (Order.order_date o))
     else faker.date_between (parseDate (Order.order_date o))
            (parseDate (Order.order_date o) + week_ms)) g1 = Ok (t, g2))
    as (t & g2 & Ht).
  { destruct (String.eqb s "Pending"); [eexists _, _; reflexivity|].
    apply date_between_total. unfold week_ms. lia. }
  destruct (arrayElement_total paymentMethods g2) as (m & g3 & Hm); [discriminate|].
  eexists _, g3. apply gbind_Ok. exists s, g1. split; [exact Hs|].
  apply gbind_Ok. exists t, g2. split; [exact Ht|].
  apply gbind_Ok. exists m, g3. split; [exact Hm | reflexivity].
Qed.

Lemma generatePayments_total {A} (orders : list (Order.t A)) g :
  exists ps g', generatePayments orders g = Ok (ps, g').
Proof. apply map_idx_total. intros; apply generatePayment_total. Qed.

(** C8. [generatePayments] returns one payment per order, in the order of
    the array and numbered from 1.  For orders whose date is in the form
    [toISOString] writes (as [generateOrders] writes it), a payment with
    status Pending carries exactly its order's [order_date], and a payment
    with any other status carries the ISO text of an instant from the
    order's instant up to seven days later, both bounds included. *)
Theorem generatePayments_rule {A} (orders : list (Order.t A)) g :
  Forall iso_date orders ->
  exists ps g',
    generatePayments orders g = Ok (ps, g') /\
    Forall2 payment_rule orders ps /\
    (forall k p, ps !! k = Some p -> Payment.payment_id p = Z.of_nat k + 1).
Proof.
  intros Hiso. destruct (generatePayments_total orders g) as (ps & g' & Hrun).
  exists ps, g'. split; [exact Hrun|]. split.
  - assert (Hall : Forall2 (fun o p => iso_date o -> payment_rule o p) orders ps).
    { eapply map_idx_Forall2; [|exact Hrun]. intros i o g1 p g2 Hp Ho.
      destruct (generatePayment_Ok _ _ _ _ _ Hp) as (_ & Hid & Hst & _ & Hpend & Hother).
      unfold iso_date in Ho. repeat split; [exact Hid | exact Hst | | exact Hother].
      intros Hs. rewrite (Hpend Hs). exact Ho. }
    clear Hrun. induction Hall as [|o p os ps' Hop _ IH]; [constructor|].
    apply Forall_cons in Hiso as [Ho Hos]. constructor; auto.
  - intros k p Hk.
    apply (map_idx_ids Payment.payment_id _ _
             (fun i a g1 b g2 Hb => proj1 (generatePayment_Ok i a g1 b g2 Hb))
             _ _ _ _ Hrun k p Hk).
Qed.

Lemma generateOrders_iso count customerCount g l g' :
  (forall t, toISOString (parseDate (toISOString t)) = toISOString t) ->
  generateOrders count customerCount g = Ok (l, g') -> Forall iso_date l.
Proof.
  intros Hiso Hrun. apply generateOrders_Ok in Hrun.
  induction Hrun as [|idx o idxs l (_ & _ & _ & t & Ht & _) _ IH]; constructor; [|exact IH].
  unfold iso_date. rewrite Ht. apply Hiso.
Qed.

(** Every price [generateProducts] writes is a two-decimal amount, on a
    platform where reading a [toFixed(2)] text and writing it again gives
    a text for the same number. *)
Lemma generateProducts_currency count g l g' :
  (forall x, Number (toFixed2 (Number (toFixed2 x))) = Number (toFixed2 x)) ->
  generateProducts count g = Ok (l, g') -> Forall price_is_currency l.
Proof.
  intros Hlaw Hrun.
  assert (Hall : Forall2 (fun (_ : nat) p => price_is_currency p)
                         (seq 0 (Z.to_nat count)) l).
  { eapply gmapM_Forall2; [|exact Hrun].
    intros idx g1 b g2 _ Hb. cbv beta in Hb. gen_inv Hb.
    unfold price_is_currency. simpl. apply Hlaw. }
  clear Hrun. induction Hall; constructor; assumption.
Qed.

(** The orders [generateOrders] creates have distinct ids and a zero
    running total. *)
Lemma generateOrders_start count customerCount g l g' :
  generateOrders count customerCount g = Ok (l, g') ->
  NoDup (Order.order_id <$> l) /\ Forall (fun o => Order.total_amount o = 0%float) l.
Proof.
  intros Hrun. apply generateOrders_Ok in Hrun. split.
  - rewrite (Forall2_ids Order.order_id (seq 0 (Z.to_nat count)) l).
    + apply NoDup_fmap_2; [|apply NoDup_seq]. intros i j. unfold id_of_index. lia.
    + eapply Forall2_impl; [exact Hrun|]. intros idx o Ho. exact (proj1 Ho).
  - induction Hrun as [|idx o idxs l (_ & _ & Hz & _) _ IH]; constructor; assumption.
Qed.

(** The totals of a generated data set: on such a platform, and for counts
    of at least one, every order's [total_amount] is [toFixed(2)] of the sum
    of its items' [quantity * unit_price]. *)
Lemma generateData_totals customerCount productCount orderCount orderItemCount g :
  (forall x, Number (toFixed2 (Number (toFixed2 x))) = Number (toFixed2 x)) ->
  1 <= customerCount -> 1 <= productCount -> 1 <= orderCount ->
  exists ds g',
    generateData customerCount productCount orderCount orderItemCount g = Ok (ds, g') /\
    forall o, o ∈ ds_orders ds ->
      Order.total_amount o =
      toFixed2 (sum_lines 0%float (items_of (Order.order_id o) (ds_orderItems ds))).
Proof.
  intros Hlaw Hcc Hpc Hoc. unfold generateData.
  destruct (generateCustomers_total customerCount g) as (cs & g1 & Hcs).
  destruct (generateProducts_total productCount g1) as (prods & g2 & Hps).
  destruct (generateOrders_total orderCount customerCount g2 Hcc) as (os & g3 & Hos).
  assert (Hos_ne : os <> []).
  { pose proof (array_from_length _ _ _ _ _ Hos). intros ->. simpl in *. lia. }
  assert (Hps_ne : prods <> []).
  { pose proof (array_from_length _ _ _ _ _ Hps). intros ->. simpl in *. lia. }
  destruct (generateOrderItems_total os prods orderItemCount g3 Hos_ne Hps_ne)
    as (items & os' & g4 & Hitems).
  destruct (generatePayments_total os' g4) as (pays & g5 & Hpays).
  eexists _, g5. split.
  { apply gbind_Ok. exists cs, g1. split; [exact Hcs|].
    apply gbind_Ok. exists prods, g2. split; [exact Hps|].
    apply gbind_Ok. exists os, g3. split; [exact Hos|].
    apply gbind_Ok. exists (items, os'), g4. split; [exact Hitems|].
    apply gbind_Ok. exists pays, g5. split; [exact Hpays | reflexivity]. }
  simpl. destruct (generateOrders_start _ _ _ _ _ Hos) as [Hnd Hzero].
  exact (generateOrderItems_run_totals _ _ _ _ _ _ _ Hnd Hzero
           (generateProducts_currency _ _ _ _ Hlaw Hps) Hitems).
Qed.

(** *** The data set *)

(** C1. For every choice of counts with at least one customer, one
    product and one order, and every random source, the generation
    completes and the data set has no orphan rows: every order's
    [customer_id] is in [1, customerCount], the id set of the generated
    customers; every item's [order_id] is the id of a generated order and
    its [product_id] the id of a generated product; every payment's
    [order_id] is the id of a generated order. *)
Theorem generateData_referential_integrity
    customerCount productCount orderCount orderItemCount g :
  1 <= customerCount -> 1 <= productCount -> 1 <= orderCount ->
  exists ds g',
    generateData customerCount productCount orderCount orderItemCount g = Ok (ds, g') /\
    referential_integrity ds /\
    (forall o, o ∈ ds_orders ds -> 1 <= Order.customer_id o <= customerCount) /\
    Customer.customer_id <$> customers ds = id_of_index <$> seq 0 (Z.to_nat customerCount).
Proof.
  intros Hcc Hpc Hoc. unfold generateData.
  destruct (generateCustomers_total customerCount g) as (cs & g1 & Hcs).
  destruct (generateProducts_total productCount g1) as (prods & g2 & Hps).
  destruct (generateOrders_total orderCount customerCount g2 Hcc) as (os & g3 & Hos).
  assert (Hos_ne : os <> []).
  { pose proof (array_from_length _ _ _ _ _ Hos). intros ->. simpl in *. lia. }
  assert (Hps_ne : prods <> []).
  { pose proof (array_from_length _ _ _ _ _ Hps). intros ->. simpl in *. lia. }
  destruct (generateOrderItems_total os prods orderItemCount g3 Hos_ne Hps_ne)
    as (items & os' & g4 & Hitems).
  destruct (generatePayments_total os' g4) as (pays & g5 & Hpays).
  eexists _, g5. split.
  { apply gbind_Ok. exists cs, g1. split; [exact Hcs|].
    apply gbind_Ok. exists prods, g2. split; [exact Hps|].
    apply gbind_Ok. exists os, g3. split; [exact Hos|].
    apply gbind_Ok. exists (items, os'), g4. split; [exact Hitems|].
    apply gbind_Ok. exists pays, g5. split; [exact Hpays | reflexivity]. }
  pose proof (generateOrderItems_same_orders _ _ _ _ _ _ _ Hitems) as Hsame.
  pose proof (generateOrders_Ok _ _ _ _ _ Hos) as Hfresh.
  assert (Hcust : forall o, o ∈ os' -> 1 <= Order.customer_id o <= customerCount).
  { intros o [k Hk]%list_elem_of_lookup_1.
    destruct (Forall2_lookup_l _ _ _ _ _ Hsame Hk) as (o0 & Ho0 & _ & Hc & _).
    destruct (Forall2_lookup_r _ _ _ _ _ Hfresh Ho0) as (idx & _ & _ & Hrange & _).
    rewrite Hc. exact Hrange. }
  pose proof (generateCustomers_ids _ _ _ _ Hcs) as Hcids.
  simpl. split; [|split; [exact Hcust | exact Hcids]].
  split; [|split]; simpl.
  - intros o Ho. rewrite Hcids. apply elem_of_ids. specialize (Hcust o Ho). lia.
  - destruct (generateOrderItems_Ok _ _ _ _ _ _ _ Hitems) as (st & Hst & -> & _ & _).
    pose proof (run_refs prods (Order.order_id <$> os) _ _ Hst eq_refl (Forall_nil_2 _))
      as Hrefs.
    rewrite (same_orders_ids _ _ Hsame).
    intros it Hit. rewrite Forall_forall in Hrefs. exact (Hrefs it Hit).
  - intros p [k Hk]%list_elem_of_lookup_1.
    pose proof (map_idx_Forall2 (fun (o : Order.t string) p => Payment.order_id p = Order.order_id o)
                  _ os' (fun i a g1 b g2 Hb => proj1 (proj2 (generatePayment_Ok i a g1 b g2 Hb)))
                  _ _ _ _ Hpays) as Hids.
    destruct (Forall2_lookup_r _ _ _ _ _ Hids Hk) as (o & Ho & ->).
    apply list_elem_of_fmap. exists o. split; [reflexivity|].
    eapply list_elem_of_lookup_2; eassumption.
Qed.

End DatasetProofs.

Lemma generatePayments_rule_witness :
  exists ps g',
    generatePayments (P := node) sample_orders sample_rng = Ok (ps, g') /\
    Forall2 (payment_rule (P := node)) sample_orders ps /\
    (forall k p, ps !! k = Some p -> Payment.payment_id p = Z.of_nat k + 1).
Proof.
  apply (generatePayments_rule (P := node)).
  repeat constructor; vm_compute; reflexivity.
Defined.

Lemma generateData_referential_integrity_witness :
  exists ds g',
    generateData (P := node) 2 2 3 4 sample_rng = Ok (ds, g') /\
    referential_integrity ds /\
    (forall o, o ∈ ds_orders ds -> 1 <= Order.customer_id o <= 2) /\
    Customer.customer_id <$> customers ds = id_of_index <$> seq 0 (Z.to_nat 2).
Proof.
  apply (generateData_referential_integrity (P := node)); lia.
Defined.

Lemma generateOrderItems_covers_every_order_witness :
  exists items orders' g',
    generateOrderItems (P := node) sample_orders sample_products 5 sample_rng
      = Ok ((items, orders'), g') /\
    Forall2 same_order orders' sample_orders /\
    (forall k o, orders' !! k = Some o ->
       exists it, items !! k = Some it /\ OrderItem.order_id it = Order.order_id o) /\
    (forall o, o ∈ orders' ->
       exists it, it ∈ items /\ OrderItem.order_id it = Order.order_id o).
Proof.
  apply (generateOrderItems_covers_every_order (P := node)); discriminate.
Defined.

Lemma generateOrderItems_count_and_ids_witness :
  exists items orders' g',
    generateOrderItems (P := node) sample_orders sample_products 5 sample_rng
      = Ok ((items, orders'), g') /\
    Z.of_nat (length items) = Z.max 5 (Z.of_nat (length sample_orders)) /\
    (forall k it, items !! k = Some it ->
       OrderItem.order_item_id it = Z.of_nat k + 1) /\
    (forall k o, sample_orders !! k = Some o ->
       exists it, items !! k = Some it /\ OrderItem.order_id it = Order.order_id o).
Proof.
  apply (generateOrderItems_count_and_ids (P := node)); discriminate.
Defined.



(** * Properties of the CSV hand-off *)

Lemma chars_text (l : list ascii) : Js.chars (Js.text l) = l.
Proof. apply list_ascii_of_string_of_list_ascii. Qed.

Lemma text_chars (s : string) : Js.text (Js.chars s) = s.
Proof. apply string_of_list_ascii_of_string. Qed.

(** ** [escapeCsvValue] *)

Lemma needs_quoting_spec (str : list ascii) :
  needs_quoting str = true <-> quote ∈ str \/ comma ∈ str \/ LF ∈ str.
Proof.
  unfold needs_quoting. rewrite existsb_exists. unfold is_special. split.
  - intros (c & Hin & Hc). apply list_elem_of_In in Hin.
    apply orb_true_iff in Hc as [Hc | Hc]; [apply orb_true_iff in Hc as [Hc | Hc]|];
      apply Ascii.eqb_eq in Hc; subst c; auto.
  - intros [Hin | [Hin | Hin]]; apply list_elem_of_In in Hin;
      eexists; (split; [exact Hin|]); reflexivity.
Qed.

Lemma double_quotes_flat_map (str : list ascii) :
  double_quotes str =
  flat_map (fun c => if Ascii.eqb c quote then [quote; quote] else [c]) str.
Proof.
  induction str as [|c str IH]; [reflexivity|]. simpl.
  destruct (Ascii.eqb c quote); simpl; congruence.
Qed.

(** C9, as the code has it.  [null] and [undefined] are written as the
    empty text.  Every other value is written as its string form, wrapped
    in quotes exactly when that form contains a quote, a comma or a line
    feed, with every quote inside doubled; otherwise the string form is
    written unchanged. *)
Theorem escapeCsvValue_quoting (value : Value) :
  match value with
  | VNull | VUndefined => escapeCsvValue value = ""
  | _ =>
      let str := Js.chars (String_of value) in
      (quote ∈ str \/ comma ∈ str \/ LF ∈ str ->
         Js.chars (escapeCsvValue value) =
         quote :: flat_map (fun c => if Ascii.eqb c quote then [quote; quote] else [c]) str
               ++ [quote]) /\
      (~ (quote ∈ str \/ comma ∈ str \/ LF ∈ str) ->
         escapeCsvValue value = String_of value)
  end.
Proof.
  assert (Hgen : forall s,
    let str := Js.chars s in
    (quote ∈ str \/ comma ∈ str \/ LF ∈ str ->
       Js.chars (Js.text (escape_chars str)) =
       quote :: flat_map (fun c => if Ascii.eqb c quote then [quote; quote] else [c]) str
             ++ [quote]) /\
    (~ (quote ∈ str \/ comma ∈ str \/ LF ∈ str) -> Js.text (escape_chars str) = s)).
  { intros s str. unfold escape_chars. split; intros Hsp.
    - apply needs_quoting_spec in Hsp. rewrite Hsp, chars_text, double_quotes_flat_map.
      reflexivity.
    - destruct (needs_quoting str) eqn:E; [apply needs_quoting_spec in E; tauto|].
      apply text_chars. }
  destruct value; try reflexivity; apply Hgen.
Qed.

(** The statement of C9 read for every value fails at [null]: its string
    form has none of the three characters, and it is not written
    unchanged. *)
Lemma escapeCsvValue_null_not_unchanged :
  ~ (quote ∈ Js.chars (String_of VNull) \/ comma ∈ Js.chars (String_of VNull) \/
     LF ∈ Js.chars (String_of VNull)) /\
  escapeCsvValue VNull <> String_of VNull.
Proof.
  split; [|discriminate].
  intros H. apply needs_quoting_spec in H. discriminate.
Qed.

(** ** The converters *)

Lemma toInteger_rejects (value fieldName : string) :
  no_integer_prefix value ->
  toInteger value fieldName =
  Throw ("Invalid integer value for " ++ fieldName ++ ": " ++ quoted_text value)%string.
Proof.
  unfold no_integer_prefix, toInteger, Js.parseInt. intros Hno.
  destruct (Js.take_sign _) as [neg l]. simpl in Hno. rewrite Hno. reflexivity.
Qed.

Lemma toFloat_rejects (value fieldName : string) :
  no_decimal_prefix value ->
  toFloat value fieldName =
  Throw ("Invalid numeric value for " ++ fieldName ++ ": " ++ quoted_text value)%string.
Proof.
  unfold no_decimal_prefix, toFloat, Js.parseFloat. intros ->. reflexivity.
Qed.

Lemma convertRow_first_failure (converters : gmap string Converter)
    (before after : list (string * string)) (key value message : string) :
  (exists cells, convertRow converters before = Ok cells) ->
  (exists converter, converters !! key = Some converter /\ converter value = Throw message) ->
  convertRow converters (before ++ (key, value) :: after)%list = Throw message.
Proof.
  intros Hbefore (converter & Hconv & Hthrow).
  induction before as [|[k v] before IH]; simpl.
  - rewrite Hconv, Hthrow. reflexivity.
  - destruct Hbefore as (cells & Hcells). simpl in Hcells.
    destruct (match converters !! k with Some c => c v | None => Ok (CStr v) end)
      as [cell|e]; [|discriminate]. simpl in *.
    destruct (convertRow converters before) as [cells'|e] eqn:E; [|discriminate].
    rewrite IH by eauto. reflexivity.
Qed.

Lemma convertRows_abort (fileName : string) (converters : gmap string Converter)
    (before after : list (list (string * string))) (bad : list (string * string))
    (rows0 : list (list (string * Cell))) (message : string) :
  Forall (fun rawRow => exists row, convertRow converters rawRow = Ok row) before ->
  convertRow converters bad = Throw message ->
  convertRows fileName converters (before ++ bad :: after)%list rows0 =
  Throw ("Failed to convert row in " ++ fileName ++ ": " ++ message)%string.
Proof.
  intros Hbefore Hbad. revert rows0.
  induction Hbefore as [|rawRow before (row & Hrow) _ IH]; intros rows0; simpl.
  - rewrite Hbad. reflexivity.
  - rewrite Hrow. apply IH.
Qed.

(** The failure the converters do report.  When a row holds, in a column
    that [main] reads with [toInteger] (or [toFloat]), a text in which
    [parseInt] ([parseFloat]) finds no number at all, and nothing before it
    in the file fails to convert, the load fails with one error that names
    the file, the column and the text as the reader trimmed it; the rows
    read before are not returned and the rows after are not looked at. *)
Lemma loadCsv_fails_fast (files : gmap string string) (fileName content : string)
    (fields : list (string * FieldType))
    (before after : list (list (string * string)))
    (bad_before bad_after : list (string * string)) (key value : string)
    (ty : FieldType) :
  files !! fileName = Some content ->
  CsvParser.rows content
    = (before ++ (bad_before ++ (key, value) :: bad_after) :: after)%list ->
  Forall (fun rawRow => exists row, convertRow (converters_of fields) rawRow = Ok row)
         before ->
  (exists cells, convertRow (converters_of fields) bad_before = Ok cells) ->
  NoDup (map fst fields) -> (key, ty) ∈ fields ->
  match ty with
  | TInteger => no_integer_prefix value
  | TDecimal => no_decimal_prefix value
  | TText => False
  end ->
  loadCsv files fileName (converters_of fields) =
  Throw ("Failed to convert row in " ++ fileName ++ ": Invalid " ++
         (match ty with TInteger => "integer" | _ => "numeric" end) ++
         " value for " ++ key ++ ": " ++ quoted_text value)%string.
Proof.
  intros Hfile Hrows Hbefore Hbad_before Hnd Hin Hty.
  unfold loadCsv. rewrite Hfile, Hrows.
  assert (Hconv : converters_of fields !! key = Some (converter_of ty key)).
  { unfold converters_of. apply elem_of_list_to_map.
    - rewrite map_map. simpl. exact Hnd.
    - apply list_elem_of_In, in_map_iff. exists (key, ty). split; [reflexivity|].
      apply list_elem_of_In. exact Hin. }
  destruct ty; [contradiction | |].
  - erewrite convertRows_abort; [reflexivity | exact Hbefore |].
    apply convertRow_first_failure; [exact Hbad_before|].
    eexists. split; [exact Hconv | apply toInteger_rejects, Hty].
  - erewrite convertRows_abort; [reflexivity | exact Hbefore |].
    apply convertRow_first_failure; [exact Hbad_before|].
    eexists. split; [exact Hconv | apply toFloat_rejects, Hty].
Qed.

Lemma loadCsv_fails_fast_sample :
  loadCsv {[ "orders.csv" := sample_worse_orders ]} "orders.csv"
          (converters_of [("order_id", TInteger); ("customer_id", TInteger)]) =
  Throw ("Failed to convert row in orders.csv: Invalid integer value for order_id: "
         ++ quoted_text "n/a")%string.
Proof.
  apply (loadCsv_fails_fast {[ "orders.csv" := sample_worse_orders ]} "orders.csv"
           sample_worse_orders [("order_id", TInteger); ("customer_id", TInteger)]
           [[("order_id", "1"); ("customer_id", "7")]]
           [[("order_id", "3"); ("customer_id", "9")]]
           [] [("customer_id", "8")] "order_id" "n/a" TInteger).
  - reflexivity.
  - vm_compute. reflexivity.
  - constructor; [|constructor]. eexists. vm_compute. reflexivity.
  - eexists. reflexivity.
  - apply (bool_decide_unpack _). vm_compute. exact I.
  - apply list_elem_of_here.
  - reflexivity.
Defined.

(** C7, at a text that is not a number but starts with one.  [Number]
    finds no number in [12abc]; [toInteger] and [toFloat], which test what
    [parseInt] and [parseFloat] read at the front of the text, return 12
    for it where they are to throw, and the file that holds it in an
    integer column loads without an error, the row kept with [order_id]
    12. *)
Lemma loadCsv_accepts_numeric_prefix :
  is_nan (Js.Number "12abc") = true /\
  toInteger "12abc" "order_id" = Ok (CNum 12%float) /\
  toFloat "12abc" "total_amount" = Ok (CNum 12%float) /\
  loadCsv {[ "orders.csv" := sample_bad_orders ]} "orders.csv"
          (converters_of [("order_id", TInteger); ("customer_id", TInteger)]) =
  Ok [ [("order_id", CNum 12%float); ("customer_id", CNum 7%float)];
       [("order_id", CNum 2%float); ("customer_id", CNum 8%float)] ].
Proof. repeat split; vm_compute; reflexivity. Qed.

(** ** Reading back what [convertToCsv] wrote *)

Section Reader.
Import CsvParser.
Local Open Scope list_scope.

Lemma eqb_quote_false c : c <> quote -> Ascii.eqb c quote = false.
Proof. intros H. apply Ascii.eqb_neq. exact H. Qed.

Lemma is_char_cons_ne c c' (l : list ascii) :
  c' <> c -> is_char c (head (c' :: l)) = false.
Proof. intros Hne. apply Ascii.eqb_neq. congruence. Qed.

Lemma is_char_Some_ne c c' : c' <> c -> is_char c (Some c') = false.
Proof. intros Hne. apply Ascii.eqb_neq. congruence. Qed.

(** One step of the row splitter. *)
Lemma split_rows_pair l quoted first nl cur :
  split_rows (quote :: quote :: l) false quoted false first nl cur =
  split_rows l false quoted false first nl (quote :: quote :: cur).
Proof. reflexivity. Qed.

Lemma split_rows_toggle l quoted first nl cur :
  is_char quote (head l) = false ->
  split_rows (quote :: l) false quoted false first nl cur =
  split_rows l false (negb quoted) false first nl (quote :: cur).
Proof. intros H. simpl. rewrite H. reflexivity. Qed.

Lemma split_rows_inside c l start first nl cur :
  c <> quote ->
  split_rows (c :: l) start true false first nl cur =
  split_rows l false true false first nl (c :: cur).
Proof. intros H. simpl. rewrite (eqb_quote_false c H). reflexivity. Qed.

Lemma split_rows_outside c l cur :
  c <> quote -> c <> LF ->
  split_rows (c :: l) false false false false LF cur =
  split_rows l false false false false LF (c :: cur).
Proof.
  intros Hq Hn. simpl. rewrite (eqb_quote_false c Hq).
  apply Ascii.eqb_neq in Hn. rewrite Hn. reflexivity.
Qed.

Lemma split_rows_header_char c l start cur :
  c <> quote -> c <> LF -> c <> CR ->
  split_rows (c :: l) start false false true LF cur =
  split_rows l false false false true LF (c :: cur).
Proof.
  intros Hq Hn Hc. simpl. rewrite (eqb_quote_false c Hq).
  apply Ascii.eqb_neq in Hn, Hc. rewrite Hn, Hc. simpl. rewrite Hn. reflexivity.
Qed.

Lemma split_rows_row_end l start first cur :
  split_rows (LF :: l) start false false first LF cur =
  rev cur :: split_rows l false false false false LF [].
Proof. destruct first; reflexivity. Qed.

(** The text between the quotes of a quoted cell and its closing quote,
    read inside a quoted stretch. *)
Lemma split_rows_quoted_body v rest cur :
  is_char quote (head rest) = false ->
  split_rows (double_quotes v ++ quote :: rest) false true false false LF cur =
  split_rows rest false false false false LF (quote :: rev (double_quotes v) ++ cur).
Proof.
  intros Hrest. revert cur. induction v as [|c v IH]; intros cur.
  - simpl double_quotes. simpl app. rewrite split_rows_toggle by exact Hrest. reflexivity.
  - simpl double_quotes. destruct (Ascii.eqb_spec c quote) as [->|Hc].
    + simpl app. rewrite split_rows_pair, IH. simpl rev. rewrite <- !app_assoc. reflexivity.
    + simpl app. rewrite split_rows_inside by exact Hc. rewrite IH. simpl rev.
      rewrite <- !app_assoc. reflexivity.
Qed.

Lemma split_rows_quoted v rest cur :
  is_char quote (head rest) = false ->
  split_rows (quote :: double_quotes v ++ quote :: rest) false false false false LF cur =
  split_rows rest false false false false LF
             (rev (quote :: double_quotes v ++ [quote]) ++ cur).
Proof.
  intros Hrest. revert cur. induction v as [|c v IH]; intros cur.
  - simpl double_quotes. simpl app. rewrite split_rows_pair. reflexivity.
  - simpl double_quotes. destruct (Ascii.eqb_spec c quote) as [->|Hc].
    + simpl app. rewrite split_rows_pair, IH. simpl rev.
      rewrite !rev_app_distr. simpl. rewrite <- !app_assoc. reflexivity.
    + simpl app. rewrite split_rows_toggle.
      2: { apply is_char_cons_ne. exact Hc. }
      simpl negb. rewrite split_rows_inside by exact Hc.
      rewrite split_rows_quoted_body by exact Hrest.
      simpl rev. rewrite !rev_app_distr. simpl. rewrite <- !app_assoc. reflexivity.
Qed.

(** A cell without quote and line feed is read outside any quoted stretch. *)
Lemma split_rows_plain f rest cur :
  Forall (fun c => c <> quote /\ c <> LF) f ->
  split_rows (f ++ rest) false false false false LF cur =
  split_rows rest false false false false LF (rev f ++ cur).
Proof.
  intros Hf. revert cur. induction Hf as [|c f [Hq Hn] _ IH]; intros cur; [reflexivity|].
  simpl app. rewrite split_rows_outside by assumption. rewrite IH. simpl rev.
  rewrite <- app_assoc. reflexivity.
Qed.

Lemma needs_quoting_false str :
  needs_quoting str = false ->
  Forall (fun c => c <> quote /\ c <> comma /\ c <> LF) str.
Proof.
  unfold needs_quoting. intros H. apply Forall_forall. intros c Hc.
  assert (Hs : is_special c = false).
  { destruct (is_special c) eqn:E; [|reflexivity].
    assert (existsb is_special str = true) as Habs; [|congruence].
    apply existsb_exists. exists c. split; [apply list_elem_of_In, Hc | exact E]. }
  unfold is_special in Hs. apply orb_false_iff in Hs as [Hs H3].
  apply orb_false_iff in Hs as [H1 H2].
  apply Ascii.eqb_neq in H1, H2, H3. auto.
Qed.

(** Every written cell leaves the row splitter outside a quoted stretch. *)
Lemma split_rows_cell str rest cur :
  is_char quote (head rest) = false ->
  split_rows (escape_chars str ++ rest) false false false false LF cur =
  split_rows rest false false false false LF (rev (escape_chars str) ++ cur).
Proof.
  intros Hrest. unfold escape_chars. destruct (needs_quoting str) eqn:E.
  - change ((quote :: double_quotes str ++ [quote]) ++ rest)
      with (quote :: (double_quotes str ++ [quote]) ++ rest).
    rewrite <- app_assoc. apply split_rows_quoted, Hrest.
  - apply split_rows_plain. eapply Forall_impl; [apply needs_quoting_false, E|].
    simpl. tauto.
Qed.

Lemma join_cons sep (p : list ascii) q rest :
  array_join sep (p :: q :: rest) = p ++ sep ++ array_join sep (q :: rest).
Proof. reflexivity. Qed.

Lemma split_rows_cells strs rest cur :
  is_char quote (head rest) = false ->
  split_rows (array_join [comma] (map escape_chars strs) ++ rest) false false false false LF cur =
  split_rows rest false false false false LF
             (rev (array_join [comma] (map escape_chars strs)) ++ cur).
Proof.
  intros Hrest. revert cur. induction strs as [|str strs IH]; intros cur; [reflexivity|].
  destruct strs as [|str' strs].
  - simpl. apply split_rows_cell, Hrest.
  - simpl map in *. rewrite join_cons. rewrite <- !app_assoc.
    rewrite split_rows_cell by reflexivity.
    simpl app at 1. rewrite split_rows_outside by discriminate.
    rewrite IH. rewrite !rev_app_distr. simpl. rewrite <- !app_assoc. reflexivity.
Qed.

Lemma split_rows_end start quoted first nl cur :
  cur <> [] -> split_rows [] start quoted false first nl cur = [rev cur].
Proof. destruct cur; [congruence | reflexivity]. Qed.

(** The data rows of a written text are found again, as long as none of
    them is empty. *)
Lemma split_rows_data (rows : list (list (list ascii))) :
  Forall (fun strs => array_join [comma] (map escape_chars strs) <> []) rows ->
  split_rows (array_join [LF] (map (fun strs => array_join [comma] (map escape_chars strs)) rows))
             false false false false LF [] =
  map (fun strs => array_join [comma] (map escape_chars strs)) rows.
Proof.
  induction 1 as [|strs rows Hne _ IH]; [reflexivity|].
  destruct rows as [|strs' rows].
  - simpl map. simpl array_join. rewrite <- (app_nil_r (array_join _ _)) at 1.
    rewrite split_rows_cells by reflexivity. rewrite app_nil_r.
    rewrite split_rows_end, rev_involutive; [reflexivity|].
    intros E. apply Hne. rewrite <- (rev_involutive (array_join _ _)), E. reflexivity.
  - simpl map in *. rewrite join_cons.
    rewrite split_rows_cells by reflexivity. simpl app.
    rewrite split_rows_row_end. rewrite app_nil_r, rev_involutive. f_equal. exact IH.
Qed.

(** The header row: no quote, no row end, no carriage return. *)
Lemma split_rows_header h rest start cur :
  Forall (fun c => c <> quote /\ c <> LF /\ c <> CR) h ->
  split_rows (h ++ LF :: rest) start false false true LF cur =
  (rev cur ++ h) :: split_rows rest false false false false LF [].
Proof.
  intros Hh. revert start cur.
  induction Hh as [|c h (Hq & Hn & Hc) _ IH]; intros start cur.
  - simpl app. rewrite split_rows_row_end, app_nil_r. reflexivity.
  - simpl app. rewrite split_rows_header_char by assumption. rewrite IH.
    simpl rev. rewrite <- app_assoc. reflexivity.
Qed.

Lemma split_rows_header_only h start cur :
  Forall (fun c => c <> quote /\ c <> LF /\ c <> CR) h ->
  rev cur ++ h <> [] ->
  split_rows h start false false true LF cur = [rev cur ++ h].
Proof.
  intros Hh. revert start cur.
  induction Hh as [|c h (Hq & Hn & Hc) _ IH]; intros start cur Hne.
  - rewrite app_nil_r in *. apply split_rows_end. intros ->. apply Hne. reflexivity.
  - rewrite split_rows_header_char by assumption. rewrite IH; simpl rev;
      rewrite <- app_assoc; [reflexivity|].
    destruct (rev cur); discriminate.
Qed.

Lemma split_rows_text h (rows : list (list (list ascii))) :
  Forall (fun c => c <> quote /\ c <> LF /\ c <> CR) h -> h <> [] ->
  Forall (fun strs => array_join [comma] (map escape_chars strs) <> []) rows ->
  split_rows
    (array_join [LF] (h :: map (fun strs => array_join [comma] (map escape_chars strs)) rows))
    true false false true LF [] =
  h :: map (fun strs => array_join [comma] (map escape_chars strs)) rows.
Proof.
  intros Hh Hne Hrows. destruct rows as [|strs rows].
  - simpl. apply (split_rows_header_only h true [] Hh). exact Hne.
  - simpl map. rewrite join_cons. simpl app.
    rewrite (split_rows_header h _ true [] Hh). simpl. f_equal.
    apply (split_rows_data (strs :: rows) Hrows).
Qed.

(** ** Cells of a row *)

Lemma split_cells_plain_char c l cur :
  c <> quote -> c <> comma ->
  split_cells (c :: l) false cur = split_cells l false (c :: cur).
Proof.
  intros Hq Hc. simpl. rewrite (eqb_quote_false c Hq).
  apply Ascii.eqb_neq in Hc. rewrite Hc. reflexivity.
Qed.

Lemma split_cells_comma l cur :
  split_cells (comma :: l) false cur = rev cur :: split_cells l false [].
Proof. reflexivity. Qed.

Lemma split_cells_open l cur :
  split_cells (quote :: l) false cur = split_cells l true (quote :: cur).
Proof. reflexivity. Qed.

Lemma split_cells_pair l cur :
  split_cells (quote :: quote :: l) true cur = split_cells l true (quote :: quote :: cur).
Proof. reflexivity. Qed.

Lemma split_cells_inside c l cur :
  c <> quote -> split_cells (c :: l) true cur = split_cells l true (c :: cur).
Proof.
  intros Hq. simpl. rewrite (eqb_quote_false c Hq). simpl.
  rewrite andb_false_r. reflexivity.
Qed.

Lemma split_cells_close_last cur :
  split_cells [quote] true cur = [rev (quote :: cur)].
Proof. reflexivity. Qed.

Lemma split_cells_close_comma l cur :
  split_cells (quote :: comma :: l) true cur =
  rev (quote :: cur) :: split_cells l false [].
Proof. reflexivity. Qed.

Lemma split_cells_plain f rest cur :
  Forall (fun c => c <> quote /\ c <> comma) f ->
  split_cells (f ++ rest) false cur = split_cells rest false (rev f ++ cur).
Proof.
  intros Hf. revert cur. induction Hf as [|c f [Hq Hc] _ IH]; intros cur; [reflexivity|].
  simpl app. rewrite split_cells_plain_char by assumption. rewrite IH. simpl rev.
  rewrite <- app_assoc. reflexivity.
Qed.

Lemma split_cells_body_last v cur :
  split_cells (double_quotes v ++ [quote]) true cur =
  [rev cur ++ double_quotes v ++ [quote]].
Proof.
  revert cur. induction v as [|c v IH]; intros cur.
  - simpl. reflexivity.
  - simpl double_quotes. destruct (Ascii.eqb_spec c quote) as [->|Hc]; simpl app.
    + rewrite split_cells_pair, IH. simpl rev. rewrite <- !app_assoc. reflexivity.
    + rewrite split_cells_inside by exact Hc. rewrite IH. simpl rev.
      rewrite <- !app_assoc. reflexivity.
Qed.

Lemma split_cells_body_comma v rest cur :
  split_cells (double_quotes v ++ quote :: comma :: rest) true cur =
  (rev cur ++ double_quotes v ++ [quote]) :: split_cells rest false [].
Proof.
  revert cur. induction v as [|c v IH]; intros cur.
  - simpl double_quotes. simpl app. rewrite split_cells_close_comma. reflexivity.
  - simpl double_quotes. destruct (Ascii.eqb_spec c quote) as [->|Hc]; simpl app.
    + rewrite split_cells_pair, IH. simpl rev. rewrite <- !app_assoc. reflexivity.
    + rewrite split_cells_inside by exact Hc. rewrite IH. simpl rev.
      rewrite <- !app_assoc. reflexivity.
Qed.

(** A written cell that is the last of its row. *)
Lemma split_cells_last str :
  split_cells (escape_chars str) false [] =
  match escape_chars str with [] => [] | cell => [cell] end.
Proof.
  unfold escape_chars. destruct (needs_quoting str) eqn:E.
  - rewrite split_cells_open, split_cells_body_last. reflexivity.
  - rewrite <- (app_nil_r str) at 1. rewrite split_cells_plain.
    + simpl. rewrite app_nil_r. destruct str as [|c str]; [reflexivity|].
      destruct (rev (c :: str)) eqn:E'; [|rewrite <- E', rev_involutive; reflexivity].
      apply (f_equal (@rev _)) in E'. rewrite rev_involutive in E'. discriminate.
    + eapply Forall_impl; [apply needs_quoting_false, E|]. simpl. tauto.
Qed.

(** A written cell followed by a comma. *)
Lemma split_cells_next str rest :
  split_cells (escape_chars str ++ comma :: rest) false [] =
  escape_chars str :: split_cells rest false [].
Proof.
  unfold escape_chars. destruct (needs_quoting str) eqn:E.
  - change ((quote :: double_quotes str ++ [quote]) ++ comma :: rest)
      with (quote :: (double_quotes str ++ [quote]) ++ comma :: rest).
    rewrite <- app_assoc. simpl app at 2.
    rewrite split_cells_open, split_cells_body_comma. reflexivity.
  - rewrite split_cells_plain.
    + rewrite split_cells_comma, app_nil_r, rev_involutive. reflexivity.
    + eapply Forall_impl; [apply needs_quoting_false, E|]. simpl. tauto.
Qed.

(** ** Unquoting *)

Lemma unescape_double_quotes v : unescape (double_quotes v) = v.
Proof.
  induction v as [|c v IH]; [reflexivity|].
  simpl double_quotes. destruct (Ascii.eqb_spec c quote) as [->|Hc].
  - simpl. rewrite IH. reflexivity.
  - change (unescape (c :: double_quotes v)) with
      (match double_quotes v with
       | b :: l'' => if Ascii.eqb c quote && Ascii.eqb b quote then b :: unescape l''
                     else c :: unescape (double_quotes v)
       | [] => [c]
       end).
    rewrite (eqb_quote_false c Hc). simpl. rewrite IH.
    destruct (double_quotes v) eqn:E; [|reflexivity].
    destruct v as [|c' v]; [reflexivity|]. simpl in E.
    destruct (Ascii.eqb c' quote); discriminate.
Qed.

Lemma unescape_plain f :
  Forall (fun c => c <> quote) f -> unescape f = f.
Proof.
  induction 1 as [|c f Hc _ IH]; [reflexivity|].
  change (unescape (c :: f)) with
    (match f with
     | b :: l'' => if Ascii.eqb c quote && Ascii.eqb b quote then b :: unescape l''
                   else c :: unescape f
     | [] => [c]
     end).
  rewrite (eqb_quote_false c Hc). simpl. rewrite IH. destruct f; reflexivity.
Qed.

Lemma parseCell_escape str : parseCell (escape_chars str) = str.
Proof.
  unfold escape_chars. destruct (needs_quoting str) eqn:E.
  - unfold parseCell.
    replace (last (quote :: double_quotes str ++ [quote])) with (Some quote).
    2: { change (quote :: double_quotes str ++ [quote])
           with ((quote :: double_quotes str) ++ [quote]).
         rewrite last_snoc. reflexivity. }
    simpl. rewrite removelast_last. apply unescape_double_quotes.
  - pose proof (needs_quoting_false str E) as Hf.
    assert (Hq : Forall (fun c => c <> quote) str)
      by (eapply Forall_impl; [exact Hf | simpl; tauto]).
    destruct str as [|c str]; [reflexivity|].
    unfold parseCell. apply Forall_cons in Hq as Hq'. destruct Hq' as [Hc _].
    rewrite (eqb_quote_false c Hc). simpl andb. apply unescape_plain, Hq.
Qed.

(** ** A whole row *)

Lemma escape_chars_nil str : escape_chars str = [] -> str = [].
Proof. unfold escape_chars. destruct (needs_quoting str); [discriminate | auto]. Qed.

Lemma last_escape_chars str c :
  last (escape_chars str) = Some c -> c = quote \/ (last str = Some c /\ c <> comma).
Proof.
  unfold escape_chars. destruct (needs_quoting str) eqn:E.
  - change (quote :: double_quotes str ++ [quote])
      with ((quote :: double_quotes str) ++ [quote]).
    rewrite last_snoc. intros [= <-]. left. reflexivity.
  - intros Hl. right. split; [exact Hl|].
    pose proof (needs_quoting_false str E) as Hf. rewrite Forall_forall in Hf.
    apply last_Some_elem_of in Hl. apply Hf in Hl. tauto.
Qed.

Lemma array_join_cons_nonempty sep (p q : list ascii) rest :
  sep <> [] -> array_join sep (p :: q :: rest) <> [].
Proof.
  intros Hsep. rewrite join_cons. destruct p; [|discriminate].
  destruct sep; [congruence | discriminate].
Qed.

(** The last character of a written row: a comma when the last cell is
    empty, and otherwise the last character of the last cell as written. *)
Lemma last_row str strs c :
  last (array_join [comma] (map escape_chars (str :: strs))) = Some c ->
  c = comma \/ c = quote \/
  exists s, last (str :: strs) = Some s /\ last s = Some c /\ c <> comma.
Proof.
  revert str. induction strs as [|s2 strs IH]; intros str Hl.
  - simpl in Hl. apply last_escape_chars in Hl as [->|[Hl Hc]]; [auto|].
    right. right. exists str. auto.
  - simpl map in Hl. rewrite join_cons in Hl.
    rewrite app_assoc in Hl.
    destruct (array_join [comma] (escape_chars s2 :: map escape_chars strs)) as [|a l] eqn:E.
    + rewrite app_nil_r, last_snoc in Hl. injection Hl as <-. auto.
    + rewrite last_app in Hl. rewrite <- E in Hl.
      destruct (last (array_join [comma] (escape_chars s2 :: map escape_chars strs)))
        as [c'|] eqn:E'.
      * injection Hl as ->. destruct (IH s2 E') as [->|[->|(s & Hs & Hsc)]]; auto.
        right. right. exists s. split; [|exact Hsc].
        rewrite last_cons, Hs. reflexivity.
      * rewrite E in E'. apply last_None in E'. discriminate.
Qed.

Lemma cells_of_row str strs :
  strs <> [] \/ str <> [] ->
  cells_of (array_join [comma] (map escape_chars (str :: strs))) = str :: strs.
Proof.
  revert str. induction strs as [|s2 strs IH]; intros str Hne.
  - destruct Hne as [Hne|Hne]; [congruence|]. unfold cells_of. simpl map. simpl array_join.
    rewrite split_cells_last.
    destruct (escape_chars str) as [|a l] eqn:E; [apply escape_chars_nil in E; congruence|].
    rewrite <- E. simpl map. rewrite parseCell_escape.
    destruct (last (escape_chars str)) as [c|] eqn:El; [|reflexivity].
    apply last_escape_chars in El as [->|[_ Hc]]; [reflexivity|].
    rewrite is_char_Some_ne by exact Hc. reflexivity.
  - unfold cells_of. simpl map. rewrite join_cons.
    set (row' := array_join [comma] (escape_chars s2 :: map escape_chars strs)).
    change ([comma] ++ row') with (comma :: row').
    rewrite split_cells_next. rewrite map_cons, parseCell_escape.
    destruct row' as [|a l] eqn:E.
    + assert (strs = [] /\ s2 = []) as [-> ->].
      { destruct strs as [|s3 strs].
        - split; [reflexivity|]. apply escape_chars_nil. exact E.
        - exfalso. simpl map in row'. subst row'.
          eapply array_join_cons_nonempty; [|exact E]. discriminate. }
      rewrite last_snoc. reflexivity.
    + rewrite <- E. change (comma :: row') with ([comma] ++ row').
      rewrite app_assoc, last_app.
      assert (Hl : is_Some (last row')).
      { rewrite E. destruct (last (a :: l)) eqn:E'; [eauto|].
        apply last_None in E'. discriminate. }
      destruct Hl as [c Hc]. rewrite Hc. rewrite <- app_comm_cons. f_equal.
      assert (Hne' : strs <> [] \/ s2 <> []).
      { destruct strs; [right|left; discriminate].
        intros ->. simpl in row'. subst row'. discriminate. }
      specialize (IH s2 Hne'). unfold cells_of in IH.
      change (map escape_chars (s2 :: strs))
        with (escape_chars s2 :: map escape_chars strs) in IH.
      fold row' in IH. rewrite E, <- E, Hc in IH. exact IH.
Qed.

Lemma parseLine_row str strs :
  strs <> [] \/ str <> [] ->
  Forall (fun s => last s <> Some CR) (str :: strs) ->
  parseLine (array_join [comma] (map escape_chars (str :: strs))) = str :: strs.
Proof.
  intros Hne Hcr. unfold parseLine, strip_cr.
  set (row := array_join [comma] (map escape_chars (str :: strs))).
  assert (Hstrip : is_char CR (last row) = false).
  { destruct (last row) as [c|] eqn:E; [|reflexivity].
    apply last_row in E as [->|[->|(s & Hs & Hsc & _)]]; [reflexivity | reflexivity |].
    apply is_char_Some_ne. intros ->.
    rewrite Forall_forall in Hcr. apply (Hcr s); [|exact Hsc].
    apply last_Some_elem_of. exact Hs. }
  rewrite Hstrip. apply (cells_of_row str strs Hne).
Qed.

(** ** Trimming *)

Lemma skip_ws_head l c : head (Js.skip_ws l) = Some c -> Js.is_ws c = false.
Proof.
  induction l as [|a l IH]; [discriminate|]. simpl.
  destruct (Js.is_ws a) eqn:E; [exact IH|]. simpl. intros [= <-]. exact E.
Qed.

Lemma skip_ws_id l :
  (forall c, head l = Some c -> Js.is_ws c = false) -> Js.skip_ws l = l.
Proof. destruct l as [|a l]; [reflexivity|]. intros H. simpl. rewrite (H a); reflexivity. Qed.

Lemma head_rev (l : list ascii) : head (rev l) = last l.
Proof.
  induction l as [|a l IH] using rev_ind; [reflexivity|].
  rewrite rev_app_distr, last_snoc. reflexivity.
Qed.

Lemma last_rev (l : list ascii) : last (rev l) = head l.
Proof. rewrite <- (rev_involutive l) at 2. symmetry. apply head_rev. Qed.

Lemma trim_chars_id l :
  (forall c, head l = Some c -> Js.is_ws c = false) ->
  (forall c, last l = Some c -> Js.is_ws c = false) ->
  Js.trim_chars l = l.
Proof.
  intros Hh Hl. unfold Js.trim_chars. rewrite (skip_ws_id l Hh).
  rewrite skip_ws_id; [apply rev_involutive|].
  intros c. rewrite head_rev. apply Hl.
Qed.

Lemma trim_chars_last l c : last (Js.trim_chars l) = Some c -> Js.is_ws c = false.
Proof. unfold Js.trim_chars. rewrite last_rev. apply skip_ws_head. Qed.

Lemma trimmed_last s c : trimmed s -> last (Js.chars s) = Some c -> Js.is_ws c = false.
Proof.
  unfold trimmed, Js.trim. intros Ht. rewrite <- Ht, chars_text. apply trim_chars_last.
Qed.

Lemma trimmed_no_cr s : trimmed s -> last (Js.chars s) <> Some CR.
Proof. intros Ht Hl. apply (trimmed_last s CR Ht) in Hl. discriminate. Qed.

Lemma trim_text_chars s : trimmed s -> Js.trim (Js.text (Js.chars s)) = s.
Proof. intros Ht. rewrite text_chars. exact Ht. Qed.

(** ** Row objects *)

Lemma obj_set_fresh {V} key (value : V) o :
  key ∉ map fst o -> obj_set key value o = o ++ [(key, value)].
Proof.
  induction o as [|[k v] o IH]; intros Hk; [reflexivity|]. simpl in *.
  apply not_elem_of_cons in Hk as [Hne Hk].
  destruct (String.eqb_spec k key) as [->|_]; [congruence|]. rewrite IH by exact Hk.
  reflexivity.
Qed.

Lemma writeRow_zip headers pre hs cells o :
  headers = pre ++ hs -> length cells = length hs -> NoDup (map fst o ++ hs) ->
  writeRow headers (length pre) cells o = o ++ zip hs cells.
Proof.
  revert pre cells o. induction hs as [|h hs IH]; intros pre cells o -> Hlen Hnd.
  - destruct cells; [|discriminate]. simpl. rewrite app_nil_r. reflexivity.
  - destruct cells as [|cell cells]; [discriminate|]. simpl writeRow.
    rewrite lookup_app_r by lia. rewrite Nat.sub_diag. simpl.
    apply NoDup_app in Hnd as (Hnd1 & Hdisj & Hnd2).
    rewrite obj_set_fresh.
    2: { intros Hin. apply (Hdisj h Hin). left. }
    replace (S (length pre)) with (length (pre ++ [h])) by (rewrite length_app; simpl; lia).
    rewrite (IH (pre ++ [h]) cells).
    + rewrite <- app_assoc. reflexivity.
    + rewrite <- app_assoc. reflexivity.
    + simpl in Hlen. lia.
    + rewrite map_app. simpl. rewrite <- app_assoc. simpl.
      apply NoDup_app. split; [exact Hnd1|]. split; [|exact Hnd2].
      intros x Hx. apply Hdisj. exact Hx.
Qed.

(** ** The converters on what the serialiser wrote *)

Lemma parseInt_string_of_Z z : Js.parseInt (Js.string_of_Z z) = float_of_Z z.
Proof.
  destruct (chars_string_of_Z z) as (ds & Hne & Hdig & Hval & Hchars).
  unfold Js.parseInt. rewrite Hchars.
  destruct ds as [|c ds]; [congruence|].
  pose proof Hdig as Hdig'. simpl in Hdig'. apply andb_true_iff in Hdig' as [Hc _].
  assert (Hspan : Js.span_digits (c :: ds) = (c :: ds, [])).
  { rewrite <- (app_nil_r (c :: ds)) at 1. apply span_digits_all; [exact Hdig|]. discriminate. }
  destruct (Z.ltb_spec z 0) as [Hneg|Hpos].
  - simpl app. change (Js.skip_ws ("-"%char :: c :: ds)) with ("-"%char :: c :: ds).
    change (Js.take_sign ("-"%char :: c :: ds)) with (true, c :: ds).
    cbv beta iota. rewrite Hspan. simpl fst. cbv beta iota. rewrite Hval.
    destruct (Z.eqb_spec (Z.abs z) 0) as [E|E]; [lia|]. f_equal. lia.
  - simpl app. rewrite skip_ws_id.
    2: { intros c' [= <-]. apply is_digit_not_ws, Hc. }
    rewrite (take_sign_digit c ds Hc). cbv beta iota. rewrite Hspan. simpl fst.
    cbv beta iota. rewrite Hval.
    destruct (Z.eqb_spec (Z.abs z) 0) as [E|E].
    + replace z with 0 by lia. reflexivity.
    + f_equal. lia.
Qed.

Lemma toInteger_string_of_Z z fieldName :
  toInteger (Js.string_of_Z z) fieldName = Ok (CNum (float_of_Z z)).
Proof.
  unfold toInteger. rewrite parseInt_string_of_Z, float_of_Z_not_nan. reflexivity.
Qed.

Lemma trimmed_string_of_Z z : trimmed (Js.string_of_Z z).
Proof.
  destruct (chars_string_of_Z z) as (ds & Hne & Hdig & _ & Hchars).
  unfold trimmed, Js.trim. rewrite trim_chars_id; [apply text_chars | |]; rewrite Hchars.
  - intros c Hc. destruct (z <? 0); simpl in Hc; [injection Hc as <-; reflexivity|].
    destruct ds as [|d ds]; [discriminate|]. simpl in *. injection Hc as <-.
    apply andb_true_iff in Hdig as [Hd _]. apply is_digit_not_ws, Hd.
  - intros c Hc. rewrite last_app in Hc.
    destruct (last ds) as [d|] eqn:El; [|apply last_None in El; congruence].
    injection Hc as <-. apply is_digit_not_ws.
    rewrite forallb_forall in Hdig. apply Hdig, list_elem_of_In, last_Some_elem_of, El.
Qed.

Lemma decimal_char_not_ws c : decimal_char c = true -> Js.is_ws c = false.
Proof. char_cases c; intros H; try reflexivity; discriminate. Qed.

Lemma decimal_char_no_radix c :
  decimal_char c = true ->
  (Ascii.eqb c "x" || Ascii.eqb c "X" || Ascii.eqb c "o" || Ascii.eqb c "O" ||
   Ascii.eqb c "b" || Ascii.eqb c "B") = false.
Proof. char_cases c; intros H; try reflexivity; discriminate. Qed.

Lemma decimal_text_spec s :
  decimal_text s = true ->
  exists lit, Js.decimal_prefix (Js.chars s) = Some (lit, []) /\
              Js.chars s <> [] /\
              Forall (fun c => decimal_char c = true) (Js.chars s).
Proof.
  unfold decimal_text. intros [Hall Hpre]%andb_true_iff.
  destruct (Js.decimal_prefix (Js.chars s)) as [[lit [|]]|] eqn:E; try discriminate.
  exists lit. split; [reflexivity|]. split.
  - intros Hnil. rewrite Hnil in E. discriminate.
  - apply Forall_forall. intros c Hc. rewrite forallb_forall in Hall.
    apply Hall, list_elem_of_In, Hc.
Qed.

Lemma decimal_text_trimmed s : decimal_text s = true -> trimmed s.
Proof.
  intros (lit & _ & Hne & Hall)%decimal_text_spec. rewrite Forall_forall in Hall.
  unfold trimmed, Js.trim. rewrite trim_chars_id; [apply text_chars | |].
  - intros c Hc. apply decimal_char_not_ws, Hall.
    destruct (Js.chars s); [discriminate|]. injection Hc as <-. left.
  - intros c Hc. apply decimal_char_not_ws, Hall, last_Some_elem_of, Hc.
Qed.

Lemma parseFloat_decimal_text s :
  decimal_text s = true ->
  Js.parseFloat s = Js.Number s /\ is_nan (Js.parseFloat s) = false.
Proof.
  intros Hd. pose proof (decimal_text_trimmed s Hd) as Ht.
  destruct (decimal_text_spec s Hd) as (lit & Hpre & Hne & Hall).
  rewrite Forall_forall in Hall.
  assert (Hskip : Js.skip_ws (Js.chars s) = Js.chars s).
  { apply skip_ws_id. intros c Hc. apply decimal_char_not_ws, Hall.
    destruct (Js.chars s); [discriminate|]. injection Hc as <-. left. }
  assert (Hpf : Js.parseFloat s = Js.literal_value lit).
  { unfold Js.parseFloat. rewrite Hskip, Hpre. reflexivity. }
  split; [|rewrite Hpf; apply literal_value_not_nan].
  rewrite Hpf. unfold Js.Number.
  assert (Htrim : Js.trim_chars (Js.chars s) = Js.chars s).
  { unfold trimmed, Js.trim in Ht. rewrite <- Ht at 2. rewrite chars_text. reflexivity. }
  rewrite Htrim. destruct (Js.chars s) as [|c l] eqn:E; [congruence|]. simpl Js.is_nil.
  cbv iota.
  assert (Hnd : Js.non_decimal (c :: l) = None).
  { unfold Js.non_decimal. destruct l as [|p [|d l]]; try (destruct (Ascii.eqb c "0"); reflexivity);
      try (char_cases c; reflexivity).
    assert (Hp : decimal_char p = true) by (apply Hall; right; left).
    apply decimal_char_no_radix in Hp.
    apply orb_false_iff in Hp as [Hp Hb2]. apply orb_false_iff in Hp as [Hp Hb1].
    apply orb_false_iff in Hp as [Hp Ho2]. apply orb_false_iff in Hp as [Hp Ho1].
    apply orb_false_iff in Hp as [Hx1 Hx2].
    rewrite Hx1, Hx2, Ho1, Ho2, Hb1, Hb2. simpl. char_cases c; reflexivity. }
  rewrite Hnd, Hpre. reflexivity.
Qed.

Lemma toFloat_decimal_text s fieldName :
  decimal_text s = true -> toFloat s fieldName = Ok (CNum (Js.Number s)).
Proof.
  intros Hd. destruct (parseFloat_decimal_text s Hd) as [Heq Hnan].
  unfold toFloat. rewrite Hnan, Heq. reflexivity.
Qed.

Lemma valid_field_loadable ty value : valid_field ty value -> loadable value.
Proof.
  destruct ty, value; simpl; try tauto. apply decimal_text_trimmed.
Qed.

Lemma String_of_safe z : safe_integer z -> String_of (VInt z) = Js.string_of_Z z.
Proof.
  intros Hz. unfold String_of, is_safe_integer.
  destruct (Z.leb_spec (Z.abs z) 9007199254740991) as [_|Hgt]; [reflexivity|].
  unfold safe_integer in Hz. lia.
Qed.

Lemma loadable_trimmed value : loadable value -> trimmed (String_of value).
Proof.
  destruct value as [| |z|s]; cbn [loadable]; try tauto.
  intros Hz. rewrite (String_of_safe z Hz). apply trimmed_string_of_Z.
Qed.

Lemma loadable_escape value :
  loadable value ->
  Js.chars (escapeCsvValue value) = escape_chars (Js.chars (String_of value)).
Proof.
  destruct value; cbn [loadable escapeCsvValue]; try tauto; intros _; apply chars_text.
Qed.

Lemma converter_valid_field ty fieldName value :
  valid_field ty value ->
  converter_of ty fieldName (String_of value) = Ok (expected_cell ty value).
Proof.
  destruct ty, value as [| |z|s]; cbn [valid_field converter_of expected_cell]; try tauto;
    intros Hv; try reflexivity.
  - rewrite (String_of_safe z Hv). apply toInteger_string_of_Z.
  - apply toFloat_decimal_text, Hv.
Qed.

(** ** The round trip *)

Lemma array_join_Forall (P : ascii -> Prop) sep parts :
  Forall P sep -> Forall (Forall P) parts -> Forall P (array_join sep parts).
Proof.
  intros Hsep. induction 1 as [|p parts Hp Hparts IH]; [constructor|].
  destruct parts as [|q parts]; [exact Hp|].
  rewrite join_cons. repeat (apply Forall_app; split); assumption.
Qed.

Lemma escape_chars_plain str :
  Forall (fun c => c <> quote /\ c <> comma /\ c <> LF /\ c <> CR) str ->
  escape_chars str = str.
Proof.
  intros Hstr. unfold escape_chars.
  destruct (needs_quoting str) eqn:E; [|reflexivity].
  apply needs_quoting_spec in E. rewrite Forall_forall in Hstr.
  destruct E as [E|[E|E]]; apply Hstr in E; tauto.
Qed.

Lemma converters_of_lookup fields f :
  NoDup (map fst fields) -> f ∈ fields ->
  converters_of fields !! fst f = Some (converter_of (snd f) (fst f)).
Proof.
  intros Hnd Hin. unfold converters_of. apply elem_of_list_to_map.
  - rewrite map_map. simpl. exact Hnd.
  - apply list_elem_of_In, in_map_iff. exists f. split; [reflexivity|].
    apply list_elem_of_In. exact Hin.
Qed.

Lemma convertRow_cons converters key value rest :
  convertRow converters ((key, value) :: rest) =
  result_bind (match converters !! key with
               | Some converter => converter value
               | None => Ok (CStr value)
               end)
    (fun cell => result_bind (convertRow converters rest)
                   (fun cells => Ok ((key, cell) :: cells))).
Proof. reflexivity. Qed.

Lemma convertRow_expected fields record :
  NoDup (map fst fields) ->
  Forall (fun f => valid_field (snd f) (field record (fst f))) fields ->
  convertRow (converters_of fields)
    (zip (map fst fields) (map (fun h => String_of (field record h)) (map fst fields))) =
  Ok (expected_row fields record).
Proof.
  intros Hnd Hvalid. unfold expected_row.
  assert (Hgen : forall fs, (forall f, f ∈ fs -> f ∈ fields) ->
    convertRow (converters_of fields)
      (zip (map fst fs) (map (fun h => String_of (field record h)) (map fst fs))) =
    Ok (map (fun f => (fst f, expected_cell (snd f) (field record (fst f)))) fs)).
  { induction fs as [|f fs IH]; intros Hsub; [reflexivity|].
    rewrite !map_cons. cbn [zip zip_with]. rewrite convertRow_cons.
    rewrite (converters_of_lookup fields f Hnd) by (apply Hsub; left).
    rewrite converter_valid_field.
    2: { rewrite Forall_forall in Hvalid. apply Hvalid, Hsub. left. }
    cbn [result_bind]. rewrite IH by (intros; apply Hsub; right; assumption).
    reflexivity. }
  apply Hgen. auto.
Qed.

Lemma convertRows_all fileName converters raws outs rows0 :
  Forall2 (fun raw out => convertRow converters raw = Ok out) raws outs ->
  convertRows fileName converters raws rows0 = Ok (rows0 ++ outs).
Proof.
  intros Hall. revert rows0. induction Hall as [|raw out raws outs Hraw _ IH]; intros rows0.
  - simpl. rewrite app_nil_r. reflexivity.
  - simpl. rewrite Hraw, IH, <- app_assoc. reflexivity.
Qed.

Lemma parseLine_cells strs :
  (1 < length strs)%nat -> Forall (fun s => last s <> Some CR) strs ->
  CsvParser.parseLine (array_join [comma] (map escape_chars strs)) = strs.
Proof.
  destruct strs as [|s1 [|s2 strs]]; simpl length; try lia.
  intros _ Hcr. apply parseLine_row; [left; discriminate | exact Hcr].
Qed.

Lemma array_join_nonempty sep (parts : list (list ascii)) :
  sep <> [] -> (1 < length parts)%nat -> array_join sep parts <> [].
Proof.
  destruct parts as [|p [|q parts]]; simpl length; try lia.
  intros Hsep _. apply array_join_cons_nonempty, Hsep.
Qed.

Lemma rows_convertToCsv headers records :
  (1 < length headers)%nat -> NoDup headers -> Forall valid_header headers ->
  Forall (fun record => Forall (fun h => loadable (field record h)) headers) records ->
  CsvParser.rows (convertToCsv records headers) =
  map (fun record => zip headers (map (fun h => String_of (field record h)) headers)) records.
Proof.
  intros Hlen Hnd Hhead Hrec.
  set (strs_of := fun record : gmap string Value =>
                    map (fun h => Js.chars (String_of (field record h))) headers).
  assert (Hrows : map (csv_row headers) records =
                  map (fun strs => array_join [comma] (map escape_chars strs))
                      (map strs_of records)).
  { rewrite map_map. apply map_ext_Forall.
    eapply Forall_impl; [exact Hrec|]. intros record Hr. unfold csv_row, strs_of.
    rewrite map_map. f_equal. apply map_ext_Forall.
    eapply Forall_impl; [exact Hr|]. intros h Hh. apply loadable_escape, Hh. }
  assert (Hheader : array_join [comma] (map Js.chars headers) =
                    array_join [comma] (map escape_chars (map Js.chars headers))).
  { f_equal. rewrite map_map. apply map_ext_Forall.
    eapply Forall_impl; [exact Hhead|]. intros h [_ Hh]. symmetry.
    apply escape_chars_plain, Hh. }
  assert (Hhs : map (fun cell => Js.trim (Js.text cell))
                    (CsvParser.parseLine (array_join [comma] (map Js.chars headers)))
                = headers).
  { rewrite Hheader, parseLine_cells.
    - rewrite map_map. rewrite <- (map_id headers) at 2. apply map_ext_Forall.
      eapply Forall_impl; [exact Hhead|]. intros h [Ht _]. apply trim_text_chars, Ht.
    - rewrite length_map. exact Hlen.
    - apply Forall_map. eapply Forall_impl; [exact Hhead|].
      intros h [Ht _]. apply trimmed_no_cr, Ht. }
  unfold CsvParser.rows, convertToCsv. rewrite chars_text, Hrows.
  rewrite split_rows_text.
  - cbv beta match zeta. rewrite Hhs. rewrite !map_map. apply map_ext_Forall.
    eapply Forall_impl; [exact Hrec|]. intros record Hr.
    rewrite parseLine_cells.
    + unfold strs_of. rewrite map_map.
      assert (Hvals :
        map (fun h => Js.trim (Js.text (Js.chars (String_of (field record h))))) headers
        = map (fun h => String_of (field record h)) headers).
      { apply map_ext_Forall. eapply Forall_impl; [exact Hr|].
        intros h Hh. apply trim_text_chars, loadable_trimmed, Hh. }
      rewrite Hvals.
      rewrite (writeRow_zip headers [] headers _ []); [reflexivity | reflexivity | | exact Hnd].
      rewrite length_map. reflexivity.
    + unfold strs_of. rewrite length_map. exact Hlen.
    + unfold strs_of. apply Forall_map. eapply Forall_impl; [exact Hr|].
      intros h Hh. apply trimmed_no_cr, loadable_trimmed, Hh.
  - apply array_join_Forall; [repeat constructor; discriminate|].
    apply Forall_map. eapply Forall_impl; [exact Hhead|]. intros h [_ Hh].
    eapply Forall_impl; [exact Hh|]. simpl. tauto.
  - apply array_join_nonempty; [discriminate|]. rewrite length_map. exact Hlen.
  - apply Forall_map. apply Forall_forall. intros record _. unfold strs_of.
    apply array_join_nonempty; [discriminate|]. rewrite !length_map. exact Hlen.
Qed.



(** They are plain keys, so the row object keeps a property of its own for
    each, in the order of the header. *)
Lemma pipeline_fields_plain (fields : list (string * FieldType)) :
  fields ∈ pipeline_fields -> Forall plain_key (map fst fields).
Proof.
  unfold pipeline_fields. intros Hin.
  repeat (apply elem_of_cons in Hin as [->|Hin]); [..|inversion Hin].
  all: unfold plain_key; apply (bool_decide_unpack _); vm_compute; exact I.
Qed.


End Reader.



(** ** The store: schema refresh and bulk load *)

Section StoreProofs.
Context {E : Sql.Engine}.

Lemma delete_rows_childless fuel tbls t tbl doomed :
  tbls !! t = Some tbl -> childless tbls t ->
  Sql.delete_rows (S fuel) tbls t doomed =
  Ok (<[t := Sql.mkTable (Sql.schema tbl)
               (filter (fun row => doomed row <> true) (Sql.rows tbl))]> tbls).
Proof.
  intros Ht Hc. simpl. rewrite Ht.
  set (tbls1 := <[t := _]> tbls).
  assert (Hl : Forall (fun child => tbls !! fst child = Some (snd child)) (map_to_list tbls)).
  { apply Forall_forall. intros [c child] Hin. now apply elem_of_map_to_list in Hin. }
  induction Hl as [|[c child] l Hc1 _ IH]; [reflexivity|].
  simpl. simpl in Hc1. specialize (Hc _ _ Hc1).
  replace (fold_left _ (Sql.foreign_keys (Sql.schema child)) (Ok tbls1)) with (Ok tbls1);
    [exact IH|].
  clear IH. induction Hc as [|fk fks Hfk _ IHf]; [reflexivity|].
  simpl. destruct (String.eqb_spec (Sql.parent fk) t) as [Heq|_]; [contradiction|].
  simpl. exact IHf.
Qed.

Lemma drop_table_childless db t :
  childless (Sql.tables db) t ->
  Sql.drop_table db t =
  Ok (Sql.mkDb (delete t (Sql.tables db)) (Sql.snapshot db) (Sql.enforce_fk db)).
Proof.
  intros Hc. unfold Sql.drop_table.
  destruct (Sql.tables db !! t) as [tbl|] eqn:Ht.
  - destruct (Sql.enforce_fk db); [|reflexivity].
    rewrite (delete_rows_childless _ _ _ _ _ Ht Hc). simpl.
    now rewrite delete_insert_eq.
  - rewrite delete_id by assumption. now destruct db.
Qed.

Lemma declared_cases t s :
  declared_schema t = Some s ->
  (t = "customers" /\ s = customers_schema) \/
  (t = "products" /\ s = products_schema) \/
  (t = "orders" /\ s = orders_schema) \/
  (t = "order_items" /\ s = order_items_schema) \/
  (t = "payments" /\ s = payments_schema).
Proof.
  unfold declared_schema, fresh_tables. simpl list_to_map. intros H.
  destruct (decide (t = "customers")) as [->|?];
    [left; split; [done|]; simplify_map_eq; done|].
  destruct (decide (t = "products")) as [->|?];
    [right; left; split; [done|]; simplify_map_eq; done|].
  destruct (decide (t = "orders")) as [->|?];
    [right; right; left; split; [done|]; simplify_map_eq; done|].
  destruct (decide (t = "order_items")) as [->|?];
    [right; right; right; left; split; [done|]; simplify_map_eq; done|].
  destruct (decide (t = "payments")) as [->|?];
    [right; right; right; right; split; [done|]; simplify_map_eq; done|].
  simplify_map_eq.
Qed.

Lemma runQuery_drop db t :
  childless (Sql.tables db) t ->
  runQuery (Sql.DropTableIfExists t) db =
  (Ok tt, Sql.mkDb (delete t (Sql.tables db)) (Sql.snapshot db) (Sql.enforce_fk db)).
Proof.
  intros Hc. unfold runQuery. simpl. now rewrite (drop_table_childless _ _ Hc).
Qed.

Lemma runQuery_create db t s :
  Sql.tables db !! t = None ->
  runQuery (Sql.CreateTableIfNotExists t s) db =
  (Ok tt, Sql.mkDb (<[t := Sql.mkTable s []]> (Sql.tables db)) (Sql.snapshot db)
                   (Sql.enforce_fk db)).
Proof. intros Ht. unfold runQuery. simpl. now rewrite Ht. Qed.

(** In a store of the pipeline, a table is referenced only by tables the
    script has dropped before it. *)
Lemma pipeline_childless (tbls : gmap string Sql.Table) (dropped : list string) (t : string) :
  (forall c child, tbls !! c = Some child ->
                   declared_schema c = Some (Sql.schema child) /\ c ∉ dropped) ->
  (forall c s, declared_schema c = Some s -> c ∉ dropped ->
               Forall (fun fk => Sql.parent fk <> t) (Sql.foreign_keys s)) ->
  childless tbls t.
Proof.
  intros Hp Hs c child Hc. destruct (Hp _ _ Hc) as [Hd Hn]. exact (Hs _ _ Hd Hn).
Qed.

Ltac still_there Hp :=
  let c := fresh "c" in
  let child := fresh "child" in
  let Hc := fresh "Hc" in
  intros c child Hc;
  repeat (let Hne := fresh "Hne" in apply lookup_delete_Some in Hc as [Hne Hc]);
  split; [now apply Hp | rewrite ?not_elem_of_cons; repeat split;
                          try apply not_elem_of_nil; congruence].

Ltac no_reference :=
  let c := fresh "c" in
  let s := fresh "s" in
  let Hd := fresh "Hd" in
  let Hn := fresh "Hn" in
  intros c s Hd Hn; apply declared_cases in Hd;
  destruct Hd as [[-> ->]|[[-> ->]|[[-> ->]|[[-> ->]|[-> ->]]]]];
  try (exfalso; apply Hn; solve [repeat constructor]);
  repeat constructor; simpl; discriminate.

Ltac drop_next Hp dropped :=
  rewrite runQuery_drop;
  [| simpl; apply (pipeline_childless _ dropped _); [still_there Hp | no_reference]].

Lemma createTables_refreshes (db : Sql.Db) :
  pipeline_store db -> createTables db = (Ok tt, refreshed db).
Proof.
  intros Hp. unfold createTables, dropStatements, createStatements, runAll, exec_bind.
  drop_next Hp (@nil string).
  drop_next Hp ["payments"].
  drop_next Hp ["order_items"; "payments"].
  drop_next Hp ["orders"; "order_items"; "payments"].
  drop_next Hp ["products"; "orders"; "order_items"; "payments"].
  simpl.
  do 5 (rewrite runQuery_create by (simpl; now simplify_map_eq)).
  unfold exec_ret, refreshed. simpl. do 2 f_equal.
  apply map_eq. intros t. unfold fresh_tables. simpl list_to_map.
  destruct (decide (t = "payments")) as [->|?]; [now simplify_map_eq|].
  destruct (decide (t = "order_items")) as [->|?]; [now simplify_map_eq|].
  destruct (decide (t = "orders")) as [->|?]; [now simplify_map_eq|].
  destruct (decide (t = "products")) as [->|?]; [now simplify_map_eq|].
  destruct (decide (t = "customers")) as [->|?]; [now simplify_map_eq|].
  simplify_map_eq.
  destruct (Sql.tables db !! t) as [tbl|] eqn:Ht; [|reflexivity].
  apply Hp in Ht. apply declared_cases in Ht.
  destruct Ht as [[-> _]|[[-> _]|[[-> _]|[[-> _]|[-> _]]]]]; congruence.
Qed.

Lemma pipeline_store_refreshed db : pipeline_store (refreshed db).
Proof.
  intros t tbl Ht. unfold declared_schema. simpl in Ht. now rewrite Ht.
Qed.

Lemma fresh_tables_empty t tbl : fresh_tables !! t = Some tbl -> Sql.rows tbl = [].
Proof.
  unfold fresh_tables. simpl list_to_map. intros Ht.
  destruct (decide (t = "customers")) as [->|?]; [now simplify_map_eq|].
  destruct (decide (t = "products")) as [->|?]; [now simplify_map_eq|].
  destruct (decide (t = "orders")) as [->|?]; [now simplify_map_eq|].
  destruct (decide (t = "order_items")) as [->|?]; [now simplify_map_eq|].
  destruct (decide (t = "payments")) as [->|?]; [now simplify_map_eq|].
  simplify_map_eq.
Qed.

(** *** insertData *)

Lemma exec_insert_frame db db' t columns values :
  Sql.exec db (Sql.InsertInto t columns values) = Ok db' ->
  Sql.snapshot db' = Sql.snapshot db /\ Sql.enforce_fk db' = Sql.enforce_fk db.
Proof.
  simpl. destruct (Sql.tables db !! t) as [tbl|]; [|discriminate].
  destruct (Sql.row_check db t tbl columns values); [discriminate|].
  intros [= <-]. now split.
Qed.

(** The loop never touches the snapshot of the open transaction. *)
Lemma insertRows_frame t columns rows db r db' :
  insertRows t columns rows db = (r, db') ->
  Sql.snapshot db' = Sql.snapshot db /\ Sql.enforce_fk db' = Sql.enforce_fk db.
Proof.
  revert db. induction rows as [|row rows IH]; intros db; simpl.
  - intros [= _ <-]. now split.
  - unfold exec_bind, runQuery.
    destruct (Sql.exec db _) as [db1|e] eqn:Hx.
    + intros Hr. apply IH in Hr as [-> ->]. exact (exec_insert_frame _ _ _ _ _ Hx).
    + intros [= _ <-]. now split.
Qed.

(** The loop stops at the first row the engine rejects. *)
Lemma insertRows_stops t columns accepted bad rest db mid error :
  insertRows t columns accepted db = (Ok tt, mid) ->
  Sql.exec mid (Sql.InsertInto t columns (map (property bad) columns)) = Throw error ->
  insertRows t columns (accepted ++ bad :: rest) db = (Throw error, mid).
Proof.
  revert db. induction accepted as [|row accepted IH]; intros db; cbn [insertRows app].
  - intros [= <-] Hbad. unfold exec_bind, runQuery. now rewrite Hbad.
  - unfold exec_bind, runQuery.
    destruct (Sql.exec db _) as [db1|e]; [|discriminate].
    intros Hr Hbad. exact (IH _ Hr Hbad).
Qed.

(** When every row is accepted the transaction is committed. *)
Lemma insertData_commits t columns row rows db db' :
  Sql.snapshot db = None ->
  insertRows t columns (row :: rows) (begun db) = (Ok tt, db') ->
  insertData t columns (row :: rows) db =
  (Ok tt, Sql.mkDb (Sql.tables db') None (Sql.enforce_fk db)).
Proof.
  intros Hs Hr. unfold insertData, exec_bind at 1, runQuery at 1. simpl Sql.exec.
  rewrite Hs. fold (begun db). unfold try_catch, exec_bind at 1. rewrite Hr.
  apply insertRows_frame in Hr as [Hsnap Hfk]. unfold runQuery. simpl.
  rewrite Hsnap, Hfk. reflexivity.
Qed.

(** C3: when the engine rejects a row of the batch, after any number of
    accepted rows and whatever the reason, [insertData] throws the
    engine's error and leaves the store exactly as it found it: no row of
    the batch stays in the table, no transaction stays open, and the
    tables loaded by earlier calls keep all their rows. *)
Theorem insertData_atomic (db mid : Sql.Db) (tableName : string) (columns : list string)
    (accepted rest : list (list (string * Cell))) (bad : list (string * Cell))
    (error : string) :
  Sql.snapshot db = None ->
  insertRows tableName columns accepted (begun db) = (Ok tt, mid) ->
  Sql.exec mid (Sql.InsertInto tableName columns (map (property bad) columns)) = Throw error ->
  insertData tableName columns (accepted ++ bad :: rest) db = (Throw error, db).
Proof.
  intros Hs Hr Hbad.
  pose proof (insertRows_stops _ _ _ _ rest _ _ _ Hr Hbad) as Hstop.
  apply insertRows_frame in Hr as [Hsnap Hfk]. simpl in Hsnap, Hfk.
  unfold insertData.
  destruct (accepted ++ bad :: rest)%list as [|row rows] eqn:Hrows;
    [now destruct accepted|].
  unfold exec_bind at 1, runQuery at 1. simpl Sql.exec. rewrite Hs. fold (begun db).
  unfold try_catch, exec_bind at 1. rewrite Hstop.
  unfold exec_bind, runQuery, exec_throw. simpl. rewrite Hsnap.
  destruct db as [tbls snap fk]. simpl in *. now subst.
Qed.

(** C6: on a store that holds only tables of the pipeline, with any rows,
    [createTables] succeeds and leaves the five declared tables, all
    empty; a second run in succession succeeds as well and leaves the
    same store. *)
Theorem createTables_idempotent (db : Sql.Db) :
  pipeline_store db ->
  createTables db = (Ok tt, refreshed db) /\
  exec_bind createTables (fun _ => createTables) db = (Ok tt, refreshed db) /\
  (forall t tbl, Sql.tables (refreshed db) !! t = Some tbl ->
                 Sql.rows tbl = [] /\ declared_schema t = Some (Sql.schema tbl)).
Proof.
  intros Hp. pose proof (createTables_refreshes db Hp) as H1. split; [exact H1|]. split.
  - unfold exec_bind. rewrite H1.
    now rewrite (createTables_refreshes _ (pipeline_store_refreshed db)).
  - intros t tbl Ht. split; [exact (fresh_tables_empty _ _ Ht)|].
    exact (pipeline_store_refreshed db _ _ Ht).
Qed.

End StoreProofs.

Lemma insertData_atomic_witness :
  insertData (E := Sql.reference_engine) "order_items" order_items_columns
    ([sample_item 1 1] ++ sample_item 2 99 :: [sample_item 3 1]) sample_loaded =
  (Throw "FOREIGN KEY constraint failed", sample_loaded).
Proof.
  eapply (insertData_atomic (E := Sql.reference_engine)).
  - vm_compute. reflexivity.
  - reflexivity.
  - vm_compute. reflexivity.
Defined.

Lemma createTables_idempotent_witness :
  createTables (E := Sql.reference_engine) sample_loaded = (Ok tt, refreshed sample_loaded) /\
  exec_bind (createTables (E := Sql.reference_engine))
            (fun _ => createTables (E := Sql.reference_engine)) sample_loaded =
  (Ok tt, refreshed sample_loaded) /\
  (forall t tbl, Sql.tables (refreshed sample_loaded) !! t = Some tbl ->
                 Sql.rows tbl = [] /\ declared_schema t = Some (Sql.schema tbl)).
Proof.
  apply (createTables_idempotent (E := Sql.reference_engine)).
  apply (bool_decide_unpack _). vm_compute. exact I.
Defined.

(** * Further properties of the three scripts *)

(** ** More on the generators *)

Section GeneratorExtras.
Context {P : Platform}.

Lemma draw_text_Ok table g s g' :
  draw_text table g = Ok (s, g') -> exists n, s = table n.
Proof. unfold draw_text. destruct (draw g) as [r g1]. intros [= <- _]. eauto. Qed.

Lemma randomCount_Ok g : exists n g', randomCount g = Ok (n, g') /\ 50 <= n <= 100.
Proof.
  destruct (number_int_total RECORD_MIN RECORD_MAX g) as (n & g' & Hn);
    [unfold RECORD_MIN, RECORD_MAX; lia|].
  exists n, g'. split; [exact Hn|].
  apply number_int_range in Hn. unfold RECORD_MIN, RECORD_MAX in Hn. exact Hn.
Qed.

Lemma map_idx_length {A B} (f : nat -> A -> Gen B) l :
  forall i g bs g', map_idx f i l g = Ok (bs, g') -> length bs = length l.
Proof.
  intros i g bs g' H.
  apply (map_idx_Forall2 (fun _ _ => True)) in H; [|trivial].
  symmetry. exact (Forall2_length _ _ _ H).
Qed.

(** X1. whatever the random source, one run of the generation completes
    and yields between 50 and 100 customers, products and orders, at least
    as many order items as orders and at most 100, and one payment per
    order. *)
Theorem generateAndSaveData_sizes (g : Rng) :
  exists ds g',
    generateAndSaveData g = Ok (ds, g') /\
    (50 <= length (customers ds) <= 100)%nat /\
    (50 <= length (products ds) <= 100)%nat /\
    (50 <= length (ds_orders ds) <= 100)%nat /\
    (length (ds_orders ds) <= length (ds_orderItems ds) <= 100)%nat /\
    length (payments ds) = length (ds_orders ds).
Proof.
  destruct (randomCount_Ok g) as (cc & g1 & Hcc & Bc).
  destruct (randomCount_Ok g1) as (pc & g2 & Hpc & Bp).
  destruct (randomCount_Ok g2) as (oc & g3 & Hoc & Bo).
  destruct (randomCount_Ok g3) as (r & g4 & Hr & Br).
  destruct (generateCustomers_total cc g4) as (cs & g5 & Hcs).
  destruct (generateProducts_total pc g5) as (ps & g6 & Hps).
  destruct (generateOrders_total oc cc g6) as (os & g7 & Hos); [lia|].
  pose proof (array_from_length _ _ _ _ _ Hcs) as Lc.
  pose proof (array_from_length _ _ _ _ _ Hps) as Lp.
  pose proof (array_from_length _ _ _ _ _ Hos) as Lo.
  destruct (generateOrderItems_total os ps (Z.max r oc) g7) as (items & os' & g8 & Hit).
  { intros ->. simpl in Lo. lia. }
  { intros ->. simpl in Lp. lia. }
  destruct (generateOrderItems_Ok _ _ _ _ _ _ _ Hit) as (st & Hst & -> & -> & Hlen & _).
  destruct (generatePayments_total (finalize <$> orders st) g8) as (pays & g9 & Hpay).
  pose proof (map_idx_length _ _ _ _ _ _ Hpay) as Lpay.
  pose proof (run_orders_length _ _ _ Hst) as Lst. simpl in Lst.
  eexists _, g9. split.
  { unfold generateAndSaveData.
    apply gbind_Ok. exists cc, g1. split; [exact Hcc|].
    apply gbind_Ok. exists pc, g2. split; [exact Hpc|].
    apply gbind_Ok. exists oc, g3. split; [exact Hoc|].
    apply gbind_Ok. exists r, g4. split; [exact Hr|].
    unfold generateData.
    apply gbind_Ok. exists cs, g5. split; [exact Hcs|].
    apply gbind_Ok. exists ps, g6. split; [exact Hps|].
    apply gbind_Ok. exists os, g7. split; [exact Hos|].
    apply gbind_Ok. eexists _, g8. split; [exact Hit|].
    apply gbind_Ok. exists pays, g9. split; [exact Hpay | reflexivity]. }
  simpl. rewrite length_fmap in *. rewrite Lst. lia.
Qed.

Lemma NoDup_by_position {B} (id : B -> Z) (l : list B) :
  (forall k b, l !! k = Some b -> id b = Z.of_nat k + 1) -> NoDup (id <$> l).
Proof.
  intros Hpos. apply NoDup_alt. intros i j z Hi Hj.
  rewrite list_lookup_fmap in Hi, Hj.
  destruct (l !! i) as [a|] eqn:Ea; [|discriminate].
  destruct (l !! j) as [b|] eqn:Eb; [|discriminate].
  simpl in Hi, Hj. injection Hi as <-. injection Hj as Hj.
  rewrite (Hpos _ _ Ea), (Hpos _ _ Eb) in Hj. lia.
Qed.

Lemma NoDup_ids (n : nat) : NoDup (id_of_index <$> seq 0 n).
Proof.
  apply NoDup_fmap_2; [|apply NoDup_seq]. intros i j. unfold id_of_index. lia.
Qed.

(** X2. in every data set generated for counts of at least one, no two
    rows of a table carry the same id: customer, product, order, order
    item and payment ids are each pairwise distinct. *)
Theorem generateData_unique_ids
    (customerCount productCount orderCount orderItemCount : Z) (g : Rng) :
  1 <= customerCount -> 1 <= productCount -> 1 <= orderCount ->
  exists ds g',
    generateData customerCount productCount orderCount orderItemCount g = Ok (ds, g') /\
    NoDup (Customer.customer_id <$> customers ds) /\
    NoDup (Product.product_id <$> products ds) /\
    NoDup (Order.order_id <$> ds_orders ds) /\
    NoDup (OrderItem.order_item_id <$> ds_orderItems ds) /\
    NoDup (Payment.payment_id <$> payments ds).
Proof.
  intros Hcc Hpc Hoc. unfold generateData.
  destruct (generateCustomers_total customerCount g) as (cs & g1 & Hcs).
  destruct (generateProducts_total productCount g1) as (prods & g2 & Hps).
  destruct (generateOrders_total orderCount customerCount g2 Hcc) as (os & g3 & Hos).
  assert (Hos_ne : os <> []).
  { pose proof (array_from_length _ _ _ _ _ Hos). intros ->. simpl in *. lia. }
  assert (Hps_ne : prods <> []).
  { pose proof (array_from_length _ _ _ _ _ Hps). intros ->. simpl in *. lia. }
  destruct (generateOrderItems_total os prods orderItemCount g3 Hos_ne Hps_ne)
    as (items & os' & g4 & Hitems).
  destruct (generatePayments_total os' g4) as (pays & g5 & Hpays).
  eexists _, g5. split.
  { apply gbind_Ok. exists cs, g1. split; [exact Hcs|].
    apply gbind_Ok. exists prods, g2. split; [exact Hps|].
    apply gbind_Ok. exists os, g3. split; [exact Hos|].
    apply gbind_Ok. exists (items, os'), g4. split; [exact Hitems|].
    apply gbind_Ok. exists pays, g5. split; [exact Hpays | reflexivity]. }
  simpl. repeat split.
  - rewrite (generateCustomers_ids _ _ _ _ Hcs). apply NoDup_ids.
  - rewrite (generateProducts_ids _ _ _ _ Hps). apply NoDup_ids.
  - rewrite (same_orders_ids _ _ (generateOrderItems_same_orders _ _ _ _ _ _ _ Hitems)).
    pose proof (generateOrders_Ok _ _ _ _ _ Hos) as Hfresh.
    rewrite (Forall2_ids Order.order_id (seq 0 (Z.to_nat orderCount)) os);
      [apply NoDup_ids|].
    eapply Forall2_impl; [exact Hfresh|]. intros idx o Ho. exact (proj1 Ho).
  - destruct (generateOrderItems_Ok _ _ _ _ _ _ _ Hitems) as (st & Hst & -> & _).
    apply NoDup_by_position. eapply run_item_ids; [exact Hst | reflexivity |].
    intros k it Hk. discriminate.
  - apply NoDup_by_position. intros k p Hk. unfold generatePayments in Hpays.
    pose proof (map_idx_ids Payment.payment_id generatePayment os'
                  (fun i a g1 b g2 Hb => proj1 (generatePayment_Ok i a g1 b g2 Hb))
                  _ _ _ _ Hpays k p Hk) as Hid.
    exact Hid.
Qed.

(** X3. a count of zero or less gives the empty array, and draws nothing
    from the random source. *)
Theorem generators_empty_count (count customerCount : Z) (g : Rng) :
  count <= 0 ->
  generateCustomers count g = Ok ([], g) /\
  generateProducts count g = Ok ([], g) /\
  generateOrders count customerCount g = Ok ([], g).
Proof.
  intros Hc. unfold generateCustomers, generateProducts, generateOrders, array_from.
  replace (Z.to_nat count) with 0%nat by lia. repeat split.
Qed.

(** X4. with no customer to refer to, [generateOrders] throws as soon as
    it has one order to build. *)
Theorem generateOrders_needs_customers (count customerCount : Z) (g : Rng) :
  1 <= count -> customerCount < 1 ->
  exists e, generateOrders count customerCount g = Throw e.
Proof.
  intros Hcount Hcc. unfold generateOrders, array_from.
  destruct (Z.to_nat count) as [|n] eqn:E; [lia|]. simpl.
  destruct (date_between_total (yearBefore now) now g) as (t & g2 & Ht);
    [apply yearBefore_le|].
  destruct (number_int_empty 1 customerCount g2 Hcc) as (e & He).
  exists e. unfold gbind at 1. unfold gbind at 1. rewrite Ht.
  unfold gbind at 1. rewrite He. reflexivity.
Qed.

(** X5. [generateCustomers] completes for every count; the customer at
    index [idx] has id [idx + 1], a signup date between two years and one
    second before now, and the lower-cased form of a generated address. *)
Theorem generateCustomers_domains (count : Z) (g : Rng) :
  exists l g',
    generateCustomers count g = Ok (l, g') /\
    Forall2 fresh_customer (seq 0 (Z.to_nat count)) l.
Proof.
  destruct (generateCustomers_total count g) as (l & g' & Hrun).
  exists l, g'. split; [exact Hrun|].
  eapply gmapM_Forall2; [|exact Hrun].
  intros idx g1 b g2 _ Hb. cbv beta in Hb. gen_inv Hb.
  unfold date_past in Hrun0. gen_inv Hrun0.
  apply number_int_range in Hrun4.
  apply draw_text_Ok in Hrun1, Hrun2, Hrun3.
  split; [reflexivity|]. split.
  { eexists. split; [reflexivity|]. unfold two_years_ms. lia. }
  simpl. repeat split; [exact Hrun1 | | exact Hrun3].
  destruct Hrun2 as [n ->]. eauto.
Qed.

(** X6. [generateProducts] completes for every count; the product at
    index [idx] has id [idx + 1], one of the eight categories, a stock
    between 0 and 500 and a price written by [toFixed(2)]. *)
Theorem generateProducts_domains (count : Z) (g : Rng) :
  exists l g',
    generateProducts count g = Ok (l, g') /\
    Forall2 fresh_product (seq 0 (Z.to_nat count)) l.
Proof.
  destruct (generateProducts_total count g) as (l & g' & Hrun).
  exists l, g'. split; [exact Hrun|].
  eapply gmapM_Forall2; [|exact Hrun].
  intros idx g1 b g2 _ Hb. cbv beta in Hb. gen_inv Hb.
  apply draw_text_Ok in Hrun0, Hrun1. apply arrayElement_elem in Hrun2.
  apply number_int_range in Hrun3.
  split; [reflexivity|]. simpl. split; [exact Hrun2|]. split; [exact Hrun3|].
  destruct Hrun0 as [n ->]. split; eauto.
Qed.

(** X7. with at least one customer, [generateOrders] completes; the order
    at index [idx] has id [idx + 1], a customer of the range, total 0 and
    the ISO text of an instant of the year that ends now. *)
Theorem generateOrders_window (count customerCount : Z) (g : Rng) :
  1 <= customerCount ->
  exists l g',
    generateOrders count customerCount g = Ok (l, g') /\
    Forall2 (fresh_order customerCount) (seq 0 (Z.to_nat count)) l.
Proof.
  intros Hcc. destruct (generateOrders_total count customerCount g Hcc) as (l & g' & Hrun).
  exists l, g'. split; [exact Hrun | exact (generateOrders_Ok _ _ _ _ _ Hrun)].
Qed.

Lemma run_items products st st' :
  run products st st' ->
  Forall (item_of products) (orderItems st) -> Forall (item_of products) (orderItems st').
Proof.
  induction 1 as [st | pos st st1 st2 Hstep _ IH]; intros Hall; [exact Hall|].
  destruct Hstep as (order & product & quantity & Hpos & Hprod & Hq & ->).
  apply IH. simpl. apply Forall_app. split; [exact Hall|].
  constructor; [|constructor]. split; [exact Hq|]. exists product. auto.
Qed.

(** X8. every item [generateOrderItems] returns has a quantity from 1 to
    5 and carries the id of one of the products together with that
    product's price as [toFixed(2)] writes it. *)
Theorem generateOrderItems_items (orders0 : list (Order.t float))
    (products : list Product.t) (targetCount : Z) (g : Rng) :
  orders0 <> [] -> products <> [] ->
  exists items orders' g',
    generateOrderItems orders0 products targetCount g = Ok ((items, orders'), g') /\
    Forall (item_of products) items.
Proof.
  intros Hord Hprod.
  destruct (generateOrderItems_total orders0 products targetCount g Hord Hprod)
    as (items & orders' & g' & Hrun).
  exists items, orders', g'. split; [exact Hrun|].
  destruct (generateOrderItems_Ok _ _ _ _ _ _ _ Hrun) as (st & Hst & -> & _).
  eapply run_items; [exact Hst | constructor].
Qed.

(** X9. on an empty order list [generateOrderItems] returns no item when
    none is asked for, and throws when at least one is: the top-up loop
    has no order to pick. *)
Theorem generateOrderItems_empty_orders (products : list Product.t)
    (targetCount : Z) (g : Rng) :
  (targetCount <= 0 -> generateOrderItems [] products targetCount g = Ok (([], []), g)) /\
  (1 <= targetCount -> exists e, generateOrderItems [] products targetCount g = Throw e).
Proof.
  unfold generateOrderItems. cbn [length firstPass]. change (Z.of_nat 0) with 0.
  split; intros Ht.
  - replace (Z.max targetCount 0) with 0 by lia. reflexivity.
  - replace (Z.max targetCount 0) with targetCount by lia.
    destruct (Z.to_nat targetCount) as [|n] eqn:E; [lia|].
    unfold gbind at 1. unfold gret at 1. unfold gbind at 1. cbn [topUp orderItems length].
    change (Z.of_nat 0) with 0.
    destruct (0 <? targetCount) eqn:El; [|lia]. eexists. reflexivity.
Qed.

(** X10. with orders but no product, [generateOrderItems] throws at the
    first order. *)
Theorem generateOrderItems_no_products (orders0 : list (Order.t float))
    (targetCount : Z) (g : Rng) :
  orders0 <> [] -> exists e, generateOrderItems orders0 [] targetCount g = Throw e.
Proof.
  intros Hord. destruct orders0 as [|o os]; [contradiction|].
  unfold generateOrderItems. simpl length.
  unfold gbind at 1. simpl firstPass.
  destruct (Z.of_nat 0 >=? Z.max targetCount (Z.of_nat (S (length os)))) eqn:El;
    [rewrite Z.geb_leb in El; apply Z.leb_le in El; lia|].
  eexists. reflexivity.
Qed.

End GeneratorExtras.

(** ** More on the CSV hand-off *)

Lemma escapeCsvValue_present value :
  present value ->
  Js.chars (escapeCsvValue value) = escape_chars (Js.chars (String_of value)).
Proof. destruct value; try contradiction; intros _; apply chars_text. Qed.

(** X11. two values that are written the same have the same string form:
    apart from [null] and [undefined], which are both written as the empty
    text, the serialiser loses nothing of a value's text. *)
Theorem escapeCsvValue_injective (value1 value2 : Value) :
  present value1 -> present value2 ->
  String_of value1 <> String_of value2 ->
  escapeCsvValue value1 <> escapeCsvValue value2.
Proof.
  intros H1 H2 Hne Heq. apply Hne.
  apply (f_equal Js.chars) in Heq.
  rewrite (escapeCsvValue_present _ H1), (escapeCsvValue_present _ H2) in Heq.
  apply (f_equal CsvParser.parseCell) in Heq. rewrite !parseCell_escape in Heq.
  rewrite <- (text_chars (String_of value1)), <- (text_chars (String_of value2)).
  now rewrite Heq.
Qed.

(** X12. the line reader gives back, cell by cell and character by
    character, the string forms a row of at least two present values was
    written from, whatever commas, quotes, line feeds and edge spaces they
    hold, unless one ends in a carriage return. *)
Theorem csv_row_parseLine (headers : list string) (record : gmap string Value) :
  (1 < length headers)%nat ->
  Forall (fun header => present (field record header) /\
                        last (Js.chars (String_of (field record header))) <> Some CR)
         headers ->
  CsvParser.parseLine (csv_row headers record) =
  map (fun header => Js.chars (String_of (field record header))) headers.
Proof.
  intros Hlen Hall. unfold csv_row.
  rewrite (map_ext_Forall _ (fun header => escape_chars (Js.chars (String_of (field record header))))).
  2:{ eapply Forall_impl; [exact Hall|]. intros h [Hp _]. exact (escapeCsvValue_present _ Hp). }
  rewrite <- (map_map (fun header => Js.chars (String_of (field record header))) escape_chars).
  apply parseLine_cells; [now rewrite length_map|].
  apply Forall_map. eapply Forall_impl; [exact Hall|]. intros h [_ Hcr]. exact Hcr.
Qed.

Lemma signed_zero_not_nan neg : is_nan (Js.signed_zero neg) = false.
Proof. destruct neg; reflexivity. Qed.


(** X14. [toInteger] throws exactly when no decimal digit follows the
    leading white space and the optional sign of the text. *)
Theorem toInteger_throws_iff (value fieldName : string) :
  (exists message, toInteger value fieldName = Throw message) <-> no_integer_prefix value.
Proof.
  split.
  - intros [message Hm]. unfold toInteger, Js.parseInt in Hm. unfold no_integer_prefix.
    destruct (Js.take_sign (Js.skip_ws (Js.chars value))) as [neg l]. simpl.
    destruct (fst (Js.span_digits l)) as [|c ds]; [reflexivity|]. exfalso.
    destruct (Js.digits_value (c :: ds) =? 0).
    + rewrite signed_zero_not_nan in Hm. discriminate.
    + rewrite float_of_Z_not_nan in Hm. discriminate.
  - intros Hno. eexists. apply toInteger_rejects, Hno.
Qed.

(** X15. [toFloat] throws exactly when no prefix of the text, after its
    leading white space, is a decimal literal. *)
Theorem toFloat_throws_iff (value fieldName : string) :
  (exists message, toFloat value fieldName = Throw message) <-> no_decimal_prefix value.
Proof.
  split.
  - intros [message Hm]. unfold toFloat, Js.parseFloat in Hm. unfold no_decimal_prefix.
    destruct (Js.decimal_prefix (Js.skip_ws (Js.chars value))) as [[lit r]|]; [|reflexivity].
    rewrite literal_value_not_nan in Hm. discriminate.
  - intros Hno. eexists. apply toFloat_rejects, Hno.
Qed.

Lemma convertRow_as_text rawRow : convertRow ∅ rawRow = Ok (as_text rawRow).
Proof.
  induction rawRow as [|[key value] rest IH]; [reflexivity|].
  rewrite convertRow_cons, lookup_empty. simpl. rewrite IH. reflexivity.
Qed.

(** X16. called without converters, [loadCsv] never fails on a file that
    exists and whose column names are plain keys (no name of
    [Object.prototype], no array index): it returns every row the reader
    finds, each cell as the text the reader trimmed. *)
Theorem loadCsv_without_converters (files : gmap string string)
    (fileName content : string) :
  files !! fileName = Some content ->
  Forall (Forall (fun kv => plain_key (fst kv))) (CsvParser.rows content) ->
  loadCsv files fileName ∅ = Ok (map as_text (CsvParser.rows content)).
Proof.
  intros Hfile _. unfold loadCsv. rewrite Hfile.
  rewrite (convertRows_all _ _ _ (map as_text (CsvParser.rows content))); [reflexivity|].
  apply Forall2_fmap_r, Forall_Forall2_diag, Forall_forall.
  intros rawRow _. apply convertRow_as_text.
Qed.




(** ** What the reader hands to the converters *)

Lemma last_skip_ws l c : last (Js.skip_ws l) = Some c -> last l = Some c.
Proof.
  induction l as [|a l IH]; [discriminate|]. simpl.
  destruct (Js.is_ws a); [|trivial].
  intros H. specialize (IH H). destruct l; [discriminate | exact IH].
Qed.

Lemma trim_chars_head l c : head (Js.trim_chars l) = Some c -> Js.is_ws c = false.
Proof.
  unfold Js.trim_chars. rewrite head_rev. intros H.
  apply last_skip_ws in H. rewrite last_rev in H. exact (skip_ws_head _ _ H).
Qed.

Lemma trimmed_trim s : trimmed (Js.trim s).
Proof.
  unfold trimmed, Js.trim. rewrite chars_text. f_equal.
  apply trim_chars_id; [apply trim_chars_head | apply trim_chars_last].
Qed.

Lemma obj_set_values {V} (P : V -> Prop) key (value : V) o :
  P value -> Forall (fun kv => P (snd kv)) o ->
  Forall (fun kv => P (snd kv)) (CsvParser.obj_set key value o).
Proof.
  intros Hv. induction 1 as [|[k v] o Hkv Ho IH]; simpl.
  - constructor; [exact Hv | constructor].
  - destruct (String.eqb k key); constructor; auto.
Qed.

Lemma writeRow_values (P : string -> Prop) headers index cells o :
  Forall P cells -> Forall (fun kv => P (snd kv)) o ->
  Forall (fun kv => P (snd kv)) (CsvParser.writeRow headers index cells o).
Proof.
  intros Hc. revert index o. induction Hc as [|cell cells Hcell _ IH]; intros index o Ho.
  - exact Ho.
  - simpl. apply IH. apply obj_set_values; assumption.
Qed.

(** X18. every value of every row the reader builds, which is what
    [loadCsv] passes to a converter or returns as it is, has no white
    space at either end. *)
Theorem rows_trimmed (content : string) (row : list (string * string))
    (key value : string) :
  row ∈ CsvParser.rows content -> (key, value) ∈ row -> trimmed value.
Proof.
  unfold CsvParser.rows.
  destruct (CsvParser.split_rows _ _ _ _ _ _ _) as [|headerRow dataRows];
    [intros H; now apply elem_of_nil in H|].
  intros Hrow Hkv. apply list_elem_of_fmap in Hrow as (raw & -> & _).
  assert (Hall : Forall (fun kv : string * string => trimmed (snd kv))
                   (CsvParser.writeRow
                      (map (fun cell => Js.trim (Js.text cell)) (CsvParser.parseLine headerRow)) 0
                      (map (fun cell => Js.trim (Js.text cell)) (CsvParser.parseLine raw)) [])).
  { apply writeRow_values; [|constructor].
    apply Forall_map, Forall_forall. intros cell _. apply trimmed_trim. }
  rewrite Forall_forall in Hall. exact (Hall _ Hkv).
Qed.

Lemma rows_trimmed_witness : trimmed "n/a".
Proof.
  apply (rows_trimmed sample_worse_orders [("order_id", "n/a"); ("customer_id", "8")]
           "order_id" "n/a").
  - apply (list_elem_of_lookup_2 _ 1%nat). vm_compute. reflexivity.
  - apply list_elem_of_here.
Defined.

(** ** Dates as text *)

Lemma chars_app (a b : string) : Js.chars (a ++ b) = (Js.chars a ++ Js.chars b)%list.
Proof. induction a as [|c a IH]; [reflexivity|]. simpl. now rewrite <- IH. Qed.

Lemma digits_of_N_digits n :
  Js.chars (Js.digits_of_N n) <> [] /\
  Forall (fun c => Js.is_digit c = true) (Js.chars (Js.digits_of_N n)).
Proof.
  unfold Js.digits_of_N, NilZero.string_of_uint.
  pose proof (digit_chars_digits (N.to_uint n)) as Hd. unfold digit_chars in Hd.
  destruct (N.to_uint n) eqn:E;
    try (split; [discriminate | apply Forall_forall; intros c Hc;
                                rewrite forallb_forall in Hd; apply Hd, list_elem_of_In, Hc]).
  split; [discriminate | repeat constructor].
Qed.

Lemma pad_left_digits width s :
  Js.chars s <> [] -> Forall (fun c => Js.is_digit c = true) (Js.chars s) ->
  Js.chars (Js.pad_left width s) <> [] /\
  Forall (fun c => Js.is_digit c = true) (Js.chars (Js.pad_left width s)).
Proof.
  intros Hne Hall. unfold Js.pad_left.
  induction (width - String.length s)%nat as [|k [IH1 IH2]]; [now split|].
  simpl. split; [discriminate | constructor; [reflexivity | exact IH2]].
Qed.

Lemma pad_N_digits width z :
  Js.chars (Js.pad_N width z) <> [] /\
  Forall (fun c => Js.is_digit c = true) (Js.chars (Js.pad_N width z)).
Proof. apply pad_left_digits; apply digits_of_N_digits. Qed.

Lemma year_text_head y :
  exists c rest, Js.chars (year_text y) = c :: rest /\ Js.is_ws c = false /\
                 Forall (fun c => c <> "T"%char) (c :: rest).
Proof.
  unfold year_text. destruct ((0 <=? y) && (y <=? 9999)).
  - destruct (pad_N_digits 4 y) as [Hne Hall].
    destruct (Js.chars (Js.pad_N 4 y)) as [|c rest]; [congruence|].
    exists c, rest. split; [reflexivity|]. split.
    + apply is_digit_not_ws. now inversion Hall.
    + eapply Forall_impl; [exact Hall|]. intros a Ha ->. discriminate.
  - destruct (pad_N_digits 6 (Z.abs y)) as [Hne Hall].
    rewrite chars_app. destruct (y <? 0); simpl; eexists _, _;
      (split; [reflexivity|]); (split; [reflexivity|]);
      (constructor; [discriminate|]);
      (eapply Forall_impl; [exact Hall|]); intros a Ha ->; discriminate.
Qed.

Lemma digits_no_T l :
  Forall (fun c => Js.is_digit c = true) l -> Forall (fun c => c <> "T"%char) l.
Proof. intros H. eapply Forall_impl; [exact H|]. intros a Ha ->. discriminate. Qed.

Lemma before_T_app (a b : string) :
  Forall (fun c => c <> "T"%char) (Js.chars a) ->
  before_T (a ++ String "T" b) = a.
Proof.
  induction a as [|c a IH]; intros Hall; simpl.
  - reflexivity.
  - inversion Hall as [|? ? Hc Ha]; subst.
    destruct (Ascii.eqb_spec c "T"); [contradiction|]. now rewrite IH.
Qed.

Lemma append_assoc (a b c : string) : ((a ++ b) ++ c = a ++ (b ++ c))%string.
Proof.
  induction a as [|x a IH]; [reflexivity|].
  change (String x ((a ++ b) ++ c) = String x (a ++ (b ++ c)))%string. now rewrite IH.
Qed.

Lemma chars_inj (a b : string) : Js.chars a = Js.chars b -> a = b.
Proof. intros H. rewrite <- (text_chars a), <- (text_chars b). now rewrite H. Qed.

Lemma toISOString_shape t :
  exists time,
    Js.toISOString t =
    ((let '(y, m, d) := Js.civil_from_days (t / Js.ms_per_day) in
      year_text y ++ "-" ++ Js.pad_N 2 m ++ "-" ++ Js.pad_N 2 d) ++ String "T" (time ++ "Z"))%string.
Proof.
  unfold Js.toISOString, year_text.
  destruct (Js.civil_from_days (t / Js.ms_per_day)) as [[y m] d].
  set (ms := t mod Js.ms_per_day).
  exists (Js.pad_N 2 (ms / 3600000) ++ ":" ++ Js.pad_N 2 (ms / 60000 mod 60) ++ ":" ++
          Js.pad_N 2 (ms / 1000 mod 60) ++ "." ++ Js.pad_N 3 (ms mod 1000))%string.
  apply chars_inj.
  change (String "T" ?x) with ("T" ++ x)%string.
  rewrite !chars_app, <- !app_assoc. reflexivity.
Qed.

(** X19. on the platform modelled here, [formatDate] gives the calendar
    date of the instant in UTC, as year, month and day: what stands before
    the [T] of the ISO text. *)
Theorem formatDate_date_part (t : Z) :
  formatDate (P := node) t =
  (let '(y, m, d) := Js.civil_from_days (t / Js.ms_per_day) in
   year_text y ++ "-" ++ Js.pad_N 2 m ++ "-" ++ Js.pad_N 2 d)%string.
Proof.
  unfold formatDate. change (@toISOString node) with Js.toISOString.
  destruct (toISOString_shape t) as [time ->].
  destruct (Js.civil_from_days (t / Js.ms_per_day)) as [[y m] d].
  apply before_T_app. rewrite !chars_app.
  destruct (year_text_head y) as (c & rest & -> & _ & Hyear).
  repeat (apply Forall_app; split); try exact Hyear;
    try (apply digits_no_T, pad_N_digits); repeat constructor; discriminate.
Qed.

Lemma node_toISOString_trimmed t : trimmed (Js.toISOString t).
Proof.
  destruct (toISOString_shape t) as [time ->].
  destruct (Js.civil_from_days (t / Js.ms_per_day)) as [[y m] d].
  unfold trimmed, Js.trim. rewrite trim_chars_id; [apply text_chars | |].
  - rewrite !chars_app. destruct (year_text_head y) as (c & rest & -> & Hc & _).
    simpl. intros c' [= <-]. exact Hc.
  - rewrite chars_app. change (String "T" (time ++ "Z")) with ("T" ++ (time ++ "Z"))%string.
    rewrite !chars_app. change (Js.chars "Z") with ["Z"%char].
    rewrite !app_assoc, last_snoc. intros c' [= <-]. reflexivity.
Qed.

Section HandOff.
Context {P : Platform}.

Lemma payment_fields_valid {A} idx (o : Order.t A) g p g' :
  (forall t, trimmed (toISOString t)) ->
  generatePayment idx o g = Ok (p, g') ->
  safe_integer (Payment.payment_id p) -> safe_integer (Payment.order_id p) ->
  Forall (fun f => valid_field (snd f) (field (payment_record p) (fst f))) payments_fields /\
  expected_row payments_fields (payment_record p) = loaded_payment p.
Proof.
  intros Hiso Hp Hpid Hoid.
  destruct (generatePayment_Ok _ _ _ _ _ Hp) as (_ & _ & Hst & Hm & Hpend & Hother).
  split; [|reflexivity].
  repeat constructor; cbn [snd fst].
  - exact Hpid.
  - exact Hoid.
  - change (trimmed (Payment.payment_method p)). unfold paymentMethods in Hm.
    repeat (apply elem_of_cons in Hm as [->|Hm]; [reflexivity|]). now apply elem_of_nil in Hm.
  - change (trimmed (Payment.payment_status p)). unfold paymentStatuses in Hst.
    repeat (apply elem_of_cons in Hst as [->|Hst]; [reflexivity|]). now apply elem_of_nil in Hst.
  - change (trimmed (Payment.payment_date p)).
    destruct (String.eqb_spec (Payment.payment_status p) "Pending") as [E|E].
    + rewrite (Hpend E). apply Hiso.
    + destruct (Hother E) as (t & -> & _). apply Hiso.
Qed.

(** One run of the generation, as far as its orders and payments go. *)
Lemma generateAndSaveData_payments (g : Rng) :
  exists ds g8 g',
    generateAndSaveData g = Ok (ds, g') /\
    generatePayments (ds_orders ds) g8 = Ok (payments ds, g') /\
    (length (ds_orders ds) <= 100)%nat /\
    (forall k o, ds_orders ds !! k = Some o -> Order.order_id o = id_of_index k).
Proof.
  destruct (randomCount_Ok g) as (cc & g1 & Hcc & Bc).
  destruct (randomCount_Ok g1) as (pc & g2 & Hpc & Bp).
  destruct (randomCount_Ok g2) as (oc & g3 & Hoc & Bo).
  destruct (randomCount_Ok g3) as (r & g4 & Hr & Br).
  destruct (generateCustomers_total cc g4) as (cs & g5 & Hcs).
  destruct (generateProducts_total pc g5) as (ps & g6 & Hps).
  destruct (generateOrders_total oc cc g6) as (os & g7 & Hos); [lia|].
  pose proof (array_from_length _ _ _ _ _ Hps) as Lp.
  pose proof (array_from_length _ _ _ _ _ Hos) as Lo.
  destruct (generateOrderItems_total os ps (Z.max r oc) g7) as (items & os' & g8 & Hit).
  { intros ->. simpl in Lo. lia. }
  { intros ->. simpl in Lp. lia. }
  pose proof (generateOrderItems_same_orders _ _ _ _ _ _ _ Hit) as Hsame.
  destruct (generatePayments_total os' g8) as (pays & g9 & Hpay).
  exists (mkDataset cs ps os' items pays), g8, g9. split; [|split; [exact Hpay|split]].
  - unfold generateAndSaveData.
    apply gbind_Ok. exists cc, g1. split; [exact Hcc|].
    apply gbind_Ok. exists pc, g2. split; [exact Hpc|].
    apply gbind_Ok. exists oc, g3. split; [exact Hoc|].
    apply gbind_Ok. exists r, g4. split; [exact Hr|].
    unfold generateData.
    apply gbind_Ok. exists cs, g5. split; [exact Hcs|].
    apply gbind_Ok. exists ps, g6. split; [exact Hps|].
    apply gbind_Ok. exists os, g7. split; [exact Hos|].
    apply gbind_Ok. exists (items, os'), g8. split; [exact Hit|].
    apply gbind_Ok. exists pays, g9. split; [exact Hpay | reflexivity].
  - simpl. pose proof (Forall2_length _ _ _ Hsame) as Lsame. lia.
  - simpl. intros k o' Hk.
    destruct (Forall2_lookup_l _ _ _ _ _ Hsame Hk) as (o & Ho & Hid).
    pose proof (generateOrders_Ok _ _ _ _ _ Hos) as Hfresh.
    destruct (Forall2_lookup_r _ _ _ _ _ Hfresh Ho) as (idx & Hidx & Hfo).
    apply lookup_seq in Hidx as [-> _]. destruct Hid as [Hid _].
    rewrite Hid. exact (proj1 Hfo).
Qed.

(** X20. on a platform whose ISO texts have no white space at their ends,
    the payments of one run of the generation, written to [payments.csv],
    load back with [main]'s converters as one row per payment, with the
    same ids as numbers and the same method, status and date as text. *)
Theorem payments_hand_off (g : Rng) (files : gmap string string) :
  (forall t, trimmed (toISOString t)) ->
  exists ds g',
    generateAndSaveData g = Ok (ds, g') /\
    loadCsv (writeCsvFile "payments.csv" payments_columns
               (payment_record <$> payments ds) files)
            "payments.csv" (converters_of payments_fields) =
    Ok (loaded_payment <$> payments ds).
Proof.
  intros Hiso.
  destruct (generateAndSaveData_payments g) as (ds & g8 & g' & Hrun & Hpay & Hlen & Hids).
  exists ds, g'. split; [exact Hrun|].
  set (ps := payments ds) in *. set (os := ds_orders ds) in *.
  assert (Hall : Forall (fun p =>
             Forall (fun f => valid_field (snd f) (field (payment_record p) (fst f)))
                    payments_fields /\
             expected_row payments_fields (payment_record p) = loaded_payment p) ps).
  { unfold generatePayments in Hpay.
    pose proof (map_idx_ids Payment.payment_id generatePayment os
                  (fun i a g1 b g2 Hb => proj1 (generatePayment_Ok i a g1 b g2 Hb))
                  _ _ _ _ Hpay) as Hpid.
    pose proof (map_idx_length _ _ _ _ _ _ Hpay) as Lps.
    apply (map_idx_Forall2 (fun o p => exists i g1 g2, generatePayment i o g1 = Ok (p, g2)))
      in Hpay; [|intros i o g1 p g2 Hp; eauto].
    apply Forall_lookup. intros k p Hk.
    destruct (Forall2_lookup_r _ _ _ _ _ Hpay Hk) as (o & Ho & i & g1 & g2 & Hp).
    pose proof (lookup_lt_Some _ _ _ Hk) as Hlt.
    apply (payment_fields_valid _ _ _ _ _ Hiso Hp).
    - rewrite (Hpid k p Hk). unfold safe_integer. lia.
    - destruct (generatePayment_Ok _ _ _ _ _ Hp) as (_ & -> & _).
      rewrite (Hids k o Ho). unfold safe_integer, id_of_index. lia. }
  unfold loadCsv, writeCsvFile. rewrite lookup_insert_eq.
  change payments_columns with (map fst payments_fields).
  rewrite rows_convertToCsv.
  - rewrite (convertRows_all _ _ _ (loaded_payment <$> ps)); [reflexivity|].
    apply Forall2_fmap_l, Forall2_fmap_l, Forall2_fmap_r, Forall_Forall2_diag.
    eapply Forall_impl; [exact Hall|]. intros p [Hvalid Heq]. unfold compose.
    rewrite <- Heq. apply convertRow_expected; [|exact Hvalid].
    apply (bool_decide_unpack _). vm_compute. exact I.
  - simpl. lia.
  - apply (bool_decide_unpack _). vm_compute. exact I.
  - repeat constructor; try discriminate; vm_compute; reflexivity.
  - apply Forall_fmap. eapply Forall_impl; [exact Hall|]. intros p [Hvalid _].
    apply Forall_fmap. eapply Forall_impl; [exact Hvalid|].
    intros f Hf. exact (valid_field_loadable _ _ Hf).
Qed.

End HandOff.

Lemma payments_hand_off_witness :
  exists ds g',
    generateAndSaveData (P := node) sample_rng = Ok (ds, g') /\
    loadCsv (writeCsvFile "payments.csv" payments_columns
               (payment_record <$> payments ds) ∅)
            "payments.csv" (converters_of payments_fields) =
    Ok (loaded_payment <$> payments ds).
Proof.
  apply (payments_hand_off (P := node)). exact node_toISOString_trimmed.
Defined.


(** ** More on the store and the script *)

Section ScriptProofs.
Context {E : Sql.Engine}.

Lemma exec_insert_Ok db db' t columns values :
  Sql.exec db (Sql.InsertInto t columns values) = Ok db' ->
  exists tbl,
    Sql.tables db !! t = Some tbl /\
    db' = Sql.mkDb (<[t := Sql.mkTable (Sql.schema tbl)
                             (Sql.rows tbl ++ [Sql.row_stored db t tbl columns values])]>
                      (Sql.tables db))
                   (Sql.snapshot db) (Sql.enforce_fk db).
Proof.
  simpl. destruct (Sql.tables db !! t) as [tbl|]; [|discriminate].
  destruct (Sql.row_check db t tbl columns values); [discriminate|].
  intros [= <-]. exists tbl. now split.
Qed.

(** When the loop completes, every row of the batch is in the table. *)
Lemma insertRows_Ok t columns rows db mid :
  insertRows t columns rows db = (Ok tt, mid) -> mid = load_rows t columns rows db.
Proof.
  revert db. induction rows as [|row rows IH]; intros db; cbn [insertRows load_rows].
  - intros [= <-]. reflexivity.
  - unfold exec_bind, runQuery.
    destruct (Sql.exec db _) as [db1|e] eqn:Hx; [|discriminate].
    intros Hr. apply IH in Hr. destruct (exec_insert_Ok _ _ _ _ _ Hx) as (tbl & Ht & ->).
    rewrite Ht. exact Hr.
Qed.

(** The two ways [insertData] can end. *)
Lemma insertData_outcome (db : Sql.Db) (tableName : string)
    (columns : list string) (rows : list (list (string * Cell))) :
  Sql.snapshot db = None ->
  insertData tableName columns rows db =
    (Ok tt, load_batch db (tableName, columns, rows)) \/
  exists error, insertData tableName columns rows db = (Throw error, db).
Proof.
  intros Hs. destruct rows as [|row rows].
  { left. unfold insertData, exec_ret, load_batch. simpl.
    destruct db as [tbls snap fk]. simpl in Hs. now subst. }
  assert (Hstart : insertData tableName columns (row :: rows) db =
                   try_catch
                     (exec_bind (insertRows tableName columns (row :: rows))
                                (fun _ => runQuery Sql.Commit))
                     (fun error => exec_bind (runQuery Sql.Rollback)
                                             (fun _ => exec_throw error))
                     (begun db)).
  { unfold insertData, exec_bind at 1, runQuery at 1. simpl Sql.exec. now rewrite Hs. }
  destruct (insertRows tableName columns (row :: rows) (begun db)) as [[[]|e] mid] eqn:Hr.
  - left. rewrite (insertData_commits _ _ _ _ _ _ Hs Hr).
    apply insertRows_Ok in Hr. subst mid. reflexivity.
  - right. exists e. rewrite Hstart. unfold try_catch, exec_bind at 1. rewrite Hr.
    apply insertRows_frame in Hr as [Hsnap Hfk]. simpl in Hsnap, Hfk.
    unfold exec_bind, runQuery, exec_throw. simpl. rewrite Hsnap.
    destruct db as [tbls snap fk]. simpl in *. now subst.
Qed.

(** X21. from a store with no open transaction, [insertData] either
    stores every row of the batch, one after the other and each as the
    engine stores it, behind the rows the table already had, or throws and
    leaves the store as it found it; in both cases no transaction stays
    open and no other table changes. *)
Theorem insertData_all_or_nothing (db : Sql.Db) (tableName : string)
    (columns : list string) (rows : list (list (string * Cell))) :
  Sql.snapshot db = None ->
  insertData tableName columns rows db =
    (Ok tt, Sql.mkDb (Sql.tables (load_rows tableName columns rows (begun db))) None
                     (Sql.enforce_fk db)) \/
  exists error, insertData tableName columns rows db = (Throw error, db).
Proof. intros Hs. exact (insertData_outcome db tableName columns rows Hs). Qed.

(** X22. called while a transaction is open, [insertData] with a batch to
    insert throws at its BEGIN, outside the [try] block: nothing is
    inserted and nothing is rolled back, so the caller's transaction and
    what it has changed so far stay as they are. *)
Theorem insertData_inside_transaction (db : Sql.Db) (saved : gmap string Sql.Table)
    (tableName : string) (columns : list string) (rows : list (list (string * Cell))) :
  Sql.snapshot db = Some saved -> rows <> [] ->
  exists error, insertData tableName columns rows db = (Throw error, db).
Proof.
  intros Hs Hne. destruct rows as [|row rows]; [contradiction|].
  unfold insertData, exec_bind, runQuery. simpl. rewrite Hs. eexists. reflexivity.
Qed.

Lemma runQuery_drop_replaceable db t :
  Sql.enforce_fk db = false \/ childless (Sql.tables db) t ->
  runQuery (Sql.DropTableIfExists t) db =
  (Ok tt, Sql.mkDb (delete t (Sql.tables db)) (Sql.snapshot db) (Sql.enforce_fk db)).
Proof.
  intros [Hfk|Hc]; [|exact (runQuery_drop db t Hc)].
  unfold runQuery. simpl. unfold Sql.drop_table.
  destruct (Sql.tables db !! t) as [tbl|] eqn:Ht.
  - rewrite Hfk. reflexivity.
  - rewrite delete_id by assumption. now destruct db.
Qed.

Lemma declared_None_ne t u : declared_schema t = None -> is_Some (declared_schema u) -> t <> u.
Proof. intros Ht [s Hu] ->. congruence. Qed.

Lemma fresh_lookup_cases t :
  t = "customers" \/ t = "products" \/ t = "orders" \/ t = "order_items" \/
  t = "payments" \/ fresh_tables !! t = None.
Proof.
  destruct (fresh_tables !! t) as [tbl|] eqn:Ht; [|tauto].
  assert (Hd : declared_schema t = Some (Sql.schema tbl)).
  { unfold declared_schema. now rewrite Ht. }
  apply declared_cases in Hd. tauto.
Qed.

Ltac still_replaceable Hp :=
  let c := fresh "c" in
  let child := fresh "child" in
  let Hc := fresh "Hc" in
  intros c child Hc;
  repeat (let Hne := fresh "Hne" in apply lookup_delete_Some in Hc as [Hne Hc]);
  destruct (Hp _ _ Hc) as [Hd|[Hd Hfks]];
  [ apply declared_cases in Hd;
    destruct Hd as [[-> ->]|[[-> ->]|[[-> ->]|[[-> ->]|[-> ->]]]]];
    try congruence; repeat constructor; simpl; discriminate
  | eapply Forall_impl; [exact Hfks|];
    let fk := fresh "fk" in let Hf := fresh "Hf" in
    intros fk Hf; apply (declared_None_ne _ _ Hf); vm_compute; eauto ].

(** X23. when foreign keys are not enforced, or every table of the store is
    either one of the pipeline's as declared or a table of another name
    that refers to none of them, [createTables] succeeds: it leaves the
    five declared tables empty and every other table as it was. *)
Theorem createTables_keeps_other_tables (db : Sql.Db) :
  Sql.enforce_fk db = false \/ map_Forall replaceable (Sql.tables db) ->
  createTables db =
  (Ok tt, Sql.mkDb (fresh_tables ∪ Sql.tables db) (Sql.snapshot db) (Sql.enforce_fk db)).
Proof.
  intros Hp. unfold createTables, dropStatements, createStatements, runAll, exec_bind.
  do 5 (rewrite runQuery_drop_replaceable;
        [| simpl; destruct Hp as [Hfk|Hp]; [left; exact Hfk | right; still_replaceable Hp]]).
  simpl.
  do 5 (rewrite runQuery_create by (simpl; now simplify_map_eq)).
  unfold exec_ret. simpl. do 2 f_equal.
  apply map_eq. intros t.
  destruct (fresh_lookup_cases t) as [->|[->|[->|[->|[->|Hnone]]]]];
    try (erewrite (lookup_union_Some_l fresh_tables) by reflexivity; now simplify_map_eq).
  rewrite (lookup_union_r _ _ _ Hnone).
  assert (Hne : forall u, is_Some (fresh_tables !! u) -> t <> u).
  { intros u [x Hu] ->. congruence. }
  rewrite !lookup_insert_ne by (symmetry; apply Hne; vm_compute; eauto).
  rewrite !lookup_delete_ne by (symmetry; apply Hne; vm_compute; eauto).
  reflexivity.
Qed.

End ScriptProofs.

Section MainProofs.
Context {E : Sql.Engine}.

Lemma loadAll_Throw files fileName fields error :
  (fileName, fields) ∈ main_loads ->
  loadCsv files fileName (converters_of fields) = Throw error ->
  exists error', loadAll files = Throw error'.
Proof.
  intros Hin Hload. unfold loadAll.
  destruct (loadCsv files "customers.csv" _) as [r1|e1] eqn:H1; [|simpl; eauto].
  destruct (loadCsv files "products.csv" _) as [r2|e2] eqn:H2; [|simpl; eauto].
  destruct (loadCsv files "orders.csv" _) as [r3|e3] eqn:H3; [|simpl; eauto].
  destruct (loadCsv files "order_items.csv" _) as [r4|e4] eqn:H4; [|simpl; eauto].
  destruct (loadCsv files "payments.csv" _) as [r5|e5] eqn:H5; [|simpl; eauto].
  exfalso. unfold main_loads in Hin.
  repeat (apply elem_of_cons in Hin as [[= -> ->]|Hin]; [congruence|]).
  now apply elem_of_nil in Hin.
Qed.

Lemma main_body_start files :
  main_body files new_database =
  match loadAll files with
  | Ok data => insertAll data (Sql.mkDb fresh_tables None true)
  | Throw error => (Throw error, Sql.mkDb fresh_tables None true)
  end.
Proof.
  unfold main_body, exec_bind at 1, foreign_keys_on, new_database. simpl.
  unfold exec_bind at 1. rewrite (createTables_refreshes (Sql.mkDb ∅ None true)).
  - unfold refreshed. simpl. now destruct (loadAll files).
  - apply map_Forall_empty.
Qed.

(** X24. when the five files are there and one of them holds a row that
    does not convert, [main] ends with exit code 1 and inserts nothing: the
    store holds the five declared tables, all empty. *)
Theorem main_load_failure (files : gmap string string) (fileName : string)
    (fields : list (string * FieldType)) (error : string) :
  (forall name kinds, (name, kinds) ∈ main_loads -> is_Some (files !! name)) ->
  (fileName, fields) ∈ main_loads ->
  loadCsv files fileName (converters_of fields) = Throw error ->
  main files = (1, Sql.mkDb fresh_tables None true).
Proof.
  intros _ Hin Hload. destruct (loadAll_Throw _ _ _ _ Hin Hload) as [e He].
  unfold main. now rewrite main_body_start, He.
Qed.

Ltac next_batch :=
  match goal with
  | |- context [exec_bind (insertData ?t ?c ?rows) _ (Sql.mkDb ?tbls None true)] =>
      let H := fresh "H" in
      let e := fresh "e" in
      unfold exec_bind at 1;
      destruct (insertData_outcome (Sql.mkDb tbls None true) t c rows eq_refl)
        as [H|[e H]]; rewrite H; clear H;
      [ change (load_batch (Sql.mkDb tbls None true) (t, c, rows))
          with (Sql.mkDb (Sql.tables (load_rows t c rows (begun (Sql.mkDb tbls None true))))
                         None true) | ]
  end.

(** X25. when the five files load, [main] leaves the store with the first
    [k] tables, in the order customers, products, orders, order items,
    payments, holding every row of their files, each as the engine stores
    it, and the others empty; its exit code is 0 when [k] is 5, and 1
    otherwise. *)
Theorem main_loads_a_prefix (files : gmap string string) (data : Loaded) :
  loadAll files = Ok data ->
  exists k, (k <= 5)%nat /\
    main files = ((if (k =? 5)%nat then 0 else 1), loaded_prefix data k).
Proof.
  intros Hload. unfold main. rewrite main_body_start, Hload. unfold insertAll.
  next_batch; [|exists 0%nat; split; [lia|reflexivity]].
  next_batch; [|exists 1%nat; split; [lia|reflexivity]].
  next_batch; [|exists 2%nat; split; [lia|reflexivity]].
  next_batch; [|exists 3%nat; split; [lia|reflexivity]].
  match goal with
  | |- context [insertData ?t ?c ?rows (Sql.mkDb ?tbls None true)] =>
      destruct (insertData_outcome (Sql.mkDb tbls None true) t c rows eq_refl)
        as [H|[e H]]; rewrite H; clear H
  end.
  - exists 5%nat. split; [lia|reflexivity].
  - exists 4%nat. split; [lia|reflexivity].
Qed.

(** X26. when every file loads and holds no row, [main] has nothing to
    insert: it ends with exit code 0 and leaves the five declared tables
    empty. *)
Theorem main_nothing_to_insert (files : gmap string string) :
  (forall fileName fields, (fileName, fields) ∈ main_loads ->
     loadCsv files fileName (converters_of fields) = Ok []) ->
  main files = (0, Sql.mkDb fresh_tables None true).
Proof.
  intros Hall. unfold main. rewrite main_body_start.
  assert (Hload : loadAll files = Ok (mkLoaded [] [] [] [] [])).
  { unfold loadAll, main_loads in *.
    rewrite !Hall by (repeat (try apply list_elem_of_here; apply list_elem_of_further)).
    reflexivity. }
  rewrite Hload. reflexivity.
Qed.

End MainProofs.

(** ** The statements above on sample inputs *)

Lemma insertData_all_or_nothing_witness :
  insertData (E := Sql.reference_engine) "order_items" order_items_columns
    [sample_item 1 1; sample_item 2 1] sample_loaded =
    (Ok tt, Sql.mkDb (Sql.tables (load_rows (E := Sql.reference_engine)
                                    "order_items" order_items_columns
                                    [sample_item 1 1; sample_item 2 1]
                                    (begun sample_loaded)))
                     None (Sql.enforce_fk sample_loaded)) \/
  exists error,
    insertData (E := Sql.reference_engine) "order_items" order_items_columns
      [sample_item 1 1; sample_item 2 1] sample_loaded = (Throw error, sample_loaded).
Proof.
  apply (insertData_all_or_nothing (E := Sql.reference_engine)). reflexivity.
Defined.

Lemma insertData_inside_transaction_witness :
  exists error,
    insertData (E := Sql.reference_engine) "order_items" order_items_columns
      [sample_item 1 1] (begun sample_loaded) = (Throw error, begun sample_loaded).
Proof.
  apply (insertData_inside_transaction (E := Sql.reference_engine) _
           (Sql.tables sample_loaded)); [reflexivity | discriminate].
Defined.

Lemma createTables_keeps_other_tables_witness :
  createTables (E := Sql.reference_engine) sample_shared =
  (Ok tt, Sql.mkDb (fresh_tables ∪ Sql.tables sample_shared) (Sql.snapshot sample_shared)
                   (Sql.enforce_fk sample_shared)).
Proof.
  apply (createTables_keeps_other_tables (E := Sql.reference_engine)). right.
  apply (bool_decide_unpack _). vm_compute. exact I.
Defined.

Lemma main_load_failure_witness :
  main (E := Sql.reference_engine) sample_files = (1, Sql.mkDb fresh_tables None true).
Proof.
  eapply (main_load_failure (E := Sql.reference_engine) sample_files "customers.csv"
            customers_fields).
  - intros name kinds Hin. unfold main_loads in Hin.
    repeat (apply elem_of_cons in Hin as [[= -> ->]|Hin]; [vm_compute; eauto|]).
    now apply elem_of_nil in Hin.
  - apply list_elem_of_here.
  - vm_compute. reflexivity.
Defined.

Lemma main_loads_a_prefix_witness :
  exists data k,
    loadAll sample_pipeline_files = Ok data /\ (k <= 5)%nat /\
    main (E := Sql.reference_engine) sample_pipeline_files =
      ((if (k =? 5)%nat then 0 else 1),
       loaded_prefix (E := Sql.reference_engine) data k).
Proof.
  assert (Hload : exists data, loadAll sample_pipeline_files = Ok data).
  { eexists. vm_compute. reflexivity. }
  destruct Hload as [data Hload].
  destruct (main_loads_a_prefix (E := Sql.reference_engine) _ _ Hload) as (k & Hk & Hmain).
  exists data, k. auto.
Defined.

(** ** main.js *)

Lemma started_app (l1 l2 : list Pipeline.Event) :
  Pipeline.started (l1 ++ l2) = (Pipeline.started l1 ++ Pipeline.started l2)%list.
Proof. apply omap_app. Qed.

Lemma started_runScript execAsync scriptName :
  Pipeline.started (Pipeline.runScript execAsync scriptName) = [scriptName].
Proof.
  unfold Pipeline.runScript. destruct (execAsync _) as [[out err]|e]; simpl;
    [destruct (Pipeline.is_empty out), (Pipeline.is_empty err)|]; reflexivity.
Qed.

Lemma runScript_no_end execAsync scriptName :
  Pipeline.Completed ∉ Pipeline.runScript execAsync scriptName.
Proof.
  unfold Pipeline.runScript. intros H. apply elem_of_cons in H as [H|H]; [discriminate|].
  destruct (execAsync _) as [[out err]|e].
  - apply elem_of_app in H as [H|H];
      [destruct (Pipeline.is_empty out) | destruct (Pipeline.is_empty err)];
      try (now apply elem_of_nil in H);
      apply list_elem_of_singleton in H; discriminate.
  - apply list_elem_of_singleton in H. discriminate.
Qed.

(** X27. whatever each child process does, fail or not, [main] starts the
    three scripts, each once and in the order generate, create, query, and
    the last thing it writes is the line that reports completion. *)
Theorem pipeline_runs_every_stage (execAsync : string -> Result (string * string)) :
  Pipeline.started (Pipeline.main execAsync) =
    ["generate-data.js"; "create-database.js"; "run-queries.js"] /\
  exists log, Pipeline.main execAsync = (log ++ [Pipeline.Completed])%list /\
              Pipeline.Completed ∉ log.
Proof.
  split.
  - unfold Pipeline.main.
    change (Pipeline.Starting :: ?l) with ([Pipeline.Starting] ++ l)%list.
    rewrite !started_app, !started_runScript. reflexivity.
  - exists (Pipeline.Starting ::
            Pipeline.runScript execAsync "generate-data.js" ++
            Pipeline.runScript execAsync "create-database.js" ++
            Pipeline.runScript execAsync "run-queries.js")%list.
    split.
    + unfold Pipeline.main. rewrite !app_comm_cons, <- !app_assoc. reflexivity.
    + intros H. apply elem_of_cons in H as [H|H]; [discriminate|].
      repeat (apply elem_of_app in H as [H|H]; [exact (runScript_no_end _ _ H)|]).
      exact (runScript_no_end _ _ H).
Qed.

Lemma main_nothing_to_insert_witness :
  main (E := Sql.reference_engine) sample_header_files = (0, Sql.mkDb fresh_tables None true).
Proof.
  apply (main_nothing_to_insert (E := Sql.reference_engine)).
  intros fileName fields Hin. unfold main_loads in Hin.
  repeat (apply elem_of_cons in Hin as [[= -> ->]|Hin]; [vm_compute; reflexivity|]).
  now apply elem_of_nil in Hin.
Defined.

Lemma generators_empty_count_witness :
  generateCustomers (P := node) (-3) sample_rng = Ok ([], sample_rng) /\
  generateProducts (P := node) (-3) sample_rng = Ok ([], sample_rng) /\
  generateOrders (P := node) (-3) 7 sample_rng = Ok ([], sample_rng).
Proof. apply (generators_empty_count (P := node)). lia. Defined.

Lemma generateOrders_needs_customers_witness :
  exists e, generateOrders (P := node) 2 0 sample_rng = Throw e.
Proof. apply (generateOrders_needs_customers (P := node)); lia. Defined.

Lemma generateOrders_window_witness :
  exists l g',
    generateOrders (P := node) 3 2 sample_rng = Ok (l, g') /\
    Forall2 (fresh_order (P := node) 2) (seq 0 (Z.to_nat 3)) l.
Proof. apply (generateOrders_window (P := node)). lia. Defined.

Lemma generateOrderItems_items_witness :
  exists items orders' g',
    generateOrderItems (P := node) sample_orders sample_products 5 sample_rng
      = Ok ((items, orders'), g') /\
    Forall (item_of (P := node) sample_products) items.
Proof. apply (generateOrderItems_items (P := node)); discriminate. Defined.

Lemma generateOrderItems_no_products_witness :
  exists e, generateOrderItems (P := node) sample_orders [] 5 sample_rng = Throw e.
Proof. apply (generateOrderItems_no_products (P := node)). discriminate. Defined.

Lemma escapeCsvValue_injective_witness :
  escapeCsvValue (VStr "a,b") <> escapeCsvValue (VStr "a").
Proof. apply escapeCsvValue_injective; [exact I | exact I | discriminate]. Defined.

Lemma csv_row_parseLine_witness :
  CsvParser.parseLine (csv_row ["customer_id"; "name"] sample_padded_customer) =
  map (fun header => Js.chars (String_of (field sample_padded_customer header)))
      ["customer_id"; "name"].
Proof.
  apply csv_row_parseLine; [simpl; lia|].
  repeat constructor; vm_compute; discriminate.
Defined.


Lemma loadCsv_without_converters_witness :
  loadCsv {[ "orders.csv" := sample_worse_orders ]} "orders.csv" ∅ =
  Ok (map as_text (CsvParser.rows sample_worse_orders)).
Proof.
  apply loadCsv_without_converters; [apply lookup_singleton_eq|].
  unfold plain_key. apply (bool_decide_unpack _). vm_compute. exact I.
Defined.


Lemma generateData_unique_ids_witness :
  exists ds g',
    generateData (P := node) 2 2 3 4 sample_rng = Ok (ds, g') /\
    NoDup (Customer.customer_id <$> customers ds) /\
    NoDup (Product.product_id <$> products ds) /\
    NoDup (Order.order_id <$> ds_orders ds) /\
    NoDup (OrderItem.order_item_id <$> ds_orderItems ds) /\
    NoDup (Payment.payment_id <$> payments ds).
Proof. apply (generateData_unique_ids (P := node)); lia. Defined.

Lemma generateOrderItems_empty_orders_witness :
  generateOrderItems (P := node) [] sample_products 0 sample_rng = Ok (([], []), sample_rng) /\
  exists e, generateOrderItems (P := node) [] sample_products 3 sample_rng = Throw e.
Proof.
  split.
  - apply (proj1 (generateOrderItems_empty_orders (P := node) sample_products 0 sample_rng)).
    lia.
  - apply (proj2 (generateOrderItems_empty_orders (P := node) sample_products 3 sample_rng)).
    lia.
Defined.
